(** * The lip-sync inference pipeline

    A shallow embedding of [latentsync/pipelines/lipsync_pipeline.py]
    (class [LipsyncPipeline]): the window bookkeeping of [__call__], the
    noise latents, the guidance recombination, the local composite, the
    restoration with its super-resolution hook, the audio trim, and the
    order in which a run touches its collaborators and the file system.

    Conventions.
    - A run is a value of the monad [M]: the list of effects it performed,
      in order, and either the value it returned or the exception it raised.
    - Tensor entries are exact rationals ([Q]); Python scalars computed from
      integers ([a / b], [int(x)]) are binary64 and use the kernel's floats.
    - A tensor with a frame axis is a list along that axis; the remaining
      (channel, row, column) axes of one frame form a [block]. Devices,
      dtypes and the permutations of axes ([rearrange], [transpose],
      [cvtColor]) do not appear.
    - [num_frames], the channel and batch counts are natural numbers.
    - The call is the one with [callback=None], the default: the progress
      bar and the callback neither change the latents nor the outcome;
      when they are reported is modelled on its own, as [progress].
      Attribute stores ([self.superres], [self.video_fps],
      [self.image_processor]) and the [eval]/[train] switch of the denoiser
      are passed as arguments or left out.
    - The collaborators (codec, denoiser, scheduler, audio encoder, image
      processor, tensor libraries) are fields of [Env]; they are total, so
      a failure inside one of them is outside the model. *)

From Stdlib Require Import String ZArith QArith List Bool Arith Lia.
From Stdlib Require Import PrimFloat Uint63 SpecFloat FloatOps.
Import ListNotations.

Set Implicit Arguments.

(** ** Python and torch primitives *)

Module Py.

Inductive exn : Type :=
| AssertionError (msg : string)
| ValueError (msg : string)
| RuntimeError (msg : string)
| FileNotFoundError (msg : string)
| ZeroDivisionError
| OverflowError
| IndexError.

(** [xs[start:stop]] for non-negative bounds: both are clamped to the
    length, and [stop <= start] gives the empty list. *)
Definition slice {A : Type} (start stop : nat) (xs : list A) : list A :=
  firstn (stop - start) (skipn start xs).

(** [xs[i * n : (i + 1) * n]], the [i]-th window of length [n]. *)
Definition window {A : Type} (i n : nat) (xs : list A) : list A :=
  slice (i * n) ((i + 1) * n) xs.

(** [xs[:stop]]: a negative [stop] counts from the end. *)
Definition slice_to {A : Type} (stop : Z) (xs : list A) : list A :=
  if (stop <? 0)%Z then firstn (length xs - Z.to_nat (- stop)) xs
  else firstn (Z.to_nat stop) xs.

(** [x or d] on an optional integer: [None] and [0] are falsy. *)
Definition or_default (x : option Z) (d : Z) : Z :=
  match x with
  | Some z => if (z =? 0)%Z then d else z
  | None => d
  end.

(** [float(z)]: the binary64 nearest to [z], ties to even; exact up to
    2^53 in absolute value, an infinity (where Python raises
    [OverflowError]) from 2^1024 on. *)
Definition float_of_Z (z : Z) : float :=
  SF2Prim (binary_normalize prec emax z 0 false).

(** [int(x)] on a float: truncation toward zero; [None] on infinities
    and NaN, where Python raises. *)
Definition int_of_float (x : float) : option Z :=
  match Prim2SF x with
  | S754_zero _ => Some 0%Z
  | S754_finite s m e =>
      let mag := if (0 <=? e)%Z then (Z.pos m * 2 ^ e)%Z
                 else (Z.pos m / 2 ^ (- e))%Z in
      Some (if s then (- mag)%Z else mag)
  | S754_infinity _ | S754_nan => None
  end.

(** [int(q)] on an exact number: truncation toward zero. *)
Definition int_of_Q (q : Q) : Z := Z.quot (Qnum q) (Z.pos (Qden q)).

(** [max(a, b)]: the first argument unless the second is strictly greater. *)
Definition max (a b : float) : float := if PrimFloat.ltb a b then b else a.

(** [a > b] on exact numbers. *)
Definition gt (a b : Q) : bool := negb (Qle_bool a b).

End Py.

Import Py.

(** ** Effects *)

(** What a run does, one constructor per call worth observing: the
    collaborators of [__call__], the file system, and the entry into a
    super-resolution variant. *)
Inductive event : Type :=
| EvCheckFfmpeg
| EvReadVideo
| EvAffineTransform (index : nat)
| EvStackFaces (n : nat)
| EvReadAudio
| EvSetTimesteps (num_inference_steps : nat)
| EvAudio2Feat
| EvFeature2Chunks (fps : Z)
| EvRandn (shape : nat * nat * nat * nat * nat)
| EvDenoise (chunk : nat)
| EvSuperres (variant : string) (scale_factor : float)
| EvRestoreImg (index : nat)
| EvPathExists (path : string)
| EvRmTree (path : string)
| EvMakeDirs (path : string)
| EvWriteVideo (path : string) (frames : nat) (fps : Z)
| EvWriteAudio (path : string) (samples : nat) (rate : Z)
| EvSubprocess (command : string).

Inductive outcome (A : Type) : Type :=
| Returned (a : A)
| Raised (e : exn).

Arguments Raised {A} e.

Definition M (A : Type) : Type := (list event * outcome A)%type.

Definition ret {A : Type} (a : A) : M A := ([], Returned a).
Definition raise {A : Type} (e : exn) : M A := ([], Raised e).
Definition tell (e : event) : M unit := ([e], Returned tt).
Definition tell_all (es : list event) : M unit := (es, Returned tt).

Definition bind {A B : Type} (m : M A) (k : A -> M B) : M B :=
  match m with
  | (tr, Returned a) => let (tr', r) := k a in (tr ++ tr', r)
  | (tr, Raised e) => (tr, Raised e)
  end.

Declare Scope run_scope.
Delimit Scope run_scope with run.
Notation "x <- m ;; k" := (bind m (fun x => k))
  (at level 100, m at next level, right associativity) : run_scope.
Notation "' pat <- m ;; k" := (bind m (fun x => match x with pat => k end))
  (at level 100, pat pattern, m at next level, right associativity) : run_scope.
Notation "m ;; k" := (bind m (fun _ => k))
  (at level 100, right associativity) : run_scope.
Open Scope run_scope.

Definition trace {A : Type} (m : M A) : list event := fst m.
Definition result {A : Type} (m : M A) : outcome A := snd m.

(** Python operations that can raise. *)

Definition floordiv (a b : nat) : M nat :=
  if (b =? 0)%nat then raise ZeroDivisionError else ret (a / b)%nat.

(** [a / b] on integers, as the quotient of the two conversions: it is
    Python's correctly rounded quotient whenever both operands are at most
    2^53 in absolute value, the conversions being exact then. *)
Definition truediv (a b : Z) : M float :=
  if (b =? 0)%Z then raise ZeroDivisionError
  else ret (PrimFloat.div (float_of_Z a) (float_of_Z b)).

Definition to_int (x : float) : M Z :=
  match int_of_float x with
  | Some z => ret z
  | None => raise OverflowError
  end.

Definition getitem {A : Type} (xs : list A) (index : nat) : M A :=
  match nth_error xs index with
  | Some x => ret x
  | None => raise IndexError
  end.

(** ** Tensors *)

(** One frame of a tensor: its (channels, rows, columns) and its entries. *)
Record block : Type := {
  shape : nat * nat * nat;
  entry : nat -> nat -> nat -> Q
}.

(** [(f, c, h, w)]: a list of frames. *)
Definition tensor4 : Type := list block.
(** [(b, c, f, h, w)]: per batch sample, the list of its frames. *)
Definition tensor5 : Type := list (list block).
(** One audio feature chunk, and a stack of them (one per frame). *)
Definition embed : Type := list (list Q).
Definition Timestep : Type := Z.
(** A bounding box [(x1, y1, x2, y2)] in original-frame coordinates. *)
Definition box : Type := (Q * Q * Q * Q)%type.

Definition bmap (f : Q -> Q) (t : block) : block :=
  {| shape := shape t; entry := fun c y x => f (entry t c y x) |}.

(** Elementwise binary operation; the operands are shape-compatible and the
    result has the shape of the first. *)
Definition bmap2 (f : Q -> Q -> Q) (s t : block) : block :=
  {| shape := shape s; entry := fun c y x => f (entry s c y x) (entry t c y x) |}.

Fixpoint zip_with {A B C : Type} (f : A -> B -> C) (xs : list A) (ys : list B) : list C :=
  match xs, ys with
  | x :: xs', y :: ys' => f x y :: zip_with f xs' ys'
  | _, _ => []
  end.

Definition t4map (f : Q -> Q) : tensor4 -> tensor4 := map (bmap f).
Definition t4map2 (f : Q -> Q -> Q) : tensor4 -> tensor4 -> tensor4 := zip_with (bmap2 f).
Definition t5map (f : Q -> Q) : tensor5 -> tensor5 := map (t4map f).
Definition t5map2 (f : Q -> Q -> Q) : tensor5 -> tensor5 -> tensor5 := zip_with (t4map2 f).

(** [torch.zeros_like] on a stack of audio feature chunks. *)
Definition zeros_like (e : list embed) : list embed :=
  map (map (map (fun _ : Q => 0%Q))) e.

(** The sizes along every axis of a stack of audio feature chunks. *)
Definition embed_shape (e : list embed) : list (list nat) :=
  map (map (@length Q)) e.

(** [torch.stack] and [torch.cat] refuse an empty list of tensors. *)
Definition torch_stack {A : Type} (xs : list A) : M (list A) :=
  match xs with
  | [] => raise (RuntimeError "stack expects a non-empty TensorList")
  | _ => ret xs
  end.

Definition torch_cat {A : Type} (xs : list (list A)) : M (list A) :=
  match xs with
  | [] => raise (RuntimeError "torch.cat(): expected a non-empty list of Tensors")
  | _ => ret (concat xs)
  end.

Definition np_stack {A : Type} (xs : list A) : M (list A) :=
  match xs with
  | [] => raise (ValueError "need at least one array to stack")
  | _ => ret xs
  end.

(** [t.chunk(2)] along the batch axis: two consecutive parts, the first of
    size ceil(n / 2). *)
Definition chunk2 {A : Type} (xs : list A) : list A * list A :=
  let k := ((length xs + 1) / 2)%nat in (firstn k xs, skipn k xs).

(** ** The random generator

    A [torch.Generator] is a deterministic source of samples: the sequence
    it will produce, and how far it has been consumed. *)
Record Generator : Type := {
  samples : nat -> Q;
  consumed : nat
}.

Definition tabulate {A : Type} (n : nat) (f : nat -> A) : list A := map f (seq 0 n).

(** [torch.randn(shape, generator=g)]: the next [b*c*f*h*w] samples, laid
    out row-major over [(b, c, f, h, w)]. *)
Definition randn (sh : nat * nat * nat * nat * nat) (g : Generator) : tensor5 * Generator :=
  let '(b, c, f, h, w) := sh in
  (tabulate b (fun ib =>
     tabulate f (fun jf =>
       {| shape := (c, h, w);
          entry := fun ic y x =>
            samples g (consumed g + ((((ib * c + ic) * f + jf) * h + y) * w + x))%nat |})),
   {| samples := samples g; consumed := (consumed g + b * c * f * h * w)%nat |}).

(** [t.repeat(1, 1, n, 1, 1)]: the frames of every sample, [n] times over. *)
Definition repeat_frames (n : nat) (t : tensor5) : tensor5 :=
  map (fun frames => concat (repeat frames n)) t.

(** ** The pipeline's collaborators and the call's arguments *)

(** The denoiser's input for one batch sample: the channel groups that
    [torch.cat(..., dim=1)] lays side by side. *)
Record unet_sample : Type := {
  in_latents : tensor4;
  in_mask : tensor4;
  in_masked_image : tensor4;
  in_image : tensor4
}.

(** Everything a run consults that is not an argument of the call: the host
    and the files, the registered modules ([vae], [unet], [scheduler],
    [audio_encoder]), the image processor and the tensor libraries. Their
    internals are not part of the pipeline; the run only calls them. *)
Record Env : Type := {
  Frame : Type;
  Affine : Type;
  Sample : Type;
  (* host and files *)
  ffmpeg_installed : bool;
  read_video : list Frame;
  read_audio : list Sample;
  temp_exists : bool;
  (* vae *)
  block_out_channels : list nat;
  latent_channels : nat;
  scaling_factor : Q;
  shift_factor : Q;
  vae_encode_sample : tensor4 -> Generator -> tensor4 * Generator;
  vae_decode : block -> block;
  (* unet *)
  add_audio_layer : bool;
  sample_size : Z;
  denoiser : unet_sample -> Timestep -> option (list embed) -> tensor4;
  (* scheduler *)
  init_noise_sigma : Q;
  set_timesteps : nat -> list Timestep;
  scale_model_input : tensor4 -> Timestep -> tensor4;
  accepts_eta : bool;
  accepts_generator : bool;
  scheduler_step :
    tensor5 -> Timestep -> tensor5 -> option Q -> option Generator -> tensor5 * Generator;
  (* audio encoder: feature2chunks(audio2feat(audio_path), fps) *)
  feature2chunks : Z -> list embed;
  (* image processor: [ImageProcessor(height, mask=mask, device="cuda")], which
     [__call__] builds from its [height] argument as given, before the
     working size is resolved; these are the methods of the processor of
     the call under study, so one [Env] stands for calls with one [height] *)
  affine_transform : Frame -> block * box * Affine;
  prepare_mask_and_masked_image : block -> block * block * block;
  restore_img : Frame -> block -> Affine -> Frame;
  (* torch, torchvision, cv2 *)
  interpolate : tensor4 -> Z * Z -> tensor4;
  resize : block -> Z * Z -> block;
  cv2_resize : block -> Z * Z -> block;
  (* the scheduler returns a sample laid out like the one it was given *)
  scheduler_step_layout : forall pred t latents eta g,
    map (@length block) (fst (scheduler_step pred t latents eta g)) =
    map (@length block) latents
}.

(** [callback_steps: Optional[int]], as [check_inputs] tells it apart. *)
Inductive callback_steps_arg : Type :=
| CbNone
| CbInt (n : Z)
| CbNotInt.

Record Args : Type := {
  video_out_path : string;
  num_frames : nat;
  video_fps : Z;
  audio_sample_rate : Z;
  height : option Z;
  width : option Z;
  num_inference_steps : nat;
  guidance_scale : Q;
  eta : Q;
  generator : Generator;
  callback_steps : callback_steps_arg;
  superres : string
}.

(** The same call with one argument changed. *)
Definition set_size (a : Args) (h w : option Z) : Args :=
  {| video_out_path := video_out_path a; num_frames := num_frames a;
     video_fps := video_fps a; audio_sample_rate := audio_sample_rate a;
     height := h; width := w; num_inference_steps := num_inference_steps a;
     guidance_scale := guidance_scale a; eta := eta a; generator := generator a;
     callback_steps := callback_steps a; superres := superres a |}.

Definition set_video_fps (a : Args) (fps : Z) : Args :=
  {| video_out_path := video_out_path a; num_frames := num_frames a;
     video_fps := fps; audio_sample_rate := audio_sample_rate a;
     height := height a; width := width a; num_inference_steps := num_inference_steps a;
     guidance_scale := guidance_scale a; eta := eta a; generator := generator a;
     callback_steps := callback_steps a; superres := superres a |}.


(** ** Methods that need no collaborator *)

Definition check_inputs (height width : Z) (callback_steps : callback_steps_arg) : M unit :=
  (if (height =? width)%Z then ret tt
   else raise (AssertionError "Height and width must be equal")) ;;
  (if negb (height mod 8 =? 0)%Z || negb (width mod 8 =? 0)%Z
   then raise (ValueError "`height` and `width` must be divisible by 8")
   else ret tt) ;;
  match callback_steps with
  | CbInt n =>
      if (n <=? 0)%Z then raise (ValueError "`callback_steps` must be a positive integer")
      else ret tt
  | CbNone | CbNotInt => raise (ValueError "`callback_steps` must be a positive integer")
  end.

Definition paste_surrounding_pixels_back (decoded_latents pixel_values masks : tensor4)
  : tensor4 :=
  t4map2 Qplus (t4map2 Qmult decoded_latents masks)
               (t4map2 Qmult pixel_values (t4map (fun m => 1 - m) masks)).

(** The call of [paste_surrounding_pixels_back] in [__call__]: the mask it
    is given is [1 - masks], the area to regenerate. *)
Definition local_composite (decoded_latents pixel_values masks : tensor4) : tensor4 :=
  paste_surrounding_pixels_back decoded_latents pixel_values (t4map (fun m => 1 - m) masks).

(** [noise_pred_uncond + guidance_scale * (noise_pred_audio - noise_pred_uncond)] *)
Definition guide (guidance_scale : Q) (noise_pred_uncond noise_pred_audio : tensor5)
  : tensor5 :=
  t5map2 Qplus noise_pred_uncond
    (t5map (Qmult guidance_scale) (t5map2 Qminus noise_pred_audio noise_pred_uncond)).

(** [torch.cat([a, b, c, d], dim=1)] on tensors of one batch size. *)
Fixpoint cat_channels (a b c d : tensor5) : list unet_sample :=
  match a, b, c, d with
  | x :: a', y :: b', z :: c', u :: d' =>
      {| in_latents := x; in_mask := y; in_masked_image := z; in_image := u |}
      :: cat_channels a' b' c' d'
  | _, _, _, _ => []
  end.

(** The audio embeddings of chunk [i]: its [num_frames] feature chunks,
    preceded under guidance by as many zero ones. *)
Definition chunk_audio_embeds (add_audio_layer do_classifier_free_guidance : bool)
    (whisper_chunks : list embed) (num_frames i : nat) : option (list embed) :=
  if add_audio_layer then
    let audio_embeds := window i num_frames whisper_chunks in
    if do_classifier_free_guidance
    then Some (zeros_like audio_embeds ++ audio_embeds)
    else Some audio_embeds
  else None.

Definition clamp01 (v : Q) : Q :=
  if Qle_bool v 0 then 0 else if Qle_bool 1 v then 1 else v.

(** [(face / 2 + 0.5).clamp(0, 1)] then [(face * 255).to(torch.uint8)]. *)
Definition to_uint8_image (face : block) : block :=
  bmap (fun v => inject_Z (int_of_Q (clamp01 (v / 2 + (1 # 2)) * 255))) face.

(** ** The pipeline *)

Section Pipeline.

Variable E : Env.

(** [2 ** (len(self.vae.config.block_out_channels) - 1)]; a codec has at
    least one block. *)
Definition vae_scale_factor : Z := (2 ^ Z.of_nat (length (block_out_channels E) - 1))%Z.

Definition check_ffmpeg_installed : M unit :=
  tell EvCheckFfmpeg ;;
  if ffmpeg_installed E then ret tt else raise (FileNotFoundError "ffmpeg not found").

Definition decode_latents (latents : tensor5) : tensor4 :=
  let latents := t5map (fun v => v / scaling_factor E + shift_factor E) latents in
  (* "b c f h w -> (b f) c h w" *)
  let latents := concat latents in
  map (vae_decode E) latents.

(** The keyword arguments [scheduler.step] accepts: [eta], and whether the
    shared generator is handed over. *)
Definition prepare_extra_step_kwargs (eta : Q) : option Q * bool :=
  ((if accepts_eta E then Some eta else None), accepts_generator E).

Definition prepare_latents (batch_size num_frames num_channels_latents : nat)
    (height width : Z) (generator : Generator) : M (tensor5 * Generator) :=
  let h := (height / vae_scale_factor)%Z in
  let w := (width / vae_scale_factor)%Z in
  if (h <? 0)%Z || (w <? 0)%Z
  then raise (RuntimeError "Trying to create tensor with negative dimension")
  else
    let shape := (batch_size, num_channels_latents, 1%nat, Z.to_nat h, Z.to_nat w) in
    tell (EvRandn shape) ;;
    let '(latents, generator) := randn shape generator in
    let latents := repeat_frames num_frames latents in
    let latents := t5map (fun v => v * init_noise_sigma E) latents in
    ret (latents, generator).

Definition prepare_mask_latents (mask masked_image : tensor4) (height width : Z)
    (generator : Generator) (do_classifier_free_guidance : bool)
  : tensor5 * tensor5 * Generator :=
  let mask := interpolate E mask
                ((height / vae_scale_factor)%Z, (width / vae_scale_factor)%Z) in
  let '(masked_image_latents, generator) := vae_encode_sample E masked_image generator in
  let masked_image_latents :=
    t4map (fun v => (v - shift_factor E) * scaling_factor E) masked_image_latents in
  (* "f c h w -> 1 c f h w" *)
  let mask := [mask] in
  let masked_image_latents := [masked_image_latents] in
  if do_classifier_free_guidance
  then (mask ++ mask, masked_image_latents ++ masked_image_latents, generator)
  else (mask, masked_image_latents, generator).

Definition prepare_image_latents (images : tensor4) (generator : Generator)
    (do_classifier_free_guidance : bool) : tensor5 * Generator :=
  let '(image_latents, generator) := vae_encode_sample E images generator in
  let image_latents :=
    t4map (fun v => (v - shift_factor E) * scaling_factor E) image_latents in
  let image_latents := [image_latents] in
  if do_classifier_free_guidance
  then (image_latents ++ image_latents, generator)
  else (image_latents, generator).

Definition affine_transform_video
  : M (tensor4 * list (Frame E) * list box * list (Affine E)) :=
  tell EvReadVideo ;;
  let video_frames := read_video E in
  tell_all (map EvAffineTransform (seq 0 (length video_frames))) ;;
  let transformed := map (affine_transform E) video_frames in
  faces <- torch_stack (map (fun r => fst (fst r)) transformed) ;;
  tell (EvStackFaces (length faces)) ;;
  ret (faces, video_frames, map (fun r => snd (fst r)) transformed, map snd transformed).

(** The two variants share one body: upscale with [cv2.resize], no
    enhancement, and a division by 255. *)
Definition apply_gfpgan_superres (face_tensor : block) (scale_factor : float) : M block :=
  tell (EvSuperres "GFPGAN" scale_factor) ;;
  let '(_, h, w) := shape face_tensor in
  new_h <- to_int (PrimFloat.mul (float_of_Z (Z.of_nat h)) scale_factor) ;;
  new_w <- to_int (PrimFloat.mul (float_of_Z (Z.of_nat w)) scale_factor) ;;
  let upscaled := cv2_resize E face_tensor (new_w, new_h) in
  ret (bmap (fun v => v / 255) upscaled).

Definition apply_codeformer_superres (face_tensor : block) (scale_factor : float) : M block :=
  tell (EvSuperres "CodeFormer" scale_factor) ;;
  let '(_, h, w) := shape face_tensor in
  new_h <- to_int (PrimFloat.mul (float_of_Z (Z.of_nat h)) scale_factor) ;;
  new_w <- to_int (PrimFloat.mul (float_of_Z (Z.of_nat w)) scale_factor) ;;
  let upscaled := cv2_resize E face_tensor (new_w, new_h) in
  ret (bmap (fun v => v / 255) upscaled).

(** The super-resolution hook of [restore_video], for one face and the
    size of the box it is about to fill. *)
Definition superresolve (superres : string) (face : block) (height width : Z) : M block :=
  let '(_, face_h, face_w) := shape face in
  if negb (superres =? "none")%string
     && ((Z.of_nat face_h <? height)%Z || (Z.of_nat face_w <? width)%Z)
  then
    scale_h <- truediv height (Z.of_nat face_h) ;;
    scale_w <- truediv width (Z.of_nat face_w) ;;
    let scale_factor := Py.max scale_h scale_w in
    if (superres =? "GFPGAN")%string then apply_gfpgan_superres face scale_factor
    else if (superres =? "CodeFormer")%string then apply_codeformer_superres face scale_factor
    else ret face
  else ret face.

Definition restore_face (superres : string) (video_frames : list (Frame E))
    (boxes : list box) (affine_matrices : list (Affine E)) (index : nat) (face : block)
  : M (Frame E) :=
  '(x1, y1, x2, y2) <- getitem boxes index ;;
  let height := int_of_Q (y2 - y1) in
  let width := int_of_Q (x2 - x1) in
  face <- superresolve superres face height width ;;
  let face := resize E face (height, width) in
  let face := to_uint8_image face in
  frame <- getitem video_frames index ;;
  affine_matrix <- getitem affine_matrices index ;;
  tell (EvRestoreImg index) ;;
  ret (restore_img E frame face affine_matrix).

(** [for index, face in enumerate(faces)], from [index] on. *)
Fixpoint restore_faces (superres : string) (video_frames : list (Frame E))
    (boxes : list box) (affine_matrices : list (Affine E)) (index : nat) (faces : tensor4)
  : M (list (Frame E)) :=
  match faces with
  | [] => ret []
  | face :: rest =>
      out_frame <- restore_face superres video_frames boxes affine_matrices index face ;;
      out_frames <- restore_faces superres video_frames boxes affine_matrices (S index) rest ;;
      ret (out_frame :: out_frames)
  end.

Definition restore_video (superres : string) (faces : tensor4)
    (video_frames : list (Frame E)) (boxes : list box) (affine_matrices : list (Affine E))
  : M (list (Frame E)) :=
  let video_frames := firstn (length faces) video_frames in
  out_frames <- restore_faces superres video_frames boxes affine_matrices 0 faces ;;
  np_stack out_frames.

(** The denoiser on a batch. Sample [k] of [b] reads its own rows of the
    audio embeddings, the [k]-th of [b] equal consecutive groups (the
    [(b f)] layout of [encoder_hidden_states]). *)
Definition unet (inputs : list unet_sample) (t : Timestep)
    (encoder_hidden_states : option (list embed)) : tensor5 :=
  let b := length inputs in
  map (fun ks : nat * unet_sample =>
         let (k, s) := ks in
         denoiser E s t
           (option_map
              (fun e => let n := (length e / b)%nat in slice (k * n) ((k + 1) * n) e)
              encoder_hidden_states))
      (combine (seq 0 b) inputs).

(** The prediction handed to [scheduler.step] at one timestep. *)
Definition predict_noise (do_classifier_free_guidance : bool) (guidance_scale : Q)
    (audio_embeds : option (list embed))
    (mask_latents masked_image_latents image_latents latents : tensor5) (t : Timestep)
  : tensor5 :=
  let latent_model_input :=
    if do_classifier_free_guidance then latents ++ latents else latents in
  let latent_model_input := map (fun s => scale_model_input E s t) latent_model_input in
  let latent_model_input :=
    cat_channels latent_model_input mask_latents masked_image_latents image_latents in
  let noise_pred := unet latent_model_input t audio_embeds in
  if do_classifier_free_guidance then
    let '(noise_pred_uncond, noise_pred_audio) := chunk2 noise_pred in
    guide guidance_scale noise_pred_uncond noise_pred_audio
  else noise_pred.

Definition denoise_step (do_classifier_free_guidance : bool) (guidance_scale : Q)
    (extra_step_kwargs : option Q * bool) (audio_embeds : option (list embed))
    (mask_latents masked_image_latents image_latents : tensor5)
    (state : tensor5 * Generator) (t : Timestep) : tensor5 * Generator :=
  let '(latents, generator) := state in
  let noise_pred :=
    predict_noise do_classifier_free_guidance guidance_scale audio_embeds
      mask_latents masked_image_latents image_latents latents t in
  let '(kw_eta, kw_generator) := extra_step_kwargs in
  let '(prev_sample, generator') :=
    scheduler_step E noise_pred t latents kw_eta
      (if kw_generator then Some generator else None) in
  (prev_sample, if kw_generator then generator' else generator).

Definition prepare_masks_and_masked_images (faces : tensor4)
  : tensor4 * tensor4 * tensor4 :=
  let r := map (prepare_mask_and_masked_image E) faces in
  (map (fun x => fst (fst x)) r, map (fun x => snd (fst x)) r, map snd r).

(** What [__call__] has in hand when the chunk loop starts. *)
Record loop_state : Type := {
  ls_height : Z;
  ls_width : Z;
  ls_do_classifier_free_guidance : bool;
  ls_timesteps : list Timestep;
  ls_extra_step_kwargs : option Q * bool;
  ls_whisper_chunks : list embed;
  ls_faces : tensor4;
  ls_all_latents : tensor5
}.

(** The body of [for i in range(num_inferences)]. *)
Definition infer_chunk (a : Args) (s : loop_state) (i : nat) (generator : Generator)
  : tensor4 * Generator :=
  let n := num_frames a in
  let do_cfg := ls_do_classifier_free_guidance s in
  let audio_embeds :=
    chunk_audio_embeds (add_audio_layer E) do_cfg (ls_whisper_chunks s) n i in
  let inference_faces := window i n (ls_faces s) in
  (* all_latents[:, :, i * n : (i + 1) * n] *)
  let latents := map (window i n) (ls_all_latents s) in
  let '(pixel_values, masked_pixel_values, masks) :=
    prepare_masks_and_masked_images inference_faces in
  let '(mask_latents, masked_image_latents, generator) :=
    prepare_mask_latents masks masked_pixel_values (ls_height s) (ls_width s)
      generator do_cfg in
  let '(image_latents, generator) :=
    prepare_image_latents pixel_values generator do_cfg in
  let '(latents, generator) :=
    fold_left
      (denoise_step do_cfg (guidance_scale a) (ls_extra_step_kwargs s) audio_embeds
         mask_latents masked_image_latents image_latents)
      (ls_timesteps s) (latents, generator) in
  let decoded_latents := decode_latents latents in
  let decoded_latents := local_composite decoded_latents pixel_values masks in
  (decoded_latents, generator).

(** The loop itself: [synced_video_frames], one entry per chunk, in order. *)
Fixpoint infer_chunks (a : Args) (s : loop_state) (chunks : list nat)
    (generator : Generator) : list tensor4 :=
  match chunks with
  | [] => []
  | i :: rest =>
      let '(decoded_latents, generator) := infer_chunk a s i generator in
      decoded_latents :: infer_chunks a s rest generator
  end.

(** [int(frames / video_fps * audio_sample_rate)] *)
Definition remain_length (frames : nat) (video_fps audio_sample_rate : Z) : M Z :=
  seconds <- truediv (Z.of_nat frames) video_fps ;;
  to_int (PrimFloat.mul seconds (float_of_Z audio_sample_rate)).

Definition path_join (dir name : string) : string := (dir ++ "/" ++ name)%string.

(** ** [__call__]

    The body of [__call__], cut at two points for reference: what it
    gathers and validates (up to [check_inputs]), the inference over the
    windows (up to the concatenation of the chunks), and the restoration
    and writing of the result. *)

(** Up to [self.check_inputs(height, width, callback_steps)]. *)
Definition gather (a : Args)
  : M (tensor4 * list (Frame E) * list box * list (Affine E) * list (Sample E) * Z * Z) :=
  check_ffmpeg_installed ;;
  '(faces, original_video_frames, boxes, affine_matrices) <- affine_transform_video ;;
  tell EvReadAudio ;;
  let audio_samples := read_audio E in
  let height := or_default (height a) (sample_size E * vae_scale_factor)%Z in
  let width := or_default (width a) (sample_size E * vae_scale_factor)%Z in
  check_inputs height width (callback_steps a) ;;
  ret (faces, original_video_frames, boxes, affine_matrices, audio_samples, height, width).

(** The audio features of the whole track and the number of windows. *)
Definition num_inferences (a : Args) (faces : tensor4) : M (list embed * nat) :=
  if add_audio_layer E then
    tell EvAudio2Feat ;;
    tell (EvFeature2Chunks (video_fps a)) ;;
    let whisper_chunks := feature2chunks E (video_fps a) in
    num_inferences <-
      floordiv (Nat.min (length faces) (length whisper_chunks)) (num_frames a) ;;
    ret (whisper_chunks, num_inferences)
  else
    num_inferences <- floordiv (length faces) (num_frames a) ;;
    ret ([], num_inferences).

(** From [do_classifier_free_guidance = guidance_scale > 1.0] to
    [torch.cat(synced_video_frames)]. *)
Definition infer (a : Args) (faces : tensor4) (height width : Z) : M tensor4 :=
  let do_classifier_free_guidance := gt (guidance_scale a) 1 in
  tell (EvSetTimesteps (num_inference_steps a)) ;;
  let timesteps := set_timesteps E (num_inference_steps a) in
  let extra_step_kwargs := prepare_extra_step_kwargs (eta a) in
  '(whisper_chunks, num_inferences) <- num_inferences a faces ;;
  let batch_size := 1%nat in
  '(all_latents, generator) <-
    prepare_latents batch_size (num_frames a * num_inferences) (latent_channels E)
      height width (generator a) ;;
  let s := {| ls_height := height; ls_width := width;
              ls_do_classifier_free_guidance := do_classifier_free_guidance;
              ls_timesteps := timesteps;
              ls_extra_step_kwargs := extra_step_kwargs;
              ls_whisper_chunks := whisper_chunks;
              ls_faces := faces;
              ls_all_latents := all_latents |} in
  tell_all (map EvDenoise (seq 0 num_inferences)) ;;
  let synced_video_frames := infer_chunks a s (seq 0 num_inferences) generator in
  torch_cat synced_video_frames.

(** From [self.restore_video(...)] to the external encoder. *)
Definition finish (a : Args) (faces : tensor4) (original_video_frames : list (Frame E))
    (boxes : list box) (affine_matrices : list (Affine E)) (audio_samples : list (Sample E))
  : M (list (Frame E) * list (Sample E)) :=
  synced_video_frames <-
    restore_video (superres a) faces original_video_frames boxes affine_matrices ;;
  audio_samples_remain_length <-
    remain_length (length synced_video_frames) (video_fps a) (audio_sample_rate a) ;;
  let audio_samples := slice_to audio_samples_remain_length audio_samples in
  let temp_dir := "temp"%string in
  tell (EvPathExists temp_dir) ;;
  (if temp_exists E then tell (EvRmTree temp_dir) else ret tt) ;;
  tell (EvMakeDirs temp_dir) ;;
  tell (EvWriteVideo (path_join temp_dir "video.mp4") (length synced_video_frames) 25) ;;
  tell (EvWriteAudio (path_join temp_dir "audio.wav") (length audio_samples)
          (audio_sample_rate a)) ;;
  tell (EvSubprocess
          ("ffmpeg -y -loglevel error -nostdin -i " ++ path_join temp_dir "video.mp4"
           ++ " -i " ++ path_join temp_dir "audio.wav"
           ++ " -c:v libx264 -c:a aac -q:v 0 -q:a 0 " ++ video_out_path a)%string) ;;
  ret (synced_video_frames, audio_samples).

Definition call (a : Args) : M (list (Frame E) * list (Sample E)) :=
  '(faces, original_video_frames, boxes, affine_matrices, audio_samples, height, width) <-
    gather a ;;
  synced_faces <- infer a faces height width ;;
  finish a synced_faces original_video_frames boxes affine_matrices audio_samples.

End Pipeline.

(** ** A small instance

    A world on which the definitions can be run: frames and audio samples
    are numbered, every face is a 1x2x2 patch in a 4x4 box, the codec, the
    denoiser and the scheduler leave their input as it is. *)

Definition const_block (sh : nat * nat * nat) (v : Q) : block :=
  {| shape := sh; entry := fun _ _ _ => v |}.

Definition demo_env (frames audio_len : nat) (audio_layer : bool) (chunks_per_fps : Z) : Env.
Proof.
  refine
    {| Frame := nat; Affine := unit; Sample := nat;
       ffmpeg_installed := true;
       read_video := seq 0 frames;
       read_audio := seq 0 audio_len;
       temp_exists := true;
       block_out_channels := [128; 256; 512; 512]%nat;
       latent_channels := 1;
       scaling_factor := 1; shift_factor := 0;
       vae_encode_sample := fun t g => (t, g);
       vae_decode := fun b => b;
       add_audio_layer := audio_layer;
       sample_size := 2;
       denoiser := fun s _ _ => in_latents s;
       init_noise_sigma := 2;
       set_timesteps := fun n => map Z.of_nat (rev (seq 0 n));
       scale_model_input := fun t _ => t;
       accepts_eta := true; accepts_generator := false;
       scheduler_step := fun _ _ latents _ g =>
         (latents, match g with
                   | Some g' => g'
                   | None => {| samples := fun _ => 0%Q; consumed := 0 |}
                   end);
       feature2chunks := fun fps => repeat [[1; 2]; [3; 4]] (Z.to_nat (chunks_per_fps * fps));
       affine_transform := fun n =>
         (const_block (1, 2, 2)%nat (inject_Z (Z.of_nat n)), (0, 0, 4, 4)%Q, tt);
       prepare_mask_and_masked_image := fun b => (b, b, const_block (shape b) 1);
       restore_img := fun frame _ _ => frame;
       interpolate := fun t _ => t;
       resize := fun b _ => b;
       cv2_resize := fun b _ => b |}.
  reflexivity.
Defined.

Definition demo_args (n : nat) (fps : Z) (gs : Q) (sr : string) : Args :=
  {| video_out_path := "out.mp4"; num_frames := n; video_fps := fps;
     audio_sample_rate := 16000; height := None; width := None;
     num_inference_steps := 2; guidance_scale := gs; eta := 0;
     generator := {| samples := fun k => inject_Z (Z.of_nat k); consumed := 0 |};
     callback_steps := CbInt 1; superres := sr |}.

(** ** The vocabulary of the properties *)

Local Open Scope nat_scope.

(** The number of frames of every batch sample. *)
Definition layout (t : tensor5) : list nat := map (@length block) t.

(** The block [torch.randn] draws for batch sample [ib] when the shape has
    one frame: [c * h * w] consecutive samples of the generator. *)
Definition noise_frame (c h w : nat) (g : Generator) (ib : nat) : block :=
  {| shape := (c, h, w);
     entry := fun ic y x =>
       samples g (consumed g + ((((ib * c + ic) * 1 + 0) * h + y) * w + x)) |}.

(** Every effect belongs to one stage of [__call__]. *)
Inductive stage : Type := Gathering | Inferring | Restoring | Writing.

Definition stage_of (e : event) : stage :=
  match e with
  | EvCheckFfmpeg | EvReadVideo | EvAffineTransform _ | EvStackFaces _ | EvReadAudio =>
      Gathering
  | EvSetTimesteps _ | EvAudio2Feat | EvFeature2Chunks _ | EvRandn _ | EvDenoise _ =>
      Inferring
  | EvSuperres _ _ | EvRestoreImg _ => Restoring
  | EvPathExists _ | EvRmTree _ | EvMakeDirs _ | EvWriteVideo _ _ _ | EvWriteAudio _ _ _
  | EvSubprocess _ => Writing
  end.

(** The configuration [check_inputs] accepts. *)
Definition valid_inputs (height width : Z) (callback_steps : callback_steps_arg) : Prop :=
  height = width /\ (height mod 8 = 0)%Z /\ (width mod 8 = 0)%Z /\
  exists n, callback_steps = CbInt n /\ (0 < n)%Z.

(** The chunks a run has denoised, in order. *)
Definition chunks_processed (tr : list event) : list nat :=
  flat_map (fun e => match e with EvDenoise i => [i] | _ => [] end) tr.

Definition randn_shapes (tr : list event) : list (nat * nat * nat * nat * nat) :=
  flat_map (fun e => match e with EvRandn sh => [sh] | _ => [] end) tr.

(** The effects of a run, forgetting how many audio samples it wrote. *)
Definition forget_samples (e : event) : event :=
  match e with
  | EvWriteAudio path _ rate => EvWriteAudio path 0 rate
  | _ => e
  end.

Section Vocabulary.

Variable E : Env.

(** The faces of the whole video, one per frame. *)
Definition all_faces : tensor4 :=
  map (fun r => fst (fst r)) (map (affine_transform E) (read_video E)).

(** The working size: the argument, or the denoiser's native size. *)
Definition working_height (a : Args) : Z :=
  or_default (height a) (sample_size E * vae_scale_factor E)%Z.

Definition working_width (a : Args) : Z :=
  or_default (width a) (sample_size E * vae_scale_factor E)%Z.

(** What a run has done when it reaches [check_inputs]. *)
Definition gathered : list event :=
  [EvCheckFfmpeg; EvReadVideo]
  ++ map EvAffineTransform (seq 0 (length (read_video E)))
  ++ [EvStackFaces (length (read_video E)); EvReadAudio].

(** The usable length of a run: the faces, capped by the audio feature
    chunks when the model is audio-conditioned. *)
Definition usable_length (a : Args) (faces : tensor4) : nat :=
  if add_audio_layer E
  then Nat.min (length faces) (length (feature2chunks E (video_fps a)))
  else length faces.

Definition whisper_chunks_of (a : Args) : list embed :=
  if add_audio_layer E then feature2chunks E (video_fps a) else [].

Definition audio_events (a : Args) : list event :=
  if add_audio_layer E then [EvAudio2Feat; EvFeature2Chunks (video_fps a)] else [].

(** The latent size of the working size. *)
Definition latent_size (x : Z) : nat := Z.to_nat (x / vae_scale_factor E).

(** The single noise frame of a run, scaled by the scheduler's sigma. *)
Definition scaled_noise_frame (a : Args) (height width : Z) : block :=
  bmap (fun v => (v * init_noise_sigma E)%Q)
    (noise_frame (latent_channels E) (latent_size height) (latent_size width)
       (generator a) 0).

(** The state of [__call__] when the chunk loop starts. *)
Definition start_state (a : Args) (faces : tensor4) (height width : Z) : loop_state :=
  {| ls_height := height; ls_width := width;
     ls_do_classifier_free_guidance := gt (guidance_scale a) 1;
     ls_timesteps := set_timesteps E (num_inference_steps a);
     ls_extra_step_kwargs := prepare_extra_step_kwargs E (eta a);
     ls_whisper_chunks := whisper_chunks_of a;
     ls_faces := faces;
     ls_all_latents :=
       [repeat (scaled_noise_frame a height width)
               (num_frames a * (usable_length a faces / num_frames a))] |}.

Definition generator_after_noise (a : Args) (height width : Z) : Generator :=
  {| samples := samples (generator a);
     consumed := consumed (generator a)
                 + 1 * latent_channels E * 1 * latent_size height * latent_size width |}.

Definition inferred (a : Args) (faces : tensor4) (height width : Z) : list event :=
  EvSetTimesteps (num_inference_steps a) :: audio_events a
  ++ [EvRandn (1, latent_channels E, 1, latent_size height, latent_size width)]
  ++ map EvDenoise (seq 0 (usable_length a faces / num_frames a)).

(** The condition under which [restore_video] enters its super-resolution
    branch, as the source writes it. *)
Definition superres_condition (superres : string) (face : block) (height width : Z) : bool :=
  let '(_, face_h, face_w) := shape face in
  negb (superres =? "none")%string
  && ((Z.of_nat face_h <? height)%Z || (Z.of_nat face_w <? width)%Z).

(** The command line handed to the external encoder. *)
Definition ffmpeg_command (a : Args) : string :=
  ("ffmpeg -y -loglevel error -nostdin -i " ++ path_join "temp" "video.mp4"
   ++ " -i " ++ path_join "temp" "audio.wav"
   ++ " -c:v libx264 -c:a aac -q:v 0 -q:a 0 " ++ video_out_path a)%string.

(** What a run does once the frames are restored and the audio is cut. *)
Definition written (a : Args) (frames samples : nat) : list event :=
  EvPathExists "temp"
  :: (if temp_exists E then [EvRmTree "temp"] else [])
  ++ [EvMakeDirs "temp";
      EvWriteVideo "temp/video.mp4" frames 25;
      EvWriteAudio "temp/audio.wav" samples (audio_sample_rate a);
      EvSubprocess (ffmpeg_command a)].

End Vocabulary.

(** ** The chunk loop, name by name

    What the body of [for i in range(num_inferences)] has in hand for chunk
    [i] when it is entered with the generator in state [g], under the names
    of the source. *)

Section Chunk.

Variable E : Env.
Variables (a : Args) (s : loop_state) (i : nat).

(** [inference_faces = faces[i * num_frames : (i + 1) * num_frames]] *)
Definition chunk_faces : tensor4 := window i (num_frames a) (ls_faces s).

(** [audio_embeds] *)
Definition chunk_embeds : option (list embed) :=
  chunk_audio_embeds (add_audio_layer E) (ls_do_classifier_free_guidance s)
    (ls_whisper_chunks s) (num_frames a) i.

(** [latents = all_latents[:, :, i * num_frames : (i + 1) * num_frames]] *)
Definition chunk_noise : tensor5 := map (window i (num_frames a)) (ls_all_latents s).

(** [pixel_values, masked_pixel_values, masks] *)
Definition chunk_pixel_values : tensor4 :=
  fst (fst (prepare_masks_and_masked_images E chunk_faces)).

Definition chunk_masked_pixel_values : tensor4 :=
  snd (fst (prepare_masks_and_masked_images E chunk_faces)).

Definition chunk_masks : tensor4 := snd (prepare_masks_and_masked_images E chunk_faces).

(** [mask_latents, masked_image_latents], and [image_latents] *)
Definition chunk_mask_latents (g : Generator) : tensor5 :=
  fst (fst (prepare_mask_latents E chunk_masks chunk_masked_pixel_values
              (ls_height s) (ls_width s) g (ls_do_classifier_free_guidance s))).

Definition chunk_masked_image_latents (g : Generator) : tensor5 :=
  snd (fst (prepare_mask_latents E chunk_masks chunk_masked_pixel_values
              (ls_height s) (ls_width s) g (ls_do_classifier_free_guidance s))).

Definition chunk_image_latents (g : Generator) : tensor5 :=
  fst (prepare_image_latents E chunk_pixel_values
         (snd (prepare_mask_latents E chunk_masks chunk_masked_pixel_values
                 (ls_height s) (ls_width s) g (ls_do_classifier_free_guidance s)))
         (ls_do_classifier_free_guidance s)).

(** The generator when the loop over the timesteps starts. *)
Definition chunk_generator (g : Generator) : Generator :=
  snd (prepare_image_latents E chunk_pixel_values
         (snd (prepare_mask_latents E chunk_masks chunk_masked_pixel_values
                 (ls_height s) (ls_width s) g (ls_do_classifier_free_guidance s)))
         (ls_do_classifier_free_guidance s)).

(** One turn of [for j, t in enumerate(timesteps)], on the latents and the
    generator. *)
Definition chunk_step (g : Generator) : tensor5 * Generator -> Timestep -> tensor5 * Generator :=
  denoise_step E (ls_do_classifier_free_guidance s) (guidance_scale a)
    (ls_extra_step_kwargs s) chunk_embeds
    (chunk_mask_latents g) (chunk_masked_image_latents g) (chunk_image_latents g).

(** The latents and the generator when the loop over the timesteps ends. *)
Definition chunk_denoised (g : Generator) : tensor5 * Generator :=
  fold_left (chunk_step g) (ls_timesteps s) (chunk_noise, chunk_generator g).

End Chunk.

Section RunVocabulary.

Variable E : Env.

(** The generator as chunk [i] finds it: what the chunks before it left. *)
Fixpoint generator_at (a : Args) (s : loop_state) (g : Generator) (i : nat) : Generator :=
  match i with
  | 0 => g
  | S j => snd (infer_chunk E a s j (generator_at a s g j))
  end.

(** The state of the chunk loop of a run, the generator chunk [i] of the
    run is entered with, and what that chunk appends to
    [synced_video_frames]. *)
Definition run_state (a : Args) : loop_state :=
  start_state E a (all_faces E) (working_height E a) (working_width E a).

Definition run_generator (a : Args) (i : nat) : Generator :=
  generator_at a (run_state a)
    (generator_after_noise E a (working_height E a) (working_width E a)) i.

Definition chunk_output (a : Args) (i : nat) : tensor4 :=
  fst (infer_chunk E a (run_state a) i (run_generator a i)).

(** The number of windows of a run. *)
Definition run_windows (a : Args) : nat :=
  usable_length E a (all_faces E) / num_frames a.

End RunVocabulary.

(** An effect with the frame rate handed to [feature2chunks] replaced. *)
Definition with_fps (fps : Z) (e : event) : event :=
  match e with
  | EvFeature2Chunks _ => EvFeature2Chunks fps
  | _ => e
  end.


(** ** The specification's wording, for comparison *)

(** The noise as the specification words it, for comparison with
    [prepare_latents]: one draw at the full output length, a sample of its
    own for every frame, scaled by the scheduler's sigma. *)
Definition full_length_noise (E : Env) (batch_size num_frames num_channels_latents : nat)
    (height width : Z) (g : Generator) : tensor5 * Generator :=
  let '(latents, g') :=
    randn (batch_size, num_channels_latents, num_frames,
           latent_size E height, latent_size E width) g in
  (t5map (fun v => (v * init_noise_sigma E)%Q) latents, g').

(** The claim as the specification words it: a run that is refused has
    done nothing but check for the external encoder. *)
Definition raises_before_any_processing {A : Type} (r : M A) : Prop :=
  (exists e, result r = Raised e) /\ Forall (fun ev => ev = EvCheckFfmpeg) (trace r).



(** The claim as the specification words it: the audio of a run that
    returns has exactly [frames / video_fps * audio_sample_rate] samples. *)
Definition audio_has_the_exact_length (E : Env) (a : Args) : Prop :=
  forall frames audio,
    result (call E a) = Returned (frames, audio) ->
    (inject_Z (Z.of_nat (length audio))
     == inject_Z (Z.of_nat (length frames)) / inject_Z (video_fps a)
        * inject_Z (audio_sample_rate a))%Q.

(** The claim as the specification words it: [video_fps] is used by the
    audio cut and by nothing else, so changing it changes no other effect. *)
Definition fps_only_cuts_the_audio (E : Env) (a : Args) (fps : Z) : Prop :=
  map forget_samples (trace (call E (set_video_fps a fps)))
  = map forget_samples (trace (call E a)).

(** ** Further methods and instances *)

(** [pixel_values_to_images]: the conversion of [restore_video] to bytes,
    on every frame of a chunk. *)
Definition pixel_values_to_images (pixel_values : tensor4) : tensor4 :=
  map to_uint8_image pixel_values.

(** The size of the box a face is restored into: [int(y2 - y1)] and
    [int(x2 - x1)]. *)
Definition box_height (b : box) : Z := let '(x1, y1, x2, y2) := b in int_of_Q (y2 - y1).
Definition box_width (b : box) : Z := let '(x1, y1, x2, y2) := b in int_of_Q (x2 - x1).

(** What [restore_video] hands to [restore_img] for one face, once the
    super-resolution hook is passed: the face resized to its box, as bytes. *)
Definition restored_patch (E : Env) (face : block) (b : box) : block :=
  to_uint8_image (resize E face (box_height b, box_width b)).

(** A resize that interpolates: its entries stay within the bounds of the
    entries it is given. *)
Definition keeps_range (f : block -> Z * Z -> block) : Prop :=
  forall (b : block) (size : Z * Z) (lo hi : Q),
    (forall c y x, lo <= entry b c y x <= hi)%Q ->
    forall c y x, (lo <= entry (f b size) c y x <= hi)%Q.

(** Tensors of one layout whose entries are equal as numbers. *)
Definition block_equiv (s t : block) : Prop :=
  shape s = shape t /\ forall c y x, (entry s c y x == entry t c y x)%Q.

Definition tensor5_equiv (s t : tensor5) : Prop := Forall2 (Forall2 block_equiv) s t.

(** [a % b] on integers: the sign of the result is that of [b]. *)
Definition pymod (a b : Z) : M Z :=
  if (b =? 0)%Z then raise ZeroDivisionError else ret (a mod b)%Z.

(** What the denoising loop of one chunk reports while it runs: an advance
    of the progress bar, a call of [callback(j, t, latents)]. *)
Inductive report : Type :=
| BarUpdate (j : nat)
| CallbackCall (j : nat) (t : Timestep).

(** [j == len(timesteps) - 1 or ((j + 1) > num_warmup_steps and
    (j + 1) % self.scheduler.order == 0)], with [num_warmup_steps =
    len(timesteps) - num_inference_steps * self.scheduler.order]. *)
Definition advances (len_timesteps num_inference_steps : nat) (order : Z) (j : nat) : M bool :=
  let num_warmup_steps :=
    (Z.of_nat len_timesteps - Z.of_nat num_inference_steps * order)%Z in
  if (Z.of_nat j =? Z.of_nat len_timesteps - 1)%Z then ret true
  else if (num_warmup_steps <? Z.of_nat j + 1)%Z
       then r <- pymod (Z.of_nat j + 1) order ;; ret (r =? 0)%Z
       else ret false.

(** The end of the body of [for j, t in enumerate(timesteps)]; [callback]
    tells whether one was given. *)
Definition report_step (len_timesteps num_inference_steps : nat) (order : Z)
    (callback : bool) (callback_steps : Z) (j : nat) (t : Timestep) : M (list report) :=
  update <- advances len_timesteps num_inference_steps order j ;;
  if update then
    if callback then
      r <- pymod (Z.of_nat j) callback_steps ;;
      ret (BarUpdate j :: (if (r =? 0)%Z then [CallbackCall j t] else []))
    else ret [BarUpdate j]
  else ret [].

Fixpoint report_steps (len_timesteps num_inference_steps : nat) (order : Z)
    (callback : bool) (callback_steps : Z) (j : nat) (timesteps : list Timestep)
  : M (list report) :=
  match timesteps with
  | [] => ret []
  | t :: rest =>
      here <- report_step len_timesteps num_inference_steps order callback callback_steps j t ;;
      later <- report_steps len_timesteps num_inference_steps order callback callback_steps
                 (S j) rest ;;
      ret (here ++ later)
  end.

(** The reports of the denoising loop of one chunk. *)
Definition progress (num_inference_steps : nat) (order : Z) (callback : bool)
    (callback_steps : Z) (timesteps : list Timestep) : M (list report) :=
  report_steps (length timesteps) num_inference_steps order callback callback_steps
    0 timesteps.

(** How far the bar has advanced. *)
Definition bar_updates (reports : list report) : nat :=
  length (filter (fun r => match r with BarUpdate _ => true | CallbackCall _ _ => false end)
            reports).

(** The same call at another sample rate. *)
Definition set_audio_sample_rate (a : Args) (rate : Z) : Args :=
  {| video_out_path := video_out_path a; num_frames := num_frames a;
     video_fps := video_fps a; audio_sample_rate := rate;
     height := height a; width := width a; num_inference_steps := num_inference_steps a;
     guidance_scale := guidance_scale a; eta := eta a; generator := generator a;
     callback_steps := callback_steps a; superres := superres a |}.


(** * Properties *)

(** ** Runs *)

Lemma trace_bind {A B : Type} (m : M A) (k : A -> M B) :
  trace (bind m k) =
  trace m ++ match result m with Returned x => trace (k x) | Raised _ => [] end.
Proof.
  destruct m as [tr [x | e]]; simpl.
  - destruct (k x); reflexivity.
  - now rewrite app_nil_r.
Qed.

Lemma result_bind {A B : Type} (m : M A) (k : A -> M B) :
  result (bind m k) =
  match result m with Returned x => result (k x) | Raised e => Raised e end.
Proof.
  destruct m as [tr [x | e]]; simpl; [destruct (k x) |]; reflexivity.
Qed.

Lemma bind_returned {A B : Type} (m : M A) (k : A -> M B) tr x :
  m = (tr, Returned x) -> bind m k = (tr ++ trace (k x), result (k x)).
Proof. intros ->. simpl. now destruct (k x). Qed.

Lemma bind_raised {A B : Type} (m : M A) (k : A -> M B) tr e :
  m = (tr, Raised e) -> bind m k = (tr, Raised e).
Proof. now intros ->. Qed.

Lemma result_bind_returned {A B : Type} (m : M A) (k : A -> M B) (y : B) :
  result (bind m k) = Returned y ->
  exists x, result m = Returned x /\ result (k x) = Returned y.
Proof.
  rewrite result_bind. destruct (result m) as [x | e]; [eauto | discriminate].
Qed.

Lemma run_eta {A : Type} (m : M A) : m = (trace m, result m).
Proof. now destruct m. Qed.

(** ** Windows *)

Lemma firstn_add {A : Type} (a b : nat) (xs : list A) :
  firstn (a + b) xs = firstn a xs ++ firstn b (skipn a xs).
Proof.
  revert xs; induction a as [| a IH]; intros xs; [reflexivity |].
  destruct xs as [| x xs]; simpl.
  - now rewrite firstn_nil.
  - now rewrite IH.
Qed.

Lemma length_window {A : Type} (i n : nat) (xs : list A) :
  (i + 1) * n <= length xs -> length (window i n xs) = n.
Proof.
  intros H. unfold window, slice.
  rewrite length_firstn, length_skipn. nia.
Qed.

Lemma nth_error_window {A : Type} (i n j : nat) (xs : list A) :
  j < n -> nth_error (window i n xs) j = nth_error xs (i * n + j).
Proof.
  intros H. unfold window, slice.
  rewrite nth_error_firstn, nth_error_skipn.
  replace (j <? (i + 1) * n - i * n)%nat with true; [reflexivity |].
  symmetry. apply Nat.ltb_lt. nia.
Qed.

(** The windows [0 .. k-1] are disjoint and contiguous: put end to end they
    are the first [k * n] elements, in order. *)
Lemma concat_windows {A : Type} (k n : nat) (xs : list A) :
  concat (map (fun i => window i n xs) (seq 0 k)) = firstn (k * n) xs.
Proof.
  induction k as [| k IH]; [reflexivity |].
  rewrite seq_S, map_app, concat_app, IH. simpl. rewrite app_nil_r.
  unfold window, slice.
  replace ((k + 1) * n - k * n) with n by nia.
  replace (n + k * n) with (k * n + n) by lia.
  now rewrite firstn_add.
Qed.

Lemma window_repeat {A : Type} (i n m : nat) (x : A) :
  (i + 1) * n <= m -> window i n (repeat x m) = repeat x n.
Proof.
  intros H. unfold window, slice.
  replace m with (i * n + (m - i * n)) by nia.
  rewrite repeat_app, skipn_app, repeat_length, Nat.sub_diag.
  rewrite skipn_all2 by (rewrite repeat_length; lia). simpl.
  replace (m - i * n) with (((i + 1) * n - i * n) + (m - (i + 1) * n)) by nia.
  rewrite repeat_app, firstn_app, repeat_length, Nat.sub_diag. simpl.
  rewrite app_nil_r.
  rewrite firstn_all2 by (rewrite repeat_length; lia).
  f_equal. nia.
Qed.

Lemma floordiv_spec (a b : nat) :
  floordiv a b = if (b =? 0)%nat then ([], Raised ZeroDivisionError)
                 else ([], Returned (a / b)).
Proof. reflexivity. Qed.

Lemma length_zip_with {A B C : Type} (f : A -> B -> C) xs ys :
  length (zip_with f xs ys) = Nat.min (length xs) (length ys).
Proof.
  revert ys; induction xs as [| x xs IH]; intros [| y ys]; simpl; auto.
Qed.

Lemma nth_error_zip_with {A B C : Type} (f : A -> B -> C) xs ys k x y :
  nth_error xs k = Some x -> nth_error ys k = Some y ->
  nth_error (zip_with f xs ys) k = Some (f x y).
Proof.
  revert ys k; induction xs as [| x' xs IH]; intros [| y' ys] [| k]; simpl;
    try discriminate; intros Hx Hy.
  - now inversion Hx; inversion Hy.
  - now apply IH.
Qed.

(** ** Frame layout through one chunk *)

Lemma concat_repeat_singleton {A : Type} (x : A) (n : nat) :
  concat (repeat [x] n) = repeat x n.
Proof. induction n as [| n IH]; simpl; [| rewrite IH]; reflexivity. Qed.

Lemma layout_t5map (f : Q -> Q) (t : tensor5) : layout (t5map f t) = layout t.
Proof.
  unfold layout, t5map, t4map. rewrite map_map.
  apply map_ext. intros frames. apply length_map.
Qed.

Lemma layout_windows (i n : nat) (t : tensor5) :
  Forall (fun frames => (i + 1) * n <= length frames) t ->
  layout (map (window i n) t) = map (fun _ => n) t.
Proof.
  unfold layout. rewrite map_map.
  induction 1 as [| frames t H _ IH]; simpl; [reflexivity |].
  now rewrite IH, length_window.
Qed.

Section ChunkFacts.

Variable E : Env.

Lemma prepare_latents_spec (b n c : nat) (height width : Z) (g : Generator) :
  (0 <= height / vae_scale_factor E)%Z ->
  (0 <= width / vae_scale_factor E)%Z ->
  let h := Z.to_nat (height / vae_scale_factor E) in
  let w := Z.to_nat (width / vae_scale_factor E) in
  prepare_latents E b n c height width g =
  ([EvRandn (b, c, 1, h, w)],
   Returned
     (tabulate b (fun ib =>
        repeat (bmap (fun v => (v * init_noise_sigma E)%Q) (noise_frame c h w g ib)) n),
      {| samples := samples g; consumed := consumed g + b * c * 1 * h * w |})).
Proof.
  intros Hh Hw h w. unfold prepare_latents.
  replace (height / vae_scale_factor E <? 0)%Z with false
    by (symmetry; apply Z.ltb_ge; exact Hh).
  replace (width / vae_scale_factor E <? 0)%Z with false
    by (symmetry; apply Z.ltb_ge; exact Hw).
  cbn [orb]. fold h w.
  unfold randn, bind, tell, ret. cbn [app].
  do 3 f_equal.
  unfold repeat_frames, t5map, t4map, tabulate. rewrite !map_map.
  apply map_ext. intros ib. cbn [map seq].
  now rewrite concat_repeat_singleton, map_repeat.
Qed.

Lemma prepare_latents_negative (b n c : nat) (height width : Z) (g : Generator) :
  (height / vae_scale_factor E < 0)%Z \/ (width / vae_scale_factor E < 0)%Z ->
  exists e, prepare_latents E b n c height width g = ([], Raised e).
Proof.
  intros H. unfold prepare_latents.
  replace ((height / vae_scale_factor E <? 0)%Z || (width / vae_scale_factor E <? 0)%Z)
    with true; [eexists; reflexivity |].
  symmetry. apply orb_true_iff. destruct H; [left | right]; now apply Z.ltb_lt.
Qed.

Lemma denoise_step_layout do_cfg gs kw audio m mi il state t :
  layout (fst (denoise_step E do_cfg gs kw audio m mi il state t)) = layout (fst state).
Proof.
  destruct state as [latents g]. unfold denoise_step. destruct kw as [kw_eta kw_gen].
  match goal with
  | |- context [scheduler_step E ?p ?t ?l ?e ?og] =>
      pose proof (scheduler_step_layout E p t l e og) as H;
      destruct (scheduler_step E p t l e og) as [prev g']
  end.
  exact H.
Qed.

Lemma fold_denoise_layout do_cfg gs kw audio m mi il ts state :
  layout (fst (fold_left (denoise_step E do_cfg gs kw audio m mi il) ts state)) =
  layout (fst state).
Proof.
  revert state; induction ts as [| t ts IH]; intros state; simpl; [reflexivity |].
  now rewrite IH, denoise_step_layout.
Qed.

Lemma length_decode_latents (latents : tensor5) :
  length (decode_latents E latents) = list_sum (layout latents).
Proof.
  unfold decode_latents. rewrite length_map, length_concat.
  f_equal. exact (layout_t5map _ latents).
Qed.

Lemma length_prepare_masks (faces : tensor4) :
  let '(pixel_values, masked_pixel_values, masks) := prepare_masks_and_masked_images E faces in
  length pixel_values = length faces /\ length masks = length faces.
Proof. unfold prepare_masks_and_masked_images. now rewrite !length_map. Qed.

Lemma length_local_composite (decoded pixel_values masks : tensor4) :
  length (local_composite decoded pixel_values masks) =
  Nat.min (length decoded) (Nat.min (length pixel_values) (length masks)).
Proof.
  unfold local_composite, paste_surrounding_pixels_back, t4map2, t4map.
  rewrite !length_zip_with, !length_map. lia.
Qed.

(** A chunk whose window lies inside the faces and inside the single
    sample of the noise tensor yields exactly [num_frames] frames. *)
Lemma length_infer_chunk (a : Args) (s : loop_state) (i : nat) (g : Generator) :
  (i + 1) * num_frames a <= length (ls_faces s) ->
  (exists frames, ls_all_latents s = [frames] /\ (i + 1) * num_frames a <= length frames) ->
  length (fst (infer_chunk E a s i g)) = num_frames a.
Proof.
  intros Hf [frames [Hl Hn]]. unfold infer_chunk.
  pose proof (length_prepare_masks (window i (num_frames a) (ls_faces s))) as Hm.
  destruct (prepare_masks_and_masked_images E _) as [[pixel_values masked] masks].
  destruct Hm as [Hp Hm].
  destruct (prepare_mask_latents E _ _ _ _ _ _) as [[mask_latents mil] g1].
  destruct (prepare_image_latents E _ _ _) as [il g2].
  match goal with
  | |- context [fold_left ?f ?ts ?st] =>
      pose proof (fold_denoise_layout
                    (ls_do_classifier_free_guidance s) (guidance_scale a)
                    (ls_extra_step_kwargs s)
                    (chunk_audio_embeds (add_audio_layer E)
                       (ls_do_classifier_free_guidance s) (ls_whisper_chunks s)
                       (num_frames a) i)
                    mask_latents mil il ts st) as Hfold;
      destruct (fold_left f ts st) as [latents g3]
  end.
  cbn [fst] in *.
  rewrite length_local_composite, length_decode_latents, Hfold, Hp, Hm.
  rewrite Hl. cbn [map layout list_sum].
  rewrite (length_window _ _ frames Hn), (length_window _ _ _ Hf).
  unfold list_sum. cbn [fold_right]. lia.
Qed.

Lemma infer_chunks_lengths (a : Args) (s : loop_state) (chunks : list nat) (g : Generator) :
  (exists frames, ls_all_latents s = [frames] /\
     Forall (fun i => (i + 1) * num_frames a <= length frames) chunks) ->
  Forall (fun i => (i + 1) * num_frames a <= length (ls_faces s)) chunks ->
  length (infer_chunks E a s chunks g) = length chunks /\
  Forall (fun t => length t = num_frames a) (infer_chunks E a s chunks g).
Proof.
  intros [frames [Hl Hn]]. revert g Hn.
  induction chunks as [| i chunks IH]; intros g Hn Hf; simpl; [split; constructor |].
  inversion Hn as [| ? ? Hni Hn']; inversion Hf as [| ? ? Hfi Hf']; subst.
  pose proof (length_infer_chunk a s i g Hfi (ex_intro _ frames (conj Hl Hni))) as Hi.
  destruct (infer_chunk E a s i g) as [decoded g']. cbn [fst] in Hi.
  destruct (IH g' Hn' Hf') as [IHl IHf].
  split; [simpl; now rewrite IHl | now constructor].
Qed.

End ChunkFacts.

Lemma length_concat_uniform {A : Type} (n : nat) (xss : list (list A)) :
  Forall (fun xs => length xs = n) xss -> length (concat xss) = length xss * n.
Proof.
  induction 1 as [| xs xss H _ IH]; simpl; [reflexivity |].
  rewrite length_app, IH, H. lia.
Qed.

(** ** The stages of a run *)

Lemma trace_check_inputs height width callback_steps :
  trace (check_inputs height width callback_steps) = [].
Proof.
  unfold check_inputs.
  destruct (height =? width)%Z; [| reflexivity].
  destruct (negb (height mod 8 =? 0)%Z || negb (width mod 8 =? 0)%Z); [reflexivity |].
  destruct callback_steps as [| n |]; try reflexivity.
  destruct (n <=? 0)%Z; reflexivity.
Qed.

Lemma check_inputs_valid height width callback_steps :
  valid_inputs height width callback_steps ->
  check_inputs height width callback_steps = ([], Returned tt).
Proof.
  intros (Heq & Hh & Hw & n & -> & Hn). unfold check_inputs.
  rewrite (proj2 (Z.eqb_eq _ _) Heq), (proj2 (Z.eqb_eq _ _) Hh), (proj2 (Z.eqb_eq _ _) Hw).
  replace (n <=? 0)%Z with false by (symmetry; apply Z.leb_gt; exact Hn).
  reflexivity.
Qed.

Lemma check_inputs_returned height width callback_steps u :
  result (check_inputs height width callback_steps) = Returned u ->
  valid_inputs height width callback_steps.
Proof.
  unfold check_inputs, valid_inputs.
  destruct (Z.eqb_spec height width) as [Heq | Hne]; [| discriminate].
  destruct (Z.eqb_spec (height mod 8) 0) as [Hh | Hh]; [| discriminate].
  destruct (Z.eqb_spec (width mod 8) 0) as [Hw | Hw]; [| discriminate].
  destruct callback_steps as [| n |]; try discriminate.
  destruct (Z.leb_spec n 0); [discriminate |].
  intros _. repeat split; auto. now exists n.
Qed.

Lemma check_inputs_invalid height width callback_steps :
  ~ valid_inputs height width callback_steps ->
  exists e, check_inputs height width callback_steps = ([], Raised e).
Proof.
  intros Hinv.
  pose proof (trace_check_inputs height width callback_steps) as Htr.
  pose proof (check_inputs_returned height width callback_steps) as Hret.
  destruct (check_inputs height width callback_steps) as [tr [u | e]]; simpl in *; subst.
  - exfalso. apply Hinv. now apply (Hret u).
  - now exists e.
Qed.

Section Stages.

Variable E : Env.

Lemma length_all_faces : length (all_faces E) = length (read_video E).
Proof. unfold all_faces. now rewrite !length_map. Qed.

Lemma gather_no_ffmpeg (a : Args) :
  ffmpeg_installed E = false ->
  gather E a = ([EvCheckFfmpeg], Raised (FileNotFoundError "ffmpeg not found")).
Proof. intros H. unfold gather, check_ffmpeg_installed. now rewrite H. Qed.

Lemma gather_no_frames (a : Args) :
  ffmpeg_installed E = true -> read_video E = [] ->
  gather E a =
  ([EvCheckFfmpeg; EvReadVideo],
   Raised (RuntimeError "stack expects a non-empty TensorList")).
Proof.
  intros H Hv. unfold gather, check_ffmpeg_installed, affine_transform_video.
  now rewrite H, Hv.
Qed.

Lemma gather_checked (a : Args) :
  ffmpeg_installed E = true -> read_video E <> [] ->
  gather E a =
  (gathered E,
   match result (check_inputs (working_height E a) (working_width E a) (callback_steps a)) with
   | Returned _ =>
       Returned (all_faces E, read_video E,
                 map (fun r => snd (fst r)) (map (affine_transform E) (read_video E)),
                 map snd (map (affine_transform E) (read_video E)),
                 read_audio E, working_height E a, working_width E a)
   | Raised e => Raised e
   end).
Proof.
  intros H Hv. unfold gather, check_ffmpeg_installed, affine_transform_video.
  rewrite H. fold (all_faces E).
  pose proof length_all_faces as Hlen.
  destruct (all_faces E) as [| face faces] eqn:Hfaces.
  - destruct (read_video E); [congruence | discriminate].
  - fold (working_height E a) (working_width E a).
    pose proof (trace_check_inputs (working_height E a) (working_width E a) (callback_steps a))
      as Htr.
    destruct (check_inputs _ _ _) as [tr [u | e]]; simpl in Htr; subst tr;
      unfold gathered; cbn; rewrite <- Hlen; cbn;
      rewrite <- !app_assoc; reflexivity.
Qed.

Lemma gathered_stage : Forall (fun e => stage_of e = Gathering) (gathered E).
Proof.
  unfold gathered. repeat (apply Forall_app; split); try (repeat constructor).
  apply Forall_map, Forall_forall. reflexivity.
Qed.

Lemma gather_stage (a : Args) :
  Forall (fun e => stage_of e = Gathering) (trace (gather E a)).
Proof.
  destruct (ffmpeg_installed E) eqn:Hff.
  - destruct (read_video E) as [| f fs] eqn:Hv.
    + rewrite gather_no_frames by assumption. repeat constructor.
    + rewrite gather_checked by congruence. apply gathered_stage.
  - rewrite gather_no_ffmpeg by assumption. repeat constructor.
Qed.

End Stages.

Section Inference.

Variable E : Env.

Lemma num_inferences_spec (a : Args) (faces : tensor4) :
  num_inferences E a faces =
  (audio_events E a,
   if num_frames a =? 0 then Raised ZeroDivisionError
   else Returned (whisper_chunks_of E a, usable_length E a faces / num_frames a)).
Proof.
  unfold num_inferences, audio_events, whisper_chunks_of, usable_length, floordiv.
  destruct (add_audio_layer E); destruct (num_frames a =? 0); reflexivity.
Qed.

Lemma infer_zero_frames (a : Args) faces height width :
  num_frames a = 0 ->
  infer E a faces height width =
  (EvSetTimesteps (num_inference_steps a) :: audio_events E a, Raised ZeroDivisionError).
Proof.
  intros H. unfold infer. rewrite num_inferences_spec, H. reflexivity.
Qed.

Lemma infer_negative_size (a : Args) faces height width :
  num_frames a <> 0 ->
  (height / vae_scale_factor E < 0)%Z \/ (width / vae_scale_factor E < 0)%Z ->
  exists e,
    infer E a faces height width =
    (EvSetTimesteps (num_inference_steps a) :: audio_events E a, Raised e).
Proof.
  intros HN Hneg. unfold infer. rewrite num_inferences_spec.
  destruct (Nat.eqb_spec (num_frames a) 0) as [| _]; [contradiction |].
  destruct (prepare_latents_negative E 1
              (num_frames a * (usable_length E a faces / num_frames a))
              (latent_channels E) height width (generator a) Hneg) as [e He].
  exists e. cbn. rewrite He. cbn. now rewrite app_nil_r.
Qed.

Lemma infer_eq (a : Args) faces height width :
  num_frames a <> 0 ->
  (0 <= height / vae_scale_factor E)%Z ->
  (0 <= width / vae_scale_factor E)%Z ->
  infer E a faces height width =
  (inferred E a faces height width,
   result (torch_cat
             (infer_chunks E a (start_state E a faces height width)
                (seq 0 (usable_length E a faces / num_frames a))
                (generator_after_noise E a height width)))).
Proof.
  intros HN Hh Hw. unfold infer. rewrite num_inferences_spec.
  destruct (Nat.eqb_spec (num_frames a) 0) as [| _]; [contradiction |].
  cbn. rewrite prepare_latents_spec by assumption. cbn.
  fold (latent_size E height) (latent_size E width).
  fold (start_state E a faces height width) (generator_after_noise E a height width).
  unfold inferred.
  destruct (infer_chunks E a _ _ _); cbn; rewrite ?app_nil_r;
    rewrite <- ?app_assoc; reflexivity.
Qed.

Lemma audio_events_stage (a : Args) :
  Forall (fun e => stage_of e = Inferring) (audio_events E a).
Proof. unfold audio_events; destruct (add_audio_layer E); repeat constructor. Qed.

Lemma inferred_stage (a : Args) faces height width :
  Forall (fun e => stage_of e = Inferring) (inferred E a faces height width).
Proof.
  unfold inferred. constructor; [reflexivity |].
  repeat (apply Forall_app; split); auto using audio_events_stage.
  apply Forall_map, Forall_forall. reflexivity.
Qed.

Lemma infer_stage (a : Args) faces height width :
  Forall (fun e => stage_of e = Inferring) (trace (infer E a faces height width)).
Proof.
  pose proof (audio_events_stage a) as Haudio.
  destruct (Nat.eq_dec (num_frames a) 0) as [HN | HN].
  - rewrite infer_zero_frames by assumption. now constructor.
  - destruct (Z_lt_le_dec (height / vae_scale_factor E) 0) as [Hh | Hh];
      [| destruct (Z_lt_le_dec (width / vae_scale_factor E) 0) as [Hw | Hw]].
    + destruct (infer_negative_size a faces height width HN (or_introl Hh)) as [e ->].
      now constructor.
    + destruct (infer_negative_size a faces height width HN (or_intror Hw)) as [e ->].
      now constructor.
    + rewrite infer_eq by assumption. apply inferred_stage.
Qed.

(** A run whose inference returns has processed at least one window, and
    the concatenated faces number [num_frames * (usable_length E // num_frames)]. *)
Lemma infer_returned (a : Args) faces height width synced :
  result (infer E a faces height width) = Returned synced ->
  num_frames a <> 0 /\
  0 < usable_length E a faces / num_frames a /\
  length synced = num_frames a * (usable_length E a faces / num_frames a) /\
  trace (infer E a faces height width) = inferred E a faces height width.
Proof.
  intros Hret.
  destruct (Nat.eq_dec (num_frames a) 0) as [HN | HN];
    [rewrite infer_zero_frames in Hret by assumption; discriminate |].
  destruct (Z_lt_le_dec (height / vae_scale_factor E) 0) as [Hh | Hh];
    [destruct (infer_negative_size a faces height width HN (or_introl Hh)) as [e He];
     rewrite He in Hret; discriminate |].
  destruct (Z_lt_le_dec (width / vae_scale_factor E) 0) as [Hw | Hw];
    [destruct (infer_negative_size a faces height width HN (or_intror Hw)) as [e He];
     rewrite He in Hret; discriminate |].
  rewrite infer_eq in Hret |- * by assumption. cbn [result snd trace fst] in *.
  set (ni := usable_length E a faces / num_frames a) in *.
  assert (Hlen :
    length (infer_chunks E a (start_state E a faces height width) (seq 0 ni)
              (generator_after_noise E a height width)) = length (seq 0 ni) /\
    Forall (fun t => length t = num_frames a)
      (infer_chunks E a (start_state E a faces height width) (seq 0 ni)
         (generator_after_noise E a height width))).
  { apply infer_chunks_lengths.
    - eexists. split; [reflexivity |].
      apply Forall_forall. intros i Hi. apply in_seq in Hi.
      rewrite repeat_length. nia.
    - apply Forall_forall. intros i Hi. apply in_seq in Hi. cbn [ls_faces start_state].
      assert (usable_length E a faces <= length faces)
        by (unfold usable_length; destruct (add_audio_layer E); lia).
      pose proof (Nat.Div0.mul_div_le (usable_length E a faces) (num_frames a)) as Hle.
      fold ni in Hle. nia. }
  destruct Hlen as [Hcount Hall]. rewrite length_seq in Hcount.
  destruct (infer_chunks E a _ _ _) as [| t ts] eqn:Hchunks; [discriminate |].
  cbn in Hret. inversion Hret; subst synced.
  repeat split; auto.
  - cbn in Hcount. lia.
  - change (t ++ concat ts) with (concat (t :: ts)).
    pose proof (length_concat_uniform Hall) as Hcat.
    unfold tensor4 in *. nia.
Qed.

Lemma infer_returns (a : Args) faces height width :
  num_frames a <> 0 ->
  num_frames a <= usable_length E a faces ->
  (0 <= height / vae_scale_factor E)%Z ->
  (0 <= width / vae_scale_factor E)%Z ->
  exists synced, result (infer E a faces height width) = Returned synced.
Proof.
  intros HN HL Hh Hw. rewrite infer_eq by assumption. cbn [result snd].
  assert (Hni : 0 < usable_length E a faces / num_frames a)
    by (apply Nat.div_str_pos; lia).
  destruct (usable_length E a faces / num_frames a) as [| ni]; [lia |].
  cbn [seq infer_chunks].
  destruct (infer_chunk E a _ 0 _) as [decoded g']. cbn. eauto.
Qed.

End Inference.

(** ** Restoration and writing *)

Lemma Forall_trace_bind {A B : Type} (P : event -> Prop) (m : M A) (k : A -> M B) :
  Forall P (trace m) -> (forall x, Forall P (trace (k x))) -> Forall P (trace (bind m k)).
Proof.
  intros Hm Hk. rewrite trace_bind. apply Forall_app. split; [assumption |].
  destruct (result m); [apply Hk | constructor].
Qed.

Lemma trace_getitem {A : Type} (xs : list A) (i : nat) : trace (getitem xs i) = [].
Proof. unfold getitem. now destruct (nth_error xs i). Qed.

Lemma trace_to_int (x : float) : trace (to_int x) = [].
Proof. unfold to_int. now destruct (int_of_float x). Qed.

Lemma trace_truediv (a b : Z) : trace (truediv a b) = [].
Proof. unfold truediv. now destruct (b =? 0)%Z. Qed.

Lemma truediv_nonzero (a b : Z) :
  b <> 0%Z -> truediv a b = ([], Returned (PrimFloat.div (float_of_Z a) (float_of_Z b))).
Proof. intros H. unfold truediv. now destruct (Z.eqb_spec b 0). Qed.

Lemma trace_remain_length (frames : nat) (fps rate : Z) :
  trace (remain_length frames fps rate) = [].
Proof.
  unfold remain_length. rewrite trace_bind, trace_truediv.
  destruct (result (truediv _ _)); [apply trace_to_int | reflexivity].
Qed.

Lemma getitem_lt {A : Type} (xs : list A) (i : nat) :
  i < length xs -> exists x, getitem xs i = ([], Returned x).
Proof.
  intros H. unfold getitem.
  destruct (nth_error xs i) as [x |] eqn:Hx; [now exists x |].
  apply nth_error_None in Hx. lia.
Qed.

Section Restoration.

Variable E : Env.

Lemma trace_apply_gfpgan_superres (face : block) (scale_factor : float) :
  trace (apply_gfpgan_superres E face scale_factor) = [EvSuperres "GFPGAN" scale_factor].
Proof.
  unfold apply_gfpgan_superres. destruct (shape face) as [[c h] w].
  rewrite trace_bind. cbn [tell trace fst result snd].
  rewrite trace_bind, trace_to_int.
  destruct (result (to_int _)); [| reflexivity].
  rewrite trace_bind, trace_to_int.
  destruct (result (to_int _)); reflexivity.
Qed.

Lemma trace_apply_codeformer_superres (face : block) (scale_factor : float) :
  trace (apply_codeformer_superres E face scale_factor) =
  [EvSuperres "CodeFormer" scale_factor].
Proof.
  unfold apply_codeformer_superres. destruct (shape face) as [[c h] w].
  rewrite trace_bind. cbn [tell trace fst result snd].
  rewrite trace_bind, trace_to_int.
  destruct (result (to_int _)); [| reflexivity].
  rewrite trace_bind, trace_to_int.
  destruct (result (to_int _)); reflexivity.
Qed.

Lemma superresolve_skipped (superres : string) (face : block) (height width : Z) :
  superres_condition superres face height width = false ->
  superresolve E superres face height width = ([], Returned face).
Proof.
  unfold superres_condition, superresolve. destruct (shape face) as [[c h] w].
  now intros ->.
Qed.

Lemma superresolve_stage (superres : string) (face : block) (height width : Z) :
  Forall (fun e => stage_of e = Restoring)
    (trace (superresolve E superres face height width)).
Proof.
  unfold superresolve. destruct (shape face) as [[c h] w].
  destruct (_ && _); [| constructor].
  apply Forall_trace_bind; [rewrite trace_truediv; constructor | intros scale_h].
  apply Forall_trace_bind; [rewrite trace_truediv; constructor | intros scale_w].
  destruct (superres =? "GFPGAN")%string;
    [rewrite trace_apply_gfpgan_superres; repeat constructor |].
  destruct (superres =? "CodeFormer")%string;
    [rewrite trace_apply_codeformer_superres; repeat constructor | constructor].
Qed.

Lemma restore_face_stage superres video_frames boxes affine_matrices index face :
  Forall (fun e => stage_of e = Restoring)
    (trace (restore_face E superres video_frames boxes affine_matrices index face)).
Proof.
  unfold restore_face.
  apply Forall_trace_bind; [rewrite trace_getitem; constructor |].
  intros [[[x1 y1] x2] y2].
  apply Forall_trace_bind; [apply superresolve_stage | intros face'].
  apply Forall_trace_bind; [rewrite trace_getitem; constructor | intros frame].
  apply Forall_trace_bind; [rewrite trace_getitem; constructor | intros affine].
  apply Forall_trace_bind; [repeat constructor | intros _; constructor].
Qed.

Lemma restore_faces_stage superres video_frames boxes affine_matrices index faces :
  Forall (fun e => stage_of e = Restoring)
    (trace (restore_faces E superres video_frames boxes affine_matrices index faces)).
Proof.
  revert index; induction faces as [| face faces IH]; intros index; [constructor |].
  cbn [restore_faces].
  apply Forall_trace_bind; [apply restore_face_stage | intros out].
  apply Forall_trace_bind; [apply IH | intros outs; constructor].
Qed.

Lemma restore_faces_returned superres video_frames boxes affine_matrices index faces outs :
  result (restore_faces E superres video_frames boxes affine_matrices index faces)
  = Returned outs ->
  length outs = length faces.
Proof.
  revert index outs; induction faces as [| face faces IH]; intros index outs; cbn [restore_faces].
  - intros H. now inversion H.
  - intros H.
    apply result_bind_returned in H as (out & _ & H).
    apply result_bind_returned in H as (outs' & Hrest & H).
    inversion H. simpl. f_equal. eapply IH; eassumption.
Qed.

Lemma restore_face_event superres video_frames boxes affine_matrices index face out :
  result (restore_face E superres video_frames boxes affine_matrices index face)
  = Returned out ->
  In (EvRestoreImg index)
     (trace (restore_face E superres video_frames boxes affine_matrices index face)).
Proof.
  unfold restore_face. intros H.
  apply result_bind_returned in H as ([[[x1 y1] x2] y2] & Hb & H). rewrite trace_bind, Hb.
  apply in_or_app; right.
  apply result_bind_returned in H as (face' & Hs & H). rewrite trace_bind, Hs.
  apply in_or_app; right.
  apply result_bind_returned in H as (frame & Hf & H). rewrite trace_bind, Hf.
  apply in_or_app; right.
  apply result_bind_returned in H as (affine & Ha & H). rewrite trace_bind, Ha.
  apply in_or_app; right.
  now left.
Qed.

Lemma restore_video_event superres face faces video_frames boxes affine_matrices outs :
  result (restore_video E superres (face :: faces) video_frames boxes affine_matrices)
  = Returned outs ->
  In (EvRestoreImg 0)
     (trace (restore_video E superres (face :: faces) video_frames boxes affine_matrices)).
Proof.
  unfold restore_video. intros H.
  apply result_bind_returned in H as (outs' & H & _).
  rewrite trace_bind. apply in_or_app; left.
  cbn [restore_faces] in H |- *.
  apply result_bind_returned in H as (out & Hout & _).
  rewrite trace_bind. apply in_or_app; left.
  eapply restore_face_event; eassumption.
Qed.

Lemma restore_video_stage superres faces video_frames boxes affine_matrices :
  Forall (fun e => stage_of e = Restoring)
    (trace (restore_video E superres faces video_frames boxes affine_matrices)).
Proof.
  unfold restore_video.
  apply Forall_trace_bind; [apply restore_faces_stage | intros outs].
  destruct outs; constructor.
Qed.

Lemma restore_video_returned superres faces video_frames boxes affine_matrices outs :
  result (restore_video E superres faces video_frames boxes affine_matrices)
  = Returned outs ->
  length outs = length faces.
Proof.
  unfold restore_video. intros H.
  apply result_bind_returned in H as (outs' & Hrest & H).
  apply restore_faces_returned in Hrest.
  destruct outs'; [discriminate |]. now inversion H; subst.
Qed.

End Restoration.

Section Runs.

Variable E : Env.

Lemma restore_faces_returns superres video_frames boxes affine_matrices index faces :
  (forall face h w, exists r, result (superresolve E superres face h w) = Returned r) ->
  index + length faces <= length boxes ->
  index + length faces <= length video_frames ->
  index + length faces <= length affine_matrices ->
  exists outs,
    result (restore_faces E superres video_frames boxes affine_matrices index faces)
    = Returned outs.
Proof.
  intros Hsr. revert index.
  induction faces as [| face faces IH]; intros index Hb Hv Ha; cbn [restore_faces];
    [now eexists |].
  cbn [length] in Hb, Hv, Ha.
  destruct (IH (S index)) as [outs Houts]; try lia.
  assert (Hface : exists out,
    result (restore_face E superres video_frames boxes affine_matrices index face)
    = Returned out).
  { unfold restore_face.
    destruct (@getitem_lt _ boxes index) as [[[[x1 y1] x2] y2] Hbox]; [lia |].
    destruct (@getitem_lt _ video_frames index) as [frame Hframe]; [lia |].
    destruct (@getitem_lt _ affine_matrices index) as [affine Haffine]; [lia |].
    destruct (Hsr face (int_of_Q (y2 - y1)) (int_of_Q (x2 - x1))) as [face' Hface'].
    rewrite result_bind, Hbox. cbn [result snd].
    rewrite result_bind, Hface'.
    rewrite result_bind, Hframe. cbn [result snd].
    rewrite result_bind, Haffine. cbn [result snd].
    now eexists. }
  destruct Hface as [out Hout].
  rewrite result_bind, Hout, result_bind, Houts. now eexists.
Qed.

Lemma finish_spec (a : Args) faces video_frames boxes affine_matrices audio_samples :
  finish E a faces video_frames boxes affine_matrices audio_samples =
  let restored := restore_video E (superres a) faces video_frames boxes affine_matrices in
  match result restored with
  | Raised e => (trace restored, Raised e)
  | Returned outs =>
      match result (remain_length (length outs) (video_fps a) (audio_sample_rate a)) with
      | Raised e => (trace restored, Raised e)
      | Returned n =>
          (trace restored
           ++ written E a (length outs) (length (slice_to n audio_samples)),
           Returned (outs, slice_to n audio_samples))
      end
  end.
Proof.
  unfold finish.
  destruct (restore_video E _ _ _ _ _) as [tr [outs | e]]; [| reflexivity].
  cbn [bind result snd trace fst].
  pose proof (trace_remain_length (length outs) (video_fps a) (audio_sample_rate a)) as Hn.
  destruct (remain_length _ _ _) as [tr' [n | e]]; cbn in Hn; subst tr';
    [| cbn; now rewrite app_nil_r].
  unfold written, ffmpeg_command.
  destruct (temp_exists E); cbn; reflexivity.
Qed.

Lemma call_spec (a : Args) :
  call E a =
  match result (gather E a) with
  | Raised e => (trace (gather E a), Raised e)
  | Returned (faces, video_frames, boxes, affine_matrices, audio_samples, h, w) =>
      match result (infer E a faces h w) with
      | Raised e => (trace (gather E a) ++ trace (infer E a faces h w), Raised e)
      | Returned synced =>
          (trace (gather E a) ++ trace (infer E a faces h w)
           ++ trace (finish E a synced video_frames boxes affine_matrices audio_samples),
           result (finish E a synced video_frames boxes affine_matrices audio_samples))
      end
  end.
Proof.
  unfold call.
  destruct (gather E a) as [tr [[[[[[[faces frames] boxes] mats] audio] h] w] | e]];
    [| reflexivity].
  cbn [bind result snd trace fst].
  destruct (infer E a faces h w) as [tr' [synced | e]]; [| reflexivity].
  cbn [bind result snd trace fst].
  now destruct (finish E a synced frames boxes mats audio).
Qed.

(** The stages of a run follow one another: whatever a run did before it
    raised, or before it started writing, is no file operation. *)
Lemma finish_not_writing (a : Args) faces video_frames boxes affine_matrices audio_samples :
  exists restored,
    Forall (fun e => stage_of e = Restoring) restored /\
    ((exists e,
        finish E a faces video_frames boxes affine_matrices audio_samples
        = (restored, Raised e)) \/
     (exists outs n,
        finish E a faces video_frames boxes affine_matrices audio_samples
        = (restored ++ written E a (length outs) (length (slice_to n audio_samples)),
           Returned (outs, slice_to n audio_samples)) /\
        length outs = length faces /\
        (faces <> [] -> In (EvRestoreImg 0) restored) /\
        remain_length (length outs) (video_fps a) (audio_sample_rate a)
        = ([], Returned n))).
Proof.
  exists (trace (restore_video E (superres a) faces video_frames boxes affine_matrices)).
  split; [apply restore_video_stage |].
  rewrite finish_spec. cbv zeta.
  destruct (result (restore_video E _ _ _ _ _)) as [outs | e] eqn:Hres; [| left; eauto].
  pose proof (trace_remain_length (length outs) (video_fps a) (audio_sample_rate a)) as Htr.
  destruct (remain_length _ _ _) as [tr [n | e]] eqn:Hn; cbn in Htr; subst tr;
    cbn [result snd]; [| left; eauto].
  right. exists outs, n.
  split; [reflexivity |].
  split; [now apply restore_video_returned in Hres |].
  split; [| exact Hn].
  destruct faces as [| face faces]; [congruence | intros _].
  eapply restore_video_event; eassumption.
Qed.

End Runs.

Section RunShape.

Variable E : Env.

Lemma stage_not_writing (s : stage) (tr : list event) :
  s <> Writing ->
  Forall (fun e => stage_of e = s) tr -> Forall (fun e => stage_of e <> Writing) tr.
Proof. intros Hs. apply Forall_impl. intros e He. now rewrite He. Qed.

(** Everything a run does before it writes is no file operation, and a
    run that raises never gets to write. *)
Lemma call_not_writing (a : Args) :
  exists before,
    Forall (fun e => stage_of e <> Writing) before /\
    ((exists e, call E a = (before, Raised e)) \/
     (exists frames audio,
        call E a = (before ++ written E a (length frames) (length audio),
                    Returned (frames, audio)))).
Proof.
  rewrite call_spec.
  pose proof (@stage_not_writing Gathering _ ltac:(discriminate) (gather_stage E a)) as Hg.
  destruct (result (gather E a))
    as [[[[[[[faces frames] boxes] mats] audio] h] w] | e]; [| eauto].
  pose proof (@stage_not_writing Inferring _ ltac:(discriminate)
                (infer_stage E a faces h w)) as Hi.
  destruct (result (infer E a faces h w)) as [synced | e].
  - destruct (finish_not_writing E a synced frames boxes mats audio)
      as (restored & Hr & [[e He] | (outs & n & He & _)]); rewrite He;
      cbn [trace fst result snd].
    + exists (trace (gather E a) ++ trace (infer E a faces h w) ++ restored).
      split; [| left; eauto].
      repeat (apply Forall_app; split); auto.
      eapply stage_not_writing; [| exact Hr]. discriminate.
    + exists (trace (gather E a) ++ trace (infer E a faces h w) ++ restored).
      split.
      * repeat (apply Forall_app; split); auto.
        eapply stage_not_writing; [| exact Hr]. discriminate.
      * right. exists outs, (slice_to n audio). now rewrite <- !app_assoc.
  - exists (trace (gather E a) ++ trace (infer E a faces h w)).
    split; [apply Forall_app; split; assumption | left; eauto].
Qed.

(** What is known of a run that returned. *)
Lemma call_returned (a : Args) frames audio :
  result (call E a) = Returned (frames, audio) ->
  exists restored n,
    trace (call E a) =
      (gathered E)
      ++ inferred E a (all_faces E) (working_height E a) (working_width E a)
      ++ restored ++ written E a (length frames) (length audio) /\
    Forall (fun e => stage_of e = Restoring) restored /\
    In (EvRestoreImg 0) restored /\
    read_video E <> [] /\
    ffmpeg_installed E = true /\
    valid_inputs (working_height E a) (working_width E a) (callback_steps a) /\
    num_frames a <> 0 /\
    0 < usable_length E a (all_faces E) / num_frames a /\
    length frames = num_frames a * (usable_length E a (all_faces E) / num_frames a) /\
    remain_length (length frames) (video_fps a) (audio_sample_rate a) = ([], Returned n) /\
    audio = slice_to n (read_audio E).
Proof.
  rewrite call_spec.
  destruct (ffmpeg_installed E) eqn:Hff;
    [| rewrite gather_no_ffmpeg by assumption; discriminate].
  destruct (read_video E) as [| f fs] eqn:Hvideo;
    [rewrite gather_no_frames by assumption; discriminate |].
  rewrite gather_checked by congruence. rewrite Hvideo. cbn [result snd trace fst].
  destruct (result (check_inputs _ _ _)) as [u |] eqn:Hcheck; [| discriminate].
  apply check_inputs_returned in Hcheck.
  destruct (result (infer E a (all_faces E) (working_height E a) (working_width E a)))
    as [synced |] eqn:Hinfer; [| discriminate].
  apply infer_returned in Hinfer as (HN & Hni & Hlen & Htr). rewrite Htr.
  destruct (finish_not_writing E a synced (f :: fs)
              (map (fun r => snd (fst r)) (map (affine_transform E) (f :: fs)))
              (map snd (map (affine_transform E) (f :: fs))) (read_audio E))
    as (restored & Hr & [[e He] | (outs & n & He & Houts & Hev & Hn)]);
    rewrite He; cbn [result snd trace fst]; [discriminate |].
  intros H. inversion H; subst frames audio.
  exists restored, n.
  split; [reflexivity |]. split; [exact Hr |].
  split; [apply Hev; intros ->; cbn in Hlen; nia |].
  split; [discriminate |]. split; [reflexivity |].
  split; [exact Hcheck |]. split; [exact HN |]. split; [exact Hni |].
  split; [congruence |]. split; [exact Hn | reflexivity].
Qed.

(** A run returns as soon as the encoder is present, the configuration
    is valid, one full window fits, and neither the super-resolution
    hook nor the audio length computation raises. *)
Lemma call_returns (a : Args) :
  ffmpeg_installed E = true ->
  valid_inputs (working_height E a) (working_width E a) (callback_steps a) ->
  (0 <= working_height E a)%Z ->
  0 < num_frames a <= usable_length E a (all_faces E) ->
  (forall face h w, exists r, result (superresolve E (superres a) face h w) = Returned r) ->
  (exists n,
     result (remain_length
               (num_frames a * (usable_length E a (all_faces E) / num_frames a))
               (video_fps a) (audio_sample_rate a)) = Returned n) ->
  exists frames audio, result (call E a) = Returned (frames, audio).
Proof.
  intros Hff Hvalid Hpos [HN HL] Hsr [n Hn].
  assert (Hfaces : usable_length E a (all_faces E) <= length (read_video E)).
  { rewrite <- length_all_faces. unfold usable_length.
    destruct (add_audio_layer E); lia. }
  assert (Hvideo : read_video E <> []) by (destruct (read_video E); [cbn in *; lia | discriminate]).
  assert (Hvsf : (0 < vae_scale_factor E)%Z)
    by (unfold vae_scale_factor; apply Z.pow_pos_nonneg; lia).
  assert (Hh : (0 <= working_height E a / vae_scale_factor E)%Z)
    by (apply Z.div_pos; assumption).
  assert (Hw : (0 <= working_width E a / vae_scale_factor E)%Z)
    by (destruct Hvalid as [<- _]; assumption).
  rewrite call_spec, gather_checked by assumption. cbn [result snd trace fst].
  rewrite (check_inputs_valid Hvalid). cbn [result snd].
  assert (HN' : num_frames a <> 0) by lia.
  destruct (@infer_returns E a (all_faces E) _ _ HN' HL Hh Hw) as [synced Hsynced].
  rewrite Hsynced.
  apply infer_returned in Hsynced as (_ & Hni & Hlen & _).
  rewrite finish_spec. cbv zeta.
  assert (Hrestore : exists outs,
    result (restore_video E (superres a) synced (read_video E)
              (map (fun r => snd (fst r)) (map (affine_transform E) (read_video E)))
              (map snd (map (affine_transform E) (read_video E)))) = Returned outs).
  { unfold restore_video.
    pose proof (Nat.Div0.mul_div_le (usable_length E a (all_faces E)) (num_frames a)) as Hle.
    destruct (@restore_faces_returns E (superres a)
                (firstn (length synced) (read_video E))
                (map (fun r => snd (fst r)) (map (affine_transform E) (read_video E)))
                (map snd (map (affine_transform E) (read_video E))) 0 synced Hsr)
      as [outs Houts];
      rewrite ?length_map, ?length_firstn; try (cbn; lia).
    rewrite result_bind, Houts.
    apply restore_faces_returned in Houts.
    destruct outs; [cbn in Houts; lia |]. now eexists. }
  destruct Hrestore as [outs Houts]. rewrite Houts.
  apply restore_video_returned in Houts. rewrite Houts, Hlen, Hn.
  now eexists _, _.
Qed.

End RunShape.

(** ** The chunks of a run *)

Lemma call_checked (E : Env) (a : Args) :
  ffmpeg_installed E = true ->
  read_video E <> [] ->
  valid_inputs (working_height E a) (working_width E a) (callback_steps a) ->
  call E a =
  let inference := infer E a (all_faces E) (working_height E a) (working_width E a) in
  match result inference with
  | Raised e => (gathered E ++ trace inference, Raised e)
  | Returned synced =>
      let finished :=
        finish E a synced (read_video E)
          (map (fun r => snd (fst r)) (map (affine_transform E) (read_video E)))
          (map snd (map (affine_transform E) (read_video E))) (read_audio E) in
      (gathered E ++ trace inference ++ trace finished, result finished)
  end.
Proof.
  intros Hff Hvideo Hvalid.
  rewrite call_spec, gather_checked by assumption. cbn [result snd trace fst].
  rewrite (check_inputs_valid Hvalid). reflexivity.
Qed.

Lemma window_concat {A : Type} (n : nat) (xss : list (list A)) (i : nat) (xs : list A) :
  Forall (fun ys => length ys = n) xss ->
  nth_error xss i = Some xs ->
  window i n (concat xss) = xs.
Proof.
  intros Hall. revert i. induction Hall as [| ys xss Hys _ IH]; intros i Hi;
    [now destruct i |].
  unfold window, slice in *. cbn [concat].
  destruct i as [| i]; cbn [nth_error] in Hi.
  - injection Hi as ->. cbn [Nat.mul skipn]. rewrite Nat.add_0_l, Nat.mul_1_l, Nat.sub_0_r.
    rewrite firstn_app, <- Hys, Nat.sub_diag, firstn_all. cbn [firstn]. apply app_nil_r.
  - replace (S i * n) with (length ys + i * n) by (rewrite Hys; lia).
    rewrite skipn_app, skipn_all2 by lia. cbn [app].
    replace (length ys + i * n - length ys) with (i * n) by lia.
    replace ((S i + 1) * n - (length ys + i * n)) with ((i + 1) * n - i * n)
      by (rewrite Hys; lia).
    now apply IH.
Qed.

Lemma nth_error_local_composite (decoded pixel_values masks : tensor4) (k : nat)
    (d p m : block) :
  nth_error decoded k = Some d ->
  nth_error pixel_values k = Some p ->
  nth_error masks k = Some m ->
  exists r,
    nth_error (local_composite decoded pixel_values masks) k = Some r /\
    shape r = shape d /\
    forall c y x,
      entry r c y x
      = (entry d c y x * (1 - entry m c y x)
         + entry p c y x * (1 - (1 - entry m c y x)))%Q.
Proof.
  intros Hd Hp Hm. eexists. split.
  - unfold local_composite, paste_surrounding_pixels_back, t4map2, t4map.
    apply nth_error_zip_with.
    + apply nth_error_zip_with; [eassumption |]. apply map_nth_error. eassumption.
    + apply nth_error_zip_with; [eassumption |].
      apply map_nth_error. apply map_nth_error. eassumption.
  - split; reflexivity.
Qed.

Section Chunks.

Variable E : Env.

(** The body of the chunk loop, in the names of the source. *)
Lemma infer_chunk_eq (a : Args) (s : loop_state) (i : nat) (g : Generator) :
  infer_chunk E a s i g =
  (local_composite (decode_latents E (fst (chunk_denoised E a s i g)))
     (chunk_pixel_values E a s i) (chunk_masks E a s i),
   snd (chunk_denoised E a s i g)).
Proof.
  unfold infer_chunk, chunk_denoised, chunk_step, chunk_generator, chunk_image_latents,
    chunk_masked_image_latents, chunk_mask_latents, chunk_masks, chunk_masked_pixel_values,
    chunk_pixel_values, chunk_noise, chunk_embeds, chunk_faces.
  destruct (prepare_masks_and_masked_images E _) as [[pixel_values masked] masks].
  cbn [fst snd].
  destruct (prepare_mask_latents E _ _ _ _ _ _) as [[mask_latents mil] g1].
  cbn [fst snd].
  destruct (prepare_image_latents E _ _ _) as [il g2].
  cbn [fst snd].
  now destruct (fold_left _ _ _) as [latents g3].
Qed.

Lemma chunk_pixel_values_eq (a : Args) (s : loop_state) (i : nat) :
  chunk_pixel_values E a s i
  = map (fun face => fst (fst (prepare_mask_and_masked_image E face)))
      (window i (num_frames a) (ls_faces s)) /\
  chunk_masks E a s i
  = map (fun face => snd (prepare_mask_and_masked_image E face))
      (window i (num_frames a) (ls_faces s)).
Proof.
  unfold chunk_pixel_values, chunk_masks, chunk_faces, prepare_masks_and_masked_images.
  cbn [fst snd]. now rewrite !map_map.
Qed.

Lemma layout_chunk_denoised (a : Args) (s : loop_state) (i : nat) (g : Generator) :
  layout (fst (chunk_denoised E a s i g)) = layout (chunk_noise a s i).
Proof. unfold chunk_denoised, chunk_step. now rewrite fold_denoise_layout. Qed.

(** Frame [j] of chunk [i]: the composite of the decoded frame [j] with the
    pixel values and the mask of face [i * num_frames + j]. *)
Lemma infer_chunk_frame (a : Args) (s : loop_state) (i : nat) (g : Generator) (j : nat) :
  (i + 1) * num_frames a <= length (ls_faces s) ->
  (exists frames, ls_all_latents s = [frames] /\ (i + 1) * num_frames a <= length frames) ->
  j < num_frames a ->
  exists face d r,
    nth_error (ls_faces s) (i * num_frames a + j) = Some face /\
    nth_error (decode_latents E (fst (chunk_denoised E a s i g))) j = Some d /\
    nth_error (fst (infer_chunk E a s i g)) j = Some r /\
    shape r = shape d /\
    forall c y x,
      let p := fst (fst (prepare_mask_and_masked_image E face)) in
      let m := snd (prepare_mask_and_masked_image E face) in
      entry r c y x
      = (entry d c y x * (1 - entry m c y x)
         + entry p c y x * (1 - (1 - entry m c y x)))%Q.
Proof.
  intros Hf (frames & Hl & Hn) Hj.
  assert (Hface : exists face, nth_error (ls_faces s) (i * num_frames a + j) = Some face).
  { destruct (nth_error (ls_faces s) (i * num_frames a + j)) as [face |] eqn:H;
      [now exists face |].
    apply nth_error_None in H. unfold tensor4 in *. nia. }
  destruct Hface as [face Hface].
  assert (Hwin : nth_error (window i (num_frames a) (ls_faces s)) j = Some face)
    by (rewrite nth_error_window; assumption).
  destruct (chunk_pixel_values_eq a s i) as [Hpv Hmk].
  assert (Hdec : exists d,
    nth_error (decode_latents E (fst (chunk_denoised E a s i g))) j = Some d).
  { destruct (nth_error (decode_latents E (fst (chunk_denoised E a s i g))) j)
      as [d |] eqn:H; [now exists d |].
    apply nth_error_None in H.
    rewrite length_decode_latents, layout_chunk_denoised in H.
    unfold chunk_noise in H. rewrite Hl in H. cbn [map layout] in H.
    rewrite (length_window _ _ frames Hn) in H.
    unfold list_sum in H. cbn [fold_right] in H. lia. }
  destruct Hdec as [d Hd].
  destruct (@nth_error_local_composite
              (decode_latents E (fst (chunk_denoised E a s i g)))
              (chunk_pixel_values E a s i) (chunk_masks E a s i) j d
              (fst (fst (prepare_mask_and_masked_image E face)))
              (snd (prepare_mask_and_masked_image E face)) Hd)
    as (r & Hr & Hshape & Hentry).
  - rewrite Hpv, nth_error_map, Hwin. reflexivity.
  - rewrite Hmk, nth_error_map, Hwin. reflexivity.
  - exists face, d, r. rewrite infer_chunk_eq. cbn [fst]. repeat split; assumption.
Qed.

Lemma infer_chunks_from (a : Args) (s : loop_state) (g : Generator) (n k : nat) :
  infer_chunks E a s (seq k n) (generator_at E a s g k)
  = map (fun i => fst (infer_chunk E a s i (generator_at E a s g i))) (seq k n).
Proof.
  revert k. induction n as [| n IH]; intros k; [reflexivity |].
  cbn [seq infer_chunks map].
  specialize (IH (S k)). cbn [generator_at] in IH.
  destruct (infer_chunk E a s k (generator_at E a s g k)) as [decoded g'].
  cbn [fst snd] in *. now rewrite IH.
Qed.

(** What the inference of a run returns: the outputs of the chunks
    [0 .. L // N - 1], in order, [N] frames each. *)
Lemma infer_returned_chunks (a : Args) faces height width synced :
  result (infer E a faces height width) = Returned synced ->
  let s := start_state E a faces height width in
  let g := generator_after_noise E a height width in
  let chunk i := fst (infer_chunk E a s i (generator_at E a s g i)) in
  (0 <= height / vae_scale_factor E)%Z /\
  (0 <= width / vae_scale_factor E)%Z /\
  synced = concat (map chunk (seq 0 (usable_length E a faces / num_frames a))) /\
  forall i, i < usable_length E a faces / num_frames a ->
    length (chunk i) = num_frames a /\
    window i (num_frames a) synced = chunk i /\
    forall j, j < num_frames a ->
      nth_error synced (i * num_frames a + j) = nth_error (chunk i) j.
Proof.
  intros Hret s g chunk.
  destruct (Nat.eq_dec (num_frames a) 0) as [HN | HN];
    [rewrite infer_zero_frames in Hret by assumption; discriminate |].
  destruct (Z_lt_le_dec (height / vae_scale_factor E) 0) as [Hh | Hh];
    [destruct (infer_negative_size E a faces height width HN (or_introl Hh)) as [e He];
     rewrite He in Hret; discriminate |].
  destruct (Z_lt_le_dec (width / vae_scale_factor E) 0) as [Hw | Hw];
    [destruct (infer_negative_size E a faces height width HN (or_intror Hw)) as [e He];
     rewrite He in Hret; discriminate |].
  split; [exact Hh |]. split; [exact Hw |].
  rewrite infer_eq in Hret by assumption. cbn [result snd] in Hret.
  fold s g in Hret.
  change g with (generator_at E a s g 0) in Hret.
  rewrite infer_chunks_from in Hret. fold chunk in Hret.
  set (ni := usable_length E a faces / num_frames a) in *.
  assert (Hsynced : synced = concat (map chunk (seq 0 ni))).
  { destruct (map chunk (seq 0 ni)); [discriminate |].
    cbn in Hret. now injection Hret as <-. }
  assert (Hlen : forall i, i < ni -> length (chunk i) = num_frames a).
  { intros i Hi. apply length_infer_chunk.
    - cbn [ls_faces s start_state].
      assert (usable_length E a faces <= length faces)
        by (unfold usable_length; destruct (add_audio_layer E); lia).
      pose proof (Nat.Div0.mul_div_le (usable_length E a faces) (num_frames a)) as Hle.
      fold ni in Hle. unfold tensor4 in *. nia.
    - eexists. split; [reflexivity |]. rewrite repeat_length. fold ni. nia. }
  split; [exact Hsynced |].
  intros i Hi. split; [now apply Hlen |].
  assert (Hwin : window i (num_frames a) synced = chunk i).
  { rewrite Hsynced. apply window_concat.
    - apply Forall_map, Forall_forall. intros k Hk. apply in_seq in Hk. apply Hlen. lia.
    - rewrite nth_error_map, nth_error_seq.
      destruct (Nat.ltb_spec i ni); [reflexivity | lia]. }
  split; [exact Hwin |].
  intros j Hj. rewrite <- Hwin. symmetry. now apply nth_error_window.
Qed.

(** The same for a run that returns. *)
Lemma call_returned_chunks (a : Args) frames audio :
  result (call E a) = Returned (frames, audio) ->
  result (infer E a (all_faces E) (working_height E a) (working_width E a))
  = Returned (concat (map (chunk_output E a) (seq 0 (run_windows E a)))) /\
  (0 <= working_height E a / vae_scale_factor E)%Z /\
  (0 <= working_width E a / vae_scale_factor E)%Z /\
  forall i, i < run_windows E a ->
    length (chunk_output E a i) = num_frames a /\
    forall j, j < num_frames a ->
      nth_error (concat (map (chunk_output E a) (seq 0 (run_windows E a))))
        (i * num_frames a + j)
      = nth_error (chunk_output E a i) j.
Proof.
  intros Hret.
  destruct (call_returned E a Hret)
    as (_ & _ & _ & _ & _ & Hvideo & Hff & Hvalid & _).
  rewrite call_checked in Hret by assumption. cbv zeta in Hret.
  destruct (result (infer E a (all_faces E) (working_height E a) (working_width E a)))
    as [synced | e] eqn:Hinfer; [| discriminate].
  pose proof (infer_returned_chunks a _ _ _ Hinfer) as Hchunks. cbv zeta in Hchunks.
  destruct Hchunks as (Hh & Hw & Hsynced & Hchunks).
  unfold chunk_output, run_generator, run_state, run_windows.
  split; [now rewrite Hsynced |]. split; [exact Hh |]. split; [exact Hw |].
  intros i Hi. destruct (Hchunks i Hi) as (Hlen & _ & Hnth).
  split; [exact Hlen |].
  intros j Hj. rewrite <- (Hnth j Hj). now rewrite Hsynced.
Qed.

End Chunks.

(** ** C1: windows *)

Lemma chunks_processed_cons (e : event) (tr : list event) :
  chunks_processed (e :: tr) =
  match e with EvDenoise i => [i] | _ => [] end ++ chunks_processed tr.
Proof. reflexivity. Qed.

Lemma chunks_processed_app (tr tr' : list event) :
  chunks_processed (tr ++ tr') = chunks_processed tr ++ chunks_processed tr'.
Proof. apply flat_map_app. Qed.

Lemma chunks_processed_other (s : stage) (tr : list event) :
  s <> Inferring -> Forall (fun e => stage_of e = s) tr -> chunks_processed tr = [].
Proof.
  intros Hs. induction 1 as [| e tr He _ IH]; [reflexivity |].
  rewrite chunks_processed_cons, IH.
  destruct e; try reflexivity. cbn in He. congruence.
Qed.

Lemma chunks_processed_denoise (chunks : list nat) :
  chunks_processed (map EvDenoise chunks) = chunks.
Proof.
  induction chunks as [| i chunks IH]; [reflexivity |].
  cbn [map]. now rewrite chunks_processed_cons, IH.
Qed.

Lemma chunks_processed_written (E : Env) (a : Args) (frames samples : nat) :
  chunks_processed (written E a frames samples) = [].
Proof. unfold written. now destruct (temp_exists E). Qed.

Lemma chunks_processed_inferred (E : Env) (a : Args) faces height width :
  chunks_processed (inferred E a faces height width)
  = seq 0 (usable_length E a faces / num_frames a).
Proof.
  unfold inferred.
  rewrite chunks_processed_cons, !chunks_processed_app, chunks_processed_denoise.
  unfold audio_events. now destruct (add_audio_layer E).
Qed.

Lemma chunks_processed_gathered (E : Env) : chunks_processed (gathered E) = [].
Proof.
  apply (@chunks_processed_other Gathering); [discriminate | apply gathered_stage].
Qed.

Lemma call_returned_counts (E : Env) (a : Args) frames audio :
  result (call E a) = Returned (frames, audio) ->
  chunks_processed (trace (call E a))
  = seq 0 (usable_length E a (all_faces E) / num_frames a) /\
  length frames = num_frames a * (usable_length E a (all_faces E) / num_frames a).
Proof.
  intros Hret.
  destruct (call_returned E a Hret)
    as (restored & n & Htr & Hr & _ & _ & _ & _ & _ & _ & Hlen & _).
  split; [| exact Hlen].
  rewrite Htr, !chunks_processed_app, chunks_processed_gathered,
    chunks_processed_inferred, chunks_processed_written.
  rewrite (@chunks_processed_other Restoring restored) by (discriminate || assumption).
  now rewrite app_nil_r.
Qed.

Lemma superresolve_none (E : Env) (face : block) (height width : Z) :
  exists r, result (superresolve E "none" face height width) = Returned r.
Proof.
  exists face. rewrite superresolve_skipped; [reflexivity |].
  unfold superres_condition. now destruct (shape face) as [[c h] w].
Qed.

(** C1. With window length [N = num_frames] and usable length [L] (the
    faces, capped by the audio feature chunks when the model is
    audio-conditioned), a run computes [L // N] windows. Chunk [i] reads the
    faces only through their window [i*N .. (i+1)*N - 1]: its pixel values,
    masked pixel values and masks are those of the faces of that window,
    its audio embeddings are the feature chunks of the same window
    (preceded by as many zero ones under guidance), its latents the same
    window of the noise tensor, and what it outputs is the composite of the
    latents denoised from these. The windows are disjoint, contiguous and
    in order. A run that returns has denoised exactly the chunks
    [0 .. L // N - 1]; the faces it hands to the restoration are the
    outputs of these chunks in order, [N] frames each, frame [i*N + j] being
    built on face [i*N + j]; it outputs [N * (L // N)] frames, never more
    than [L]: the trailing partial window is dropped. Without
    super-resolution such a run exists as soon as one full window fits and
    no collaborator raises. *)
Theorem windows_cover_the_full_chunks (E : Env) (a : Args) :
  0 < num_frames a ->
  let N := num_frames a in
  let faces := all_faces E in
  let L := usable_length E a faces in
  let s := run_state E a in
  result (num_inferences E a faces) = Returned (whisper_chunks_of E a, L / N) /\
  (forall i g,
     infer_chunk E a s i g
     = (local_composite (decode_latents E (fst (chunk_denoised E a s i g)))
          (chunk_pixel_values E a s i) (chunk_masks E a s i),
        snd (chunk_denoised E a s i g)) /\
     chunk_denoised E a s i g
     = fold_left
         (denoise_step E (gt (guidance_scale a) 1) (guidance_scale a)
            (prepare_extra_step_kwargs E (eta a)) (chunk_embeds E a s i)
            (chunk_mask_latents E a s i g) (chunk_masked_image_latents E a s i g)
            (chunk_image_latents E a s i g))
         (set_timesteps E (num_inference_steps a))
         (map (window i N) (ls_all_latents s), chunk_generator E a s i g) /\
     prepare_masks_and_masked_images E (window i N faces)
     = (chunk_pixel_values E a s i, chunk_masked_pixel_values E a s i, chunk_masks E a s i) /\
     prepare_mask_latents E (chunk_masks E a s i) (chunk_masked_pixel_values E a s i)
       (working_height E a) (working_width E a) g (gt (guidance_scale a) 1)
     = (chunk_mask_latents E a s i g, chunk_masked_image_latents E a s i g,
        snd (prepare_mask_latents E (chunk_masks E a s i) (chunk_masked_pixel_values E a s i)
               (working_height E a) (working_width E a) g (gt (guidance_scale a) 1))) /\
     chunk_embeds E a s i
     = (if add_audio_layer E
        then Some ((if gt (guidance_scale a) 1
                    then zeros_like (window i N (whisper_chunks_of E a)) else [])
                   ++ window i N (whisper_chunks_of E a))
        else None)) /\
  (forall i, i < L / N ->
     length (window i N faces) = N /\
     (forall j, j < N -> nth_error (window i N faces) j = nth_error faces (i * N + j)) /\
     (add_audio_layer E = true ->
      length (window i N (whisper_chunks_of E a)) = N /\
      forall j, j < N ->
        nth_error (window i N (whisper_chunks_of E a)) j
        = nth_error (whisper_chunks_of E a) (i * N + j))) /\
  concat (map (fun i => window i N faces) (seq 0 (L / N))) = firstn (N * (L / N)) faces /\
  (forall frames audio,
     result (call E a) = Returned (frames, audio) ->
     chunks_processed (trace (call E a)) = seq 0 (L / N) /\
     length frames = N * (L / N) /\
     length frames <= L /\ L < length frames + N /\
     exists synced,
       result (infer E a faces (working_height E a) (working_width E a)) = Returned synced /\
       synced = concat (map (chunk_output E a) (seq 0 (L / N))) /\
       forall i, i < L / N ->
         chunk_output E a i = fst (infer_chunk E a s i (run_generator E a i)) /\
         length (chunk_output E a i) = N /\
         forall j, j < N ->
           nth_error synced (i * N + j) = nth_error (chunk_output E a i) j /\
           exists face d r,
             nth_error faces (i * N + j) = Some face /\
             nth_error
               (decode_latents E (fst (chunk_denoised E a s i (run_generator E a i)))) j
             = Some d /\
             nth_error synced (i * N + j) = Some r /\
             shape r = shape d /\
             forall c y x,
               let p := fst (fst (prepare_mask_and_masked_image E face)) in
               let m := snd (prepare_mask_and_masked_image E face) in
               entry r c y x
               = (entry d c y x * (1 - entry m c y x)
                  + entry p c y x * (1 - (1 - entry m c y x)))%Q) /\
  (ffmpeg_installed E = true ->
   valid_inputs (working_height E a) (working_width E a) (callback_steps a) ->
   (0 <= working_height E a)%Z ->
   N <= L ->
   superres a = "none"%string ->
   (exists n,
      result (remain_length (N * (L / N)) (video_fps a) (audio_sample_rate a))
      = Returned n) ->
   exists frames audio,
     result (call E a) = Returned (frames, audio) /\ length frames = N * (L / N)).
Proof.
  intros HN N faces L s.
  assert (Hle : N * (L / N) <= L) by (apply Nat.Div0.mul_div_le).
  assert (Hfaces : L <= length faces)
    by (unfold L, usable_length; destruct (add_audio_layer E); lia).
  split; [| split; [| split; [| split; [| split]]]].
  - rewrite num_inferences_spec. cbn [result snd].
    destruct (Nat.eqb_spec (num_frames a) 0); [lia | reflexivity].
  - intros i g.
    split; [apply infer_chunk_eq |]. split; [reflexivity |].
    split.
    { unfold chunk_pixel_values, chunk_masked_pixel_values, chunk_masks, chunk_faces.
      cbn [ls_faces s run_state start_state]. fold faces N.
      now destruct (prepare_masks_and_masked_images E (window i N faces)) as [[pv mpv] mk]. }
    split.
    { unfold chunk_mask_latents, chunk_masked_image_latents.
      cbn [ls_height ls_width ls_do_classifier_free_guidance s run_state start_state].
      now destruct (prepare_mask_latents E _ _ _ _ _ _) as [[ml mil] g1]. }
    unfold chunk_embeds, chunk_audio_embeds, whisper_chunks_of.
    cbn [ls_do_classifier_free_guidance ls_whisper_chunks s run_state start_state].
    unfold whisper_chunks_of. fold N.
    destruct (add_audio_layer E); [| reflexivity].
    now destruct (gt (guidance_scale a) 1).
  - intros i Hi.
    assert (Hin : (i + 1) * N <= N * (L / N)) by nia.
    split; [apply length_window; lia |].
    split; [intros j Hj; now apply nth_error_window |].
    intros Haudio.
    assert (Hchunks : L <= length (whisper_chunks_of E a)).
    { unfold L, usable_length, whisper_chunks_of. rewrite Haudio. lia. }
    split; [apply length_window; lia | intros j Hj; now apply nth_error_window].
  - rewrite concat_windows. f_equal. lia.
  - intros frames audio Hret.
    destruct (call_returned_counts E a Hret) as [Hchunks Hlen].
    fold faces L N in Hlen, Hchunks.
    split; [exact Hchunks |]. split; [exact Hlen |]. split; [lia |].
    split.
    { rewrite Hlen.
      pose proof (Nat.mod_upper_bound L N ltac:(lia)) as Hmod.
      pose proof (Nat.div_mod_eq L N). lia. }
    destruct (call_returned_chunks E a Hret) as (Hinfer & _ & _ & Hrun).
    unfold run_windows in Hinfer, Hrun. fold faces L N in Hinfer, Hrun.
    eexists. split; [exact Hinfer |]. split; [reflexivity |].
    intros i Hi. destruct (Hrun i Hi) as [Hlength Hnth].
    split; [reflexivity |]. split; [exact Hlength |].
    intros j Hj. split; [now apply Hnth |].
    assert (Hin : (i + 1) * N <= N * (L / N)) by nia.
    destruct (@infer_chunk_frame E a s i (run_generator E a i) j) as
      (face & d & r & Hface & Hd & Hr & Hshape & Hentry).
    + cbn [ls_faces s run_state start_state]. fold faces N. lia.
    + eexists. split; [reflexivity |]. rewrite repeat_length. fold faces L N. lia.
    + exact Hj.
    + exists face, d, r. cbn [ls_faces s run_state start_state] in Hface.
      split; [exact Hface |]. split; [exact Hd |].
      split; [rewrite (Hnth j Hj); exact Hr |].
      split; [exact Hshape | exact Hentry].
  - intros Hff Hvalid Hpos HL Hnone Hn.
    assert (Hsr : forall face h w,
               exists r, result (superresolve E (superres a) face h w) = Returned r)
      by (intros face h w; rewrite Hnone; apply superresolve_none).
    destruct (@call_returns E a Hff Hvalid Hpos (conj HN HL) Hsr Hn) as (frames & audio & Hret).
    exists frames, audio. split; [exact Hret |].
    now destruct (call_returned_counts E a Hret) as [_ Hlen].
Qed.

Lemma windows_cover_the_full_chunks_witness :
  let E := demo_env 5 100 true 1 in
  let a := demo_args 2 25 (3 # 2) "none" in
  0 < num_frames a /\
  result (num_inferences E a (all_faces E)) = Returned (whisper_chunks_of E a, 2) /\
  exists frames audio, result (call E a) = Returned (frames, audio) /\ length frames = 4.
Proof.
  cbv zeta.
  assert (H : 0 < num_frames (demo_args 2 25 (3 # 2) "none")) by (cbn; lia).
  split; [exact H |].
  destruct (windows_cover_the_full_chunks (demo_env 5 100 true 1)
              (demo_args 2 25 (3 # 2) "none") H) as (Hn & _ & _ & _ & _ & Hrun).
  split; [exact Hn |].
  apply Hrun.
  - reflexivity.
  - repeat split. now exists 1%Z.
  - vm_compute. discriminate.
  - vm_compute. lia.
  - reflexivity.
  - exists 2560%Z. vm_compute. reflexivity.
Defined.

(** ** C7: the audio cut *)

Lemma remain_length_returned (frames : nat) (fps rate n : Z) :
  remain_length frames fps rate = ([], Returned n) <->
  fps <> 0%Z /\
  int_of_float
    (PrimFloat.mul (PrimFloat.div (float_of_Z (Z.of_nat frames)) (float_of_Z fps))
       (float_of_Z rate)) = Some n.
Proof.
  unfold remain_length, truediv, to_int.
  destruct (Z.eqb_spec fps 0) as [-> | Hfps]; cbn.
  - split; [discriminate | intros [H _]; congruence].
  - destruct (int_of_float _) as [z |]; cbn; split.
    + intros H. inversion H. now split.
    + intros [_ H]. now inversion H.
    + discriminate.
    + intros [_ H]. discriminate.
Qed.

(** The arithmetic is that of binary64: eleven frames at 30 frames per
    second and 44100 samples per second are cut at 16169 samples, one short
    of the exact quotient. *)
Remark remain_length_is_computed_in_floats :
  remain_length 11 30 44100 = ([], Returned 16169%Z) /\ (11 * 44100 / 30 = 16170)%Z.
Proof. split; vm_compute; reflexivity. Qed.

Lemma length_slice_to {A : Type} (n : Z) (xs : list A) :
  (0 <= n <= Z.of_nat (length xs))%Z -> Z.of_nat (length (slice_to n xs)) = n.
Proof.
  intros H. unfold slice_to.
  destruct (Z.ltb_spec n 0); [lia |].
  rewrite length_firstn. lia.
Qed.

Lemma length_slice_to_any {A : Type} (n : Z) (xs : list A) :
  length (slice_to n xs)
  = if (n <? 0)%Z then length xs - Z.to_nat (- n) else Nat.min (Z.to_nat n) (length xs).
Proof.
  unfold slice_to. destruct (n <? 0)%Z; rewrite length_firstn; lia.
Qed.

(** The audio of a run is not always cut to the exact length. A track of
    100 samples stays at 100 samples where four frames at 25 frames per
    second and 16000 samples per second call for 2560; and fifteen frames
    at 11 frames and 11 samples per second are cut at 14 samples, the float
    product falling short of the exact 15. *)
Lemma audio_is_not_cut_to_the_exact_length :
  (let E := demo_env 5 100 false 1 in
   let a := demo_args 2 25 (3 # 2) "none" in
   result (call E a) = Returned ([0; 1; 2; 3], seq 0 100) /\
   remain_length 4 25 16000 = ([], Returned 2560%Z) /\
   ~ audio_has_the_exact_length E a) /\
  (let E := demo_env 15 100 false 1 in
   let a := set_audio_sample_rate (demo_args 15 11 (3 # 2) "none") 11 in
   result (call E a) = Returned (seq 0 15, seq 0 14) /\
   remain_length 15 11 11 = ([], Returned 14%Z) /\
   (15 * 11 / 11 = 15)%Z /\
   ~ audio_has_the_exact_length E a).
Proof.
  cbv zeta. split.
  - assert (Hret : result (call (demo_env 5 100 false 1) (demo_args 2 25 (3 # 2) "none"))
                   = Returned ([0; 1; 2; 3], seq 0 100)) by (vm_compute; reflexivity).
    split; [exact Hret |]. split; [vm_compute; reflexivity |].
    intros H. specialize (H _ _ Hret). vm_compute in H. discriminate.
  - assert (Hret : result (call (demo_env 15 100 false 1)
                             (set_audio_sample_rate (demo_args 15 11 (3 # 2) "none") 11))
                   = Returned (seq 0 15, seq 0 14)) by (vm_compute; reflexivity).
    split; [exact Hret |]. split; [vm_compute; reflexivity |].
    split; [reflexivity |].
    intros H. specialize (H _ _ Hret). vm_compute in H. discriminate.
Qed.

(** C7, as the code cuts. A run that returns has cut the audio to
    [audio_samples[:n]] with [n = int(frames / video_fps * audio_sample_rate)],
    [frames] being the number of output frames and the arithmetic that of
    Python floats, and has written it, after the silent video, right before
    the external encoder is called. The cut is a slice: it has [n] samples
    when [0 <= n] and the track has at least [n], the whole track when the
    track is shorter, and for a negative [n] the track less its last [-n]
    samples. With 40 faces, at least 40 audio feature chunks,
    [num_frames = 16], [video_fps = 25] and [audio_sample_rate = 16000] the
    output has 32 frames, [n] is 20480 and a track of at least that length
    is cut at 20480 samples. *)
Theorem audio_is_cut_to_the_output_frames (E : Env) (a : Args) frames audio :
  result (call E a) = Returned (frames, audio) ->
  exists n,
    (video_fps a <> 0%Z /\
     int_of_float
       (PrimFloat.mul
          (PrimFloat.div (float_of_Z (Z.of_nat (length frames))) (float_of_Z (video_fps a)))
          (float_of_Z (audio_sample_rate a))) = Some n) /\
    audio = slice_to n (read_audio E) /\
    (exists before,
       trace (call E a) =
       before ++ [EvWriteVideo "temp/video.mp4" (length frames) 25;
                  EvWriteAudio "temp/audio.wav" (length audio) (audio_sample_rate a);
                  EvSubprocess (ffmpeg_command a)]) /\
    length audio
    = (if (n <? 0)%Z then length (read_audio E) - Z.to_nat (- n)
       else Nat.min (Z.to_nat n) (length (read_audio E))) /\
    ((0 <= n <= Z.of_nat (length (read_audio E)))%Z -> Z.of_nat (length audio) = n) /\
    ((Z.of_nat (length (read_audio E)) <= n)%Z -> audio = read_audio E) /\
    (length (read_video E) = 40 ->
     (add_audio_layer E = true -> 40 <= length (feature2chunks E 25)) ->
     num_frames a = 16 -> video_fps a = 25%Z -> audio_sample_rate a = 16000%Z ->
     length frames = 32 /\ n = 20480%Z /\
     ((20480 <= Z.of_nat (length (read_audio E)))%Z ->
      Z.of_nat (length audio) = 20480%Z)).
Proof.
  intros Hret.
  destruct (call_returned E a Hret)
    as (restored & n & Htr & _ & _ & _ & _ & _ & _ & _ & Hlen & Hn & Haudio).
  exists n.
  split; [now apply remain_length_returned |].
  split; [exact Haudio |].
  split.
  { rewrite Htr. unfold written.
    exists (gathered E
            ++ inferred E a (all_faces E) (working_height E a) (working_width E a)
            ++ restored
            ++ EvPathExists "temp"
               :: (if temp_exists E then [EvRmTree "temp"] else []) ++ [EvMakeDirs "temp"]).
    rewrite <- !app_assoc. cbn [app]. do 3 f_equal.
    destruct (temp_exists E); reflexivity. }
  split; [subst audio; apply length_slice_to_any |].
  split; [subst audio; apply length_slice_to |].
  split.
  { intros Hshort. subst audio. unfold slice_to.
    destruct (Z.ltb_spec n 0); [lia |]. apply firstn_all2. lia. }
  intros Hvideo Hchunks HN Hfps Hrate.
  assert (HL : usable_length E a (all_faces E) = 40).
  { unfold usable_length. rewrite length_all_faces, Hvideo, Hfps.
    destruct (add_audio_layer E); [specialize (Hchunks eq_refl); lia | reflexivity]. }
  rewrite HL, HN in Hlen. change (16 * (40 / 16)) with 32 in Hlen.
  rewrite Hlen, Hfps, Hrate in Hn.
  assert (n = 20480%Z) as -> by (vm_compute in Hn; congruence).
  repeat split; [exact Hlen |].
  intros Hsamples. subst audio. apply length_slice_to. lia.
Qed.

Lemma audio_is_cut_to_the_output_frames_witness :
  let E := demo_env 40 (Z.to_nat 30000) true 2 in
  let a := demo_args 16 25 (3 # 2) "none" in
  exists frames audio,
    result (call E a) = Returned (frames, audio) /\
    length frames = 32 /\ Z.of_nat (length audio) = 20480%Z.
Proof.
  cbv zeta.
  set (E := demo_env 40 (Z.to_nat 30000) true 2).
  set (a := demo_args 16 25 (3 # 2) "none").
  assert (Hret : exists frames audio, result (call E a) = Returned (frames, audio)).
  { apply call_returns.
    - reflexivity.
    - repeat split. now exists 1%Z.
    - vm_compute. discriminate.
    - vm_compute. lia.
    - apply superresolve_none.
    - exists 20480%Z. vm_compute. reflexivity. }
  destruct Hret as (frames & audio & Hret).
  exists frames, audio. split; [exact Hret |].
  destruct (audio_is_cut_to_the_output_frames E a Hret)
    as (n & _ & _ & _ & _ & _ & _ & Hscenario).
  destruct Hscenario as (Hframes & _ & Haudio); try reflexivity.
  - intros _. vm_compute. lia.
  - split; [exact Hframes |]. apply Haudio.
    change (read_audio E) with (seq 0 (Z.to_nat 30000)).
    rewrite length_seq. lia.
Defined.

(** ** C2: the noise latents *)

(** [prepare_latents] is not the full-length draw: on four frames of one
    2x2 channel it draws 4 samples where a draw per frame takes 16, and the
    tensors differ. *)
Lemma noise_is_not_drawn_per_frame :
  let E := demo_env 5 100 true 1 in
  let g := generator (demo_args 2 25 (3 # 2) "none") in
  (exists latents g',
     prepare_latents E 1 4 1 16 16 g = ([EvRandn (1, 1, 1, 2, 2)], Returned (latents, g')) /\
     consumed g' = 4 /\
     consumed (snd (full_length_noise E 1 4 1 16 16 g)) = 16) /\
  result (prepare_latents E 1 4 1 16 16 g) <> Returned (full_length_noise E 1 4 1 16 16 g).
Proof.
  cbv zeta. split.
  - eexists _, _. split; [vm_compute; reflexivity |]. split; reflexivity.
  - intros H.
    apply (f_equal (fun o : outcome (tensor5 * Generator) =>
                      match o with Returned (_, g') => consumed g' | Raised _ => 0 end)) in H.
    vm_compute in H. discriminate.
Qed.

(** C2, as the code has it. The noise of a run is drawn once, from the
    caller's generator as it was handed over, for a single frame: the shape
    given to [torch.randn] has temporal length 1, and the generator advances
    by the size of one frame whatever the number of frames. That frame is
    repeated along the temporal axis to the full output length
    [num_frames * num_inferences] and scaled by the scheduler's initial
    sigma. The starting latent of chunk [i] is the slice
    [i*N .. (i+1)*N - 1] of that tensor: [N] copies of the same scaled
    frame, for every chunk; the loop over the timesteps of the chunk starts
    from it, every step handing the current latents to the denoiser and to
    the scheduler, and the chunk outputs the composite of what the loop
    ends with. *)
Theorem noise_is_one_frame_repeated (E : Env) (a : Args) (faces : tensor4)
    (height width : Z) :
  num_frames a <> 0 ->
  (0 <= height / vae_scale_factor E)%Z ->
  (0 <= width / vae_scale_factor E)%Z ->
  let N := num_frames a in
  let ni := usable_length E a faces / N in
  let noise := scaled_noise_frame E a height width in
  let s := start_state E a faces height width in
  prepare_latents E 1 (N * ni) (latent_channels E) height width (generator a) =
    ([EvRandn (1, latent_channels E, 1, latent_size E height, latent_size E width)],
     Returned ([repeat noise (N * ni)], generator_after_noise E a height width)) /\
  consumed (generator_after_noise E a height width) =
    consumed (generator a) + latent_channels E * latent_size E height * latent_size E width /\
  infer E a faces height width =
    (inferred E a faces height width,
     result (torch_cat
               (infer_chunks E a s (seq 0 ni) (generator_after_noise E a height width)))) /\
  randn_shapes (trace (infer E a faces height width)) =
    [(1, latent_channels E, 1, latent_size E height, latent_size E width)] /\
  ls_all_latents s = [repeat noise (N * ni)] /\
  (forall i, i < ni -> map (window i N) (ls_all_latents s) = [repeat noise N]) /\
  infer_chunks E a s (seq 0 ni) (generator_after_noise E a height width)
  = map (fun i =>
           fst (infer_chunk E a s i
                  (generator_at E a s (generator_after_noise E a height width) i)))
      (seq 0 ni) /\
  (forall i g, i < ni ->
     let denoised :=
       fold_left (chunk_step E a s i g) (set_timesteps E (num_inference_steps a))
         ([repeat noise N], chunk_generator E a s i g) in
     infer_chunk E a s i g
     = (local_composite (decode_latents E (fst denoised))
          (chunk_pixel_values E a s i) (chunk_masks E a s i),
        snd denoised)) /\
  (forall i g latents g' t,
     let prediction :=
       predict_noise E (gt (guidance_scale a) 1) (guidance_scale a) (chunk_embeds E a s i)
         (chunk_mask_latents E a s i g) (chunk_masked_image_latents E a s i g)
         (chunk_image_latents E a s i g) latents t in
     let stepped :=
       scheduler_step E prediction t latents
         (if accepts_eta E then Some (eta a) else None)
         (if accepts_generator E then Some g' else None) in
     chunk_step E a s i g (latents, g') t
     = (fst stepped, if accepts_generator E then snd stepped else g')) /\
  (forall frames audio,
     result (call E a) = Returned (frames, audio) ->
     result (infer E a (all_faces E) (working_height E a) (working_width E a))
     = Returned (concat (map (chunk_output E a) (seq 0 (run_windows E a)))) /\
     forall k, chunk_output E a k = fst (infer_chunk E a (run_state E a) k (run_generator E a k))).
Proof.
  intros HN Hh Hw N ni noise s.
  assert (Hslice : forall i, i < ni ->
            map (window i N) (ls_all_latents s) = [repeat noise N]).
  { intros i Hi. cbn [ls_all_latents s start_state map].
    fold N ni noise. f_equal. apply window_repeat. nia. }
  split; [| split; [| split; [| split; [| split; [| split; [| split; [| split; [| split]]]]]]]].
  - rewrite prepare_latents_spec by assumption. reflexivity.
  - cbn [generator_after_noise consumed]. lia.
  - now apply infer_eq.
  - rewrite infer_eq by assumption. cbn [trace fst]. unfold inferred, randn_shapes.
    cbn [flat_map]. rewrite !flat_map_app. cbn [flat_map app].
    replace (flat_map _ (audio_events E a)) with (@nil (nat * nat * nat * nat * nat))
      by (unfold audio_events; now destruct (add_audio_layer E)).
    replace (flat_map _ (map EvDenoise _)) with (@nil (nat * nat * nat * nat * nat));
      [reflexivity |].
    symmetry. induction (seq 0 _) as [| i l IH]; [reflexivity | exact IH].
  - reflexivity.
  - exact Hslice.
  - exact (infer_chunks_from E a s (generator_after_noise E a height width) ni 0).
  - intros i g Hi denoised. rewrite infer_chunk_eq.
    unfold chunk_denoised, chunk_noise. fold N. rewrite (Hslice i Hi). reflexivity.
  - intros i g latents g' t prediction stepped.
    unfold chunk_step, denoise_step.
    cbn [ls_do_classifier_free_guidance ls_extra_step_kwargs s start_state].
    unfold prepare_extra_step_kwargs. fold prediction. fold stepped.
    now destruct stepped as [prev gen].
  - intros frames audio Hret.
    split; [now destruct (call_returned_chunks E a Hret) as (Hinfer & _) | reflexivity].
Qed.

Lemma noise_is_one_frame_repeated_witness :
  let E := demo_env 5 100 true 1 in
  let a := demo_args 2 25 (3 # 2) "none" in
  (num_frames a <> 0 /\
   (0 <= 16 / vae_scale_factor E)%Z /\ (0 <= 16 / vae_scale_factor E)%Z) /\
  randn_shapes (trace (infer E a (all_faces E) 16 16)) = [(1, 1, 1, 2, 2)] /\
  consumed (generator_after_noise E a 16 16) = 4.
Proof.
  cbv zeta.
  assert (HN : num_frames (demo_args 2 25 (3 # 2) "none") <> 0) by discriminate.
  assert (Hh : (0 <= 16 / vae_scale_factor (demo_env 5 100 true 1))%Z)
    by (vm_compute; discriminate).
  split; [repeat split; assumption |].
  destruct (@noise_is_one_frame_repeated (demo_env 5 100 true 1)
              (demo_args 2 25 (3 # 2) "none") (all_faces (demo_env 5 100 true 1))
              16 16 HN Hh Hh) as (_ & Hconsumed & _ & Hshapes & _).
  split; [exact Hshapes | exact Hconsumed].
Defined.

(** ** C3: configuration errors *)

(** A working size of 250 is refused only after the five frames of the
    video were read, aligned and stacked, and the audio was read. *)
Lemma invalid_size_is_refused_after_the_faces :
  let E := demo_env 5 100 true 1 in
  let a := set_size (demo_args 2 25 (3 # 2) "none") (Some 250%Z) (Some 250%Z) in
  ~ valid_inputs (working_height E a) (working_width E a) (callback_steps a) /\
  call E a =
    ([EvCheckFfmpeg; EvReadVideo; EvAffineTransform 0; EvAffineTransform 1;
      EvAffineTransform 2; EvAffineTransform 3; EvAffineTransform 4;
      EvStackFaces 5; EvReadAudio],
     Raised (ValueError "`height` and `width` must be divisible by 8")) /\
  ~ raises_before_any_processing (call E a).
Proof.
  cbv zeta. split; [| split].
  - intros (_ & H & _). vm_compute in H. discriminate.
  - vm_compute. reflexivity.
  - intros [_ H]. vm_compute in H.
    inversion H as [| ? ? _ H']. inversion H' as [| ? ? Hread _]. discriminate.
Qed.

Lemma check_inputs_unequal height width callback_steps :
  height <> width ->
  check_inputs height width callback_steps
  = ([], Raised (AssertionError "Height and width must be equal")).
Proof. intros H. unfold check_inputs. now destruct (Z.eqb_spec height width). Qed.

Lemma check_inputs_indivisible height callback_steps :
  (height mod 8 <> 0)%Z ->
  check_inputs height height callback_steps
  = ([], Raised (ValueError "`height` and `width` must be divisible by 8")).
Proof.
  intros H. unfold check_inputs. rewrite Z.eqb_refl.
  now destruct (Z.eqb_spec (height mod 8) 0).
Qed.

Lemma check_inputs_callback_steps height callback_steps :
  (height mod 8 = 0)%Z ->
  ~ (exists n, callback_steps = CbInt n /\ (0 < n)%Z) ->
  check_inputs height height callback_steps
  = ([], Raised (ValueError "`callback_steps` must be a positive integer")).
Proof.
  intros H Hcb. unfold check_inputs. rewrite Z.eqb_refl, H. cbn.
  destruct callback_steps as [| n |]; try reflexivity.
  destruct (Z.leb_spec n 0); [reflexivity |].
  exfalso. apply Hcb. now exists n.
Qed.

(** C3, as the code orders it. A call with an invalid configuration
    (working height and width unequal, or not divisible by 8, or
    [callback_steps] not a positive integer) raises, and everything it did
    belongs to the gathering of the inputs: it has set up no scheduler,
    extracted no audio feature, drawn no noise, denoised no chunk, restored
    no frame and written nothing. When the encoder is present and the
    video has frames, the error is that of [check_inputs], raised after the
    faces of the whole video were aligned and stacked and the audio was
    read. *)
Theorem invalid_configuration_raises_before_inference (E : Env) (a : Args) :
  ~ valid_inputs (working_height E a) (working_width E a) (callback_steps a) ->
  (exists e, result (call E a) = Raised e) /\
  Forall (fun ev => stage_of ev = Gathering) (trace (call E a)) /\
  (ffmpeg_installed E = true -> read_video E <> [] ->
   exists e,
     check_inputs (working_height E a) (working_width E a) (callback_steps a)
     = ([], Raised e) /\
     call E a = (gathered E, Raised e)) /\
  (working_height E a <> working_width E a ->
   check_inputs (working_height E a) (working_width E a) (callback_steps a)
   = ([], Raised (AssertionError "Height and width must be equal"))) /\
  (working_height E a = working_width E a ->
   (working_height E a mod 8 <> 0)%Z ->
   check_inputs (working_height E a) (working_width E a) (callback_steps a)
   = ([], Raised (ValueError "`height` and `width` must be divisible by 8"))) /\
  (working_height E a = working_width E a ->
   (working_height E a mod 8 = 0)%Z ->
   check_inputs (working_height E a) (working_width E a) (callback_steps a)
   = ([], Raised (ValueError "`callback_steps` must be a positive integer"))).
Proof.
  intros Hinvalid.
  destruct (check_inputs_invalid Hinvalid) as [e He].
  assert (Hgather : exists e', result (gather E a) = Raised e').
  { destruct (ffmpeg_installed E) eqn:Hff;
      [| rewrite gather_no_ffmpeg by assumption; eexists; reflexivity].
    destruct (read_video E) as [| f fs] eqn:Hvideo;
      [rewrite gather_no_frames by assumption; eexists; reflexivity |].
    rewrite gather_checked by congruence. rewrite He. eexists; reflexivity. }
  destruct Hgather as [e' Hgather].
  assert (Hcall : call E a = (trace (gather E a), Raised e'))
    by (rewrite call_spec, Hgather; reflexivity).
  split; [exists e'; now rewrite Hcall |].
  split; [rewrite Hcall; apply gather_stage |].
  split; [| split; [| split]].
  - intros Hff Hvideo. exists e. split; [exact He |].
    rewrite call_spec, gather_checked by assumption. rewrite He. reflexivity.
  - apply check_inputs_unequal.
  - intros <-. apply check_inputs_indivisible.
  - intros Heq Hmod. rewrite <- Heq. apply check_inputs_callback_steps; [exact Hmod |].
    intros Hcb. apply Hinvalid. unfold valid_inputs. rewrite <- Heq. auto.
Qed.

Lemma invalid_configuration_raises_before_inference_witness :
  let E := demo_env 5 100 true 1 in
  let a := set_size (demo_args 2 25 (3 # 2) "none") (Some 250%Z) (Some 250%Z) in
  ~ valid_inputs (working_height E a) (working_width E a) (callback_steps a) /\
  (exists e, result (call E a) = Raised e) /\
  Forall (fun ev => stage_of ev = Gathering) (trace (call E a)).
Proof.
  cbv zeta.
  assert (H : ~ valid_inputs
                (working_height (demo_env 5 100 true 1)
                   (set_size (demo_args 2 25 (3 # 2) "none") (Some 250%Z) (Some 250%Z)))
                (working_width (demo_env 5 100 true 1)
                   (set_size (demo_args 2 25 (3 # 2) "none") (Some 250%Z) (Some 250%Z)))
                (callback_steps
                   (set_size (demo_args 2 25 (3 # 2) "none") (Some 250%Z) (Some 250%Z)))).
  { intros (_ & H & _). vm_compute in H. discriminate. }
  split; [exact H |].
  destruct (invalid_configuration_raises_before_inference
              (demo_env 5 100 true 1)
              (set_size (demo_args 2 25 (3 # 2) "none") (Some 250%Z) (Some 250%Z)) H)
    as (Hraised & Hstage & _).
  split; assumption.
Defined.

(** ** C9: the temporary directory *)



(** ** C10: the frame rate of the written video *)

(** With an audio-conditioned model [video_fps] also reaches the chunking
    of the audio features. *)
Lemma video_fps_reaches_the_audio_features :
  let E := demo_env 5 100 true 1 in
  let a := demo_args 2 25 (3 # 2) "none" in
  In (EvFeature2Chunks 30) (trace (call E (set_video_fps a 30))) /\
  ~ fps_only_cuts_the_audio E a 30.
Proof.
  cbv zeta. split.
  - vm_compute. do 11 right. now left.
  - intros H. vm_compute in H. discriminate.
Qed.

Lemma infer_chunks_video_fps (E : Env) (a : Args) (fps : Z) s chunks g :
  infer_chunks E (set_video_fps a fps) s chunks g = infer_chunks E a s chunks g.
Proof.
  revert g; induction chunks as [| i chunks IH]; intros g; [reflexivity |].
  cbn [infer_chunks].
  change (infer_chunk E (set_video_fps a fps) s i g) with (infer_chunk E a s i g).
  destruct (infer_chunk E a s i g) as [decoded g']. now rewrite IH.
Qed.

Lemma infer_video_fps (E : Env) (a : Args) (fps : Z) faces height width :
  add_audio_layer E = false ->
  infer E (set_video_fps a fps) faces height width = infer E a faces height width.
Proof.
  intros H. unfold infer, num_inferences. rewrite H.
  cbn [num_inference_steps num_frames set_video_fps eta generator guidance_scale].
  destruct (floordiv (length faces) (num_frames a)) as [tr [ni | e]]; [| reflexivity].
  cbn [bind ret tell app].
  destruct (prepare_latents E 1 (num_frames a * ni) (latent_channels E) height width
              (generator a)) as [tr' [[all_latents g] | e]]; [| reflexivity].
  cbn [bind ret tell tell_all app]. now rewrite infer_chunks_video_fps.
Qed.

Lemma map_with_fps_other (fps : Z) (st : stage) (tr : list event) :
  st <> Inferring ->
  Forall (fun e => stage_of e = st) tr ->
  map (with_fps fps) tr = tr.
Proof.
  intros Hst. induction 1 as [| e tr He _ IH]; [reflexivity |].
  cbn [map]. rewrite IH. f_equal.
  destruct e; try reflexivity. cbn in He. congruence.
Qed.

Lemma infer_negative_eq (E : Env) (a : Args) faces height width :
  num_frames a <> 0 ->
  (height / vae_scale_factor E < 0)%Z \/ (width / vae_scale_factor E < 0)%Z ->
  infer E a faces height width =
  (EvSetTimesteps (num_inference_steps a) :: audio_events E a,
   Raised (RuntimeError "Trying to create tensor with negative dimension")).
Proof.
  intros HN Hneg. unfold infer. rewrite num_inferences_spec.
  destruct (Nat.eqb_spec (num_frames a) 0) as [| _]; [contradiction |].
  cbn [bind tell ret app]. unfold prepare_latents.
  replace ((height / vae_scale_factor E <? 0)%Z || (width / vae_scale_factor E <? 0)%Z)
    with true.
  - cbn. now rewrite app_nil_r.
  - symmetry. apply orb_true_iff. destruct Hneg; [left | right]; now apply Z.ltb_lt.
Qed.

(** The inference of a run at another [video_fps] that gets the same
    feature chunks: the same outcome, and the same effects but for the
    frame rate handed to [feature2chunks]. *)
Lemma infer_with_fps (E : Env) (a : Args) (fps : Z) faces height width :
  (add_audio_layer E = true -> feature2chunks E fps = feature2chunks E (video_fps a)) ->
  infer E (set_video_fps a fps) faces height width
  = (map (with_fps fps) (trace (infer E a faces height width)),
     result (infer E a faces height width)).
Proof.
  intros Hsame.
  assert (Hchunks : whisper_chunks_of E (set_video_fps a fps) = whisper_chunks_of E a).
  { unfold whisper_chunks_of. cbn [video_fps set_video_fps].
    destruct (add_audio_layer E); [now apply Hsame | reflexivity]. }
  assert (Hlen : usable_length E (set_video_fps a fps) faces = usable_length E a faces).
  { unfold usable_length. cbn [video_fps set_video_fps].
    destruct (add_audio_layer E); [now rewrite Hsame | reflexivity]. }
  assert (Haudio : map (with_fps fps) (audio_events E a)
                   = audio_events E (set_video_fps a fps)).
  { unfold audio_events. now destruct (add_audio_layer E). }
  destruct (Nat.eq_dec (num_frames a) 0) as [HN | HN].
  { rewrite (@infer_zero_frames E (set_video_fps a fps)) by exact HN.
    rewrite (@infer_zero_frames E a) by exact HN.
    cbn [trace result fst snd map with_fps]. now rewrite Haudio. }
  assert (Hcases : (height / vae_scale_factor E < 0)%Z \/ (width / vae_scale_factor E < 0)%Z
                   \/ (0 <= height / vae_scale_factor E)%Z
                      /\ (0 <= width / vae_scale_factor E)%Z) by lia.
  assert (Hneg : (height / vae_scale_factor E < 0)%Z \/ (width / vae_scale_factor E < 0)%Z ->
            infer E (set_video_fps a fps) faces height width
            = (map (with_fps fps) (trace (infer E a faces height width)),
               result (infer E a faces height width))).
  { intros H.
    rewrite (@infer_negative_eq E (set_video_fps a fps)) by assumption.
    rewrite (@infer_negative_eq E a) by assumption.
    cbn [trace result fst snd map with_fps]. now rewrite Haudio. }
  destruct Hcases as [H | [H | [Hh Hw]]]; [apply Hneg; now left | apply Hneg; now right |].
  rewrite (@infer_eq E (set_video_fps a fps)), (@infer_eq E a) by assumption.
  cbn [trace result fst snd].
  assert (Hstate : start_state E (set_video_fps a fps) faces height width
                   = start_state E a faces height width).
  { unfold start_state. rewrite Hchunks, Hlen. reflexivity. }
  rewrite Hstate, Hlen.
  change (num_frames (set_video_fps a fps)) with (num_frames a).
  change (generator_after_noise E (set_video_fps a fps) height width)
    with (generator_after_noise E a height width).
  rewrite infer_chunks_video_fps.
  unfold inferred. rewrite Hlen.
  change (num_frames (set_video_fps a fps)) with (num_frames a).
  change (num_inference_steps (set_video_fps a fps)) with (num_inference_steps a).
  cbn [map with_fps]. rewrite !map_app, Haudio. cbn [map with_fps].
  rewrite map_map. reflexivity.
Qed.

Lemma call_video_fps_itself (E : Env) (a : Args) :
  call E (set_video_fps a (video_fps a)) = call E a.
Proof.
  unfold call.
  change (gather E (set_video_fps a (video_fps a))) with (gather E a).
  destruct (gather E a)
    as [tr [[[[[[[faces frames] boxes] mats] audio] h] w] | e]]; [| reflexivity].
  cbn [bind].
  assert (Hinfer : infer E (set_video_fps a (video_fps a)) faces h w = infer E a faces h w).
  { unfold infer.
    change (num_inferences E (set_video_fps a (video_fps a)) faces)
      with (num_inferences E a faces).
    cbn [num_inference_steps num_frames set_video_fps eta generator guidance_scale].
    destruct (num_inferences E a faces) as [tr1 [[whisper_chunks ni] | e]]; [| reflexivity].
    cbn [bind ret tell app].
    destruct (prepare_latents E 1 (num_frames a * ni) (latent_channels E) h w
                (generator a)) as [tr2 [[all_latents g] | e]]; [| reflexivity].
    cbn [bind ret tell tell_all app]. now rewrite infer_chunks_video_fps. }
  rewrite Hinfer.
  destruct (infer E a faces h w) as [tr' [synced | e]]; reflexivity.
Qed.

(** C10, as the code uses [video_fps]. The silent video is written at 25
    frames per second whatever [video_fps] is, so for [video_fps <> 25] the
    rate of the written video is not the requested one. [video_fps] is
    stored in [self.video_fps], which the pipeline does not read again, and
    is used by the length at which the audio is cut and, when the model is
    audio-conditioned, by the chunking of the audio features, and by
    nothing else the run does: there are a course of the run up to the cut
    and an outcome of the restoration such that, at every [video_fps] that
    gives the same feature chunks (any, for a model that is not
    audio-conditioned), the run does just that, but for the frame rate it
    hands to [feature2chunks], and then cuts the audio at the length
    computed from that [video_fps]. In particular two returning runs that
    differ in [video_fps] alone produce the same frames. *)
Theorem silent_video_is_written_at_25_fps (E : Env) (a : Args) :
  (forall path frames fps,
     In (EvWriteVideo path frames fps) (trace (call E a)) ->
     path = "temp/video.mp4"%string /\ fps = 25%Z /\
     (video_fps a <> 25%Z -> fps <> video_fps a)) /\
  (forall frames audio,
     result (call E a) = Returned (frames, audio) ->
     In (EvWriteVideo "temp/video.mp4" (length frames) 25) (trace (call E a)) /\
     (exists n,
        remain_length (length frames) (video_fps a) (audio_sample_rate a) = ([], Returned n) /\
        audio = slice_to n (read_audio E)) /\
     (add_audio_layer E = true -> In (EvFeature2Chunks (video_fps a)) (trace (call E a)))) /\
  (exists (before : list event) (restored : outcome (list (Frame E))),
     Forall (fun e => stage_of e <> Writing) before /\
     forall fps,
       (add_audio_layer E = true -> feature2chunks E fps = feature2chunks E (video_fps a)) ->
       call E (set_video_fps a fps) =
       match restored with
       | Raised e => (map (with_fps fps) before, Raised e)
       | Returned frames =>
           match result (remain_length (length frames) fps (audio_sample_rate a)) with
           | Raised e => (map (with_fps fps) before, Raised e)
           | Returned n =>
               (map (with_fps fps) before
                ++ written E a (length frames) (length (slice_to n (read_audio E))),
                Returned (frames, slice_to n (read_audio E)))
           end
       end) /\
  call E (set_video_fps a (video_fps a)) = call E a /\
  (forall fps frames audio frames' audio',
     (add_audio_layer E = true -> feature2chunks E fps = feature2chunks E (video_fps a)) ->
     result (call E a) = Returned (frames, audio) ->
     result (call E (set_video_fps a fps)) = Returned (frames', audio') ->
     frames' = frames /\
     exists before,
       trace (call E a) = before ++ written E a (length frames) (length audio) /\
       trace (call E (set_video_fps a fps))
       = map (with_fps fps) before ++ written E a (length frames) (length audio')).
Proof.
  assert (Hcourse :
    exists (before : list event) (restored : outcome (list (Frame E))),
      Forall (fun e => stage_of e <> Writing) before /\
      forall fps,
        (add_audio_layer E = true -> feature2chunks E fps = feature2chunks E (video_fps a)) ->
        call E (set_video_fps a fps) =
        match restored with
        | Raised e => (map (with_fps fps) before, Raised e)
        | Returned frames =>
            match result (remain_length (length frames) fps (audio_sample_rate a)) with
            | Raised e => (map (with_fps fps) before, Raised e)
            | Returned n =>
                (map (with_fps fps) before
                 ++ written E a (length frames) (length (slice_to n (read_audio E))),
                 Returned (frames, slice_to n (read_audio E)))
            end
        end).
  { pose proof (gather_stage E a) as Hg.
    assert (Hgfps : forall fps, map (with_fps fps) (trace (gather E a)) = trace (gather E a))
      by (intros fps; apply (@map_with_fps_other fps Gathering); [discriminate | exact Hg]).
    destruct (result (gather E a))
      as [[[[[[[faces video] boxes] mats] samples] h] w] | e] eqn:Hgather.
    2:{ exists (trace (gather E a)), (Raised e).
        split; [eapply stage_not_writing; [| exact Hg]; discriminate |].
        intros fps _. rewrite call_spec.
        change (gather E (set_video_fps a fps)) with (gather E a).
        now rewrite Hgather, Hgfps. }
    assert (Hsamples : samples = read_audio E).
    { destruct (ffmpeg_installed E) eqn:Hff;
        [| rewrite gather_no_ffmpeg in Hgather by assumption; discriminate].
      destruct (read_video E) as [| f fs] eqn:Hvideo;
        [rewrite gather_no_frames in Hgather by assumption; discriminate |].
      rewrite gather_checked in Hgather by congruence. cbn [result snd] in Hgather.
      destruct (result (check_inputs _ _ _)); [| discriminate].
      now injection Hgather as _ _ _ _ <- _ _. }
    subst samples.
    pose proof (infer_stage E a faces h w) as Hi.
    destruct (result (infer E a faces h w)) as [synced | e] eqn:Hinfer.
    2:{ exists (trace (gather E a) ++ trace (infer E a faces h w)), (Raised e).
        split.
        - apply Forall_app. split;
            (eapply stage_not_writing; [| eassumption]; discriminate).
        - intros fps Hsame. rewrite call_spec.
          change (gather E (set_video_fps a fps)) with (gather E a).
          rewrite Hgather, (infer_with_fps E a fps faces h w Hsame), Hinfer.
          cbn [trace result fst snd]. now rewrite map_app, Hgfps. }
    pose proof (restore_video_stage E (superres a) synced video boxes mats) as Hr.
    assert (Hrfps : forall fps,
              map (with_fps fps) (trace (restore_video E (superres a) synced video boxes mats))
              = trace (restore_video E (superres a) synced video boxes mats))
      by (intros fps; apply (@map_with_fps_other fps Restoring); [discriminate | exact Hr]).
    exists (trace (gather E a) ++ trace (infer E a faces h w)
            ++ trace (restore_video E (superres a) synced video boxes mats)),
           (result (restore_video E (superres a) synced video boxes mats)).
    split.
    - repeat (apply Forall_app; split);
        (eapply stage_not_writing; [| eassumption]; discriminate).
    - intros fps Hsame. rewrite call_spec.
      change (gather E (set_video_fps a fps)) with (gather E a).
      rewrite Hgather, (infer_with_fps E a fps faces h w Hsame), Hinfer.
      cbn [trace result fst snd].
      rewrite (finish_spec E (set_video_fps a fps)). cbv zeta.
      change (superres (set_video_fps a fps)) with (superres a).
      change (audio_sample_rate (set_video_fps a fps)) with (audio_sample_rate a).
      change (video_fps (set_video_fps a fps)) with fps.
      rewrite !map_app, Hgfps, Hrfps.
      destruct (result (restore_video E (superres a) synced video boxes mats))
        as [outs | e]; [| cbn [trace result fst snd]; now rewrite <- ?app_assoc].
      destruct (result (remain_length (length outs) fps (audio_sample_rate a)))
        as [n | e]; cbn [trace result fst snd]; rewrite <- ?app_assoc; reflexivity. }
  split; [| split; [| split; [exact Hcourse | split; [apply call_video_fps_itself |]]]].
  - intros path frames fps Hin.
    destruct (call_not_writing E a)
      as (before & Hbefore & [[e Hcall] | (frames' & audio & Hcall)]);
      rewrite Hcall in Hin; cbn [trace fst] in Hin.
    + rewrite Forall_forall in Hbefore. apply Hbefore in Hin. now cbn in Hin.
    + apply in_app_or in Hin as [Hin | Hin];
        [rewrite Forall_forall in Hbefore; apply Hbefore in Hin; now cbn in Hin |].
      unfold written in Hin. destruct Hin as [Hin | Hin]; [discriminate |].
      apply in_app_or in Hin as [Hin | Hin];
        [destruct (temp_exists E); [destruct Hin as [Hin | []]; discriminate | destruct Hin] |].
      destruct Hin as [Hin | [Hin | [Hin | [Hin | []]]]]; try discriminate.
      inversion Hin; subst. repeat split. congruence.
  - intros frames audio Hret.
    destruct (call_returned E a Hret)
      as (restored & n & Htr & _ & _ & _ & _ & _ & _ & _ & _ & Hn & Haudio).
    split; [| split].
    + rewrite Htr. do 3 (apply in_or_app; right). unfold written.
      right. apply in_or_app; right. right. now left.
    + now exists n.
    + intros Haudio_layer. rewrite Htr. apply in_or_app; right. apply in_or_app; left.
      unfold inferred, audio_events. rewrite Haudio_layer. right. right. now left.
  - intros fps frames audio frames' audio' Hsame Hret Hret'.
    destruct Hcourse as (before & restored & _ & Hcall).
    pose proof (Hcall fps Hsame) as Hfps.
    pose proof (Hcall (video_fps a) (fun _ => eq_refl)) as Hown.
    rewrite call_video_fps_itself in Hown.
    rewrite Hfps in Hret' |- *. rewrite Hown in Hret |- *.
    destruct restored as [outs | e]; [| discriminate].
    destruct (result (remain_length (length outs) fps (audio_sample_rate a)))
      as [n' | e]; [| discriminate].
    destruct (result (remain_length (length outs) (video_fps a) (audio_sample_rate a)))
      as [n | e]; [| discriminate].
    cbn [trace result fst snd] in *.
    injection Hret as <- <-. injection Hret' as <- <-.
    split; [reflexivity |].
    exists (map (with_fps (video_fps a)) before).
    split; [reflexivity |].
    f_equal. rewrite map_map. apply map_ext. intros e. now destruct e.
Qed.

(** ** C4: the super-resolution hook *)

Lemma superres_condition_iff (superres : string) (face : block) (c face_h face_w : nat)
    (height width : Z) :
  shape face = (c, face_h, face_w) ->
  superres_condition superres face height width = true <->
  superres <> "none"%string /\ (Z.of_nat face_h < height \/ Z.of_nat face_w < width)%Z.
Proof.
  intros Hshape. unfold superres_condition. rewrite Hshape.
  rewrite andb_true_iff, negb_true_iff, orb_true_iff, !Z.ltb_lt, String.eqb_neq.
  reflexivity.
Qed.


(** A mode that names no variant enters the branch and calls nothing. *)
Remark superresolve_other_mode (E : Env) (superres : string) (face : block)
    (c face_h face_w : nat) (height width : Z) :
  shape face = (c, face_h, face_w) ->
  0 < face_h -> 0 < face_w ->
  superres <> "GFPGAN"%string -> superres <> "CodeFormer"%string ->
  superresolve E superres face height width = ([], Returned face).
Proof.
  intros Hshape Hh Hw Hg Hc. unfold superresolve. rewrite Hshape.
  destruct (_ && _); [| reflexivity].
  rewrite !truediv_nonzero by lia. cbn [bind].
  apply String.eqb_neq in Hg, Hc. now rewrite Hg, Hc.
Qed.



(** ** C5: the local composite *)




(** ** C6 and C8: guidance *)



Lemma unet_pair (E : Env) (s0 s1 : unet_sample) (t : Timestep) (e0 e1 : list embed) :
  length e0 = length e1 ->
  unet E [s0; s1] t (Some (e0 ++ e1))
  = [denoiser E s0 t (Some e0); denoiser E s1 t (Some e1)].
Proof.
  intros Hlen. unfold unet. cbn [length seq combine map option_map].
  assert (Hn : length (e0 ++ e1) / 2 = length e0).
  { rewrite length_app, <- Hlen.
    replace (length e0 + length e0) with (length e0 * 2) by lia.
    apply Nat.div_mul. discriminate. }
  rewrite Hn. unfold slice. cbn [Nat.mul Nat.add skipn].
  rewrite !Nat.add_0_r, Nat.sub_0_r.
  replace (length e0 + length e0 - length e0) with (length e1) by lia.
  rewrite firstn_app, firstn_all, Nat.sub_diag. cbn [firstn]. rewrite app_nil_r.
  rewrite skipn_app, skipn_all, Nat.sub_diag. cbn [skipn app].
  now rewrite firstn_all.
Qed.

Lemma zeros_like_shape (e : list embed) : embed_shape (zeros_like e) = embed_shape e.
Proof.
  unfold embed_shape, zeros_like. rewrite map_map. apply map_ext. intros chunk.
  rewrite map_map. apply map_ext. intros row. apply length_map.
Qed.

Lemma zeros_like_zero (e : list embed) :
  Forall (Forall (Forall (fun v => v = 0%Q))) (zeros_like e).
Proof.
  unfold zeros_like.
  apply Forall_map, Forall_forall. intros chunk _.
  apply Forall_map, Forall_forall. intros row _.
  apply Forall_map, Forall_forall. reflexivity.
Qed.


Lemma denoise_step_eq (E : Env) cfg gs (kw : option Q * bool) audio m mi il latents g t :
  denoise_step E cfg gs kw audio m mi il (latents, g) t =
  let stepped :=
    scheduler_step E (predict_noise E cfg gs audio m mi il latents t) t latents
      (fst kw) (if snd kw then Some g else None) in
  (fst stepped, if snd kw then snd stepped else g).
Proof.
  unfold denoise_step. destruct kw as [kw_eta kw_generator]. cbn [fst snd].
  now destruct (scheduler_step E _ _ _ _ _).
Qed.


Lemma predict_noise_guided (E : Env) gs (null real : list embed) (m mi il x : tensor4) t :
  length null = length real ->
  let sample :=
    {| in_latents := scale_model_input E x t; in_mask := m;
       in_masked_image := mi; in_image := il |} in
  predict_noise E true gs (Some (null ++ real)) [m; m] [mi; mi] [il; il] [x] t
  = guide gs [denoiser E sample t (Some null)] [denoiser E sample t (Some real)].
Proof.
  intros Hlen sample. unfold predict_noise. cbn [app map cat_channels]. fold sample.
  rewrite unet_pair by exact Hlen. reflexivity.
Qed.

(** The conditioning latents of a chunk: one batch sample each, two equal
    ones under guidance. *)
Lemma chunk_conditioning_eq (E : Env) (a : Args) (s : loop_state) (i : nat) (g : Generator) :
  exists m mi il,
    chunk_mask_latents E a s i g
    = (if ls_do_classifier_free_guidance s then [m; m] else [m]) /\
    chunk_masked_image_latents E a s i g
    = (if ls_do_classifier_free_guidance s then [mi; mi] else [mi]) /\
    chunk_image_latents E a s i g
    = (if ls_do_classifier_free_guidance s then [il; il] else [il]) /\
    m = interpolate E (chunk_masks E a s i)
          ((ls_height s / vae_scale_factor E)%Z, (ls_width s / vae_scale_factor E)%Z).
Proof.
  unfold chunk_mask_latents, chunk_masked_image_latents, chunk_image_latents,
    prepare_mask_latents, prepare_image_latents.
  destruct (vae_encode_sample E (chunk_masked_pixel_values E a s i) g) as [mil g1].
  destruct (ls_do_classifier_free_guidance s); cbn [fst snd app];
    destruct (vae_encode_sample E (chunk_pixel_values E a s i) g1) as [il g2];
    cbn [fst snd app]; now eexists _, _, _.
Qed.

(** The latents of a chunk keep their single batch sample through the
    loop over the timesteps. *)
Lemma chunk_latents_single (E : Env) (a : Args) (s : loop_state) (i : nat) (g : Generator)
    (ts : list Timestep) (x : tensor4) (g' : Generator) :
  exists x', fst (fold_left (chunk_step E a s i g) ts ([x], g')) = [x'].
Proof.
  pose proof (fold_denoise_layout E (ls_do_classifier_free_guidance s) (guidance_scale a)
                (ls_extra_step_kwargs s) (chunk_embeds E a s i)
                (chunk_mask_latents E a s i g) (chunk_masked_image_latents E a s i g)
                (chunk_image_latents E a s i g) ts ([x], g')) as H.
  fold (chunk_step E a s i g) in H. cbn [fst] in H. unfold layout in H.
  destruct (fst (fold_left (chunk_step E a s i g) ts ([x], g'))) as [| x' [| y rest]];
    [discriminate | now exists x' | discriminate].
Qed.



(** C8. Under guidance with audio conditioning, the embeddings chunk [i]
    of a run passes to the denoiser are the zero tensor of the shape of the
    chunk's own [N] feature chunks, followed by those feature chunks; the
    latents and the conditioning latents are doubled in the same order, so
    at every step of the chunk's loop over the timesteps the first sample
    is denoised with the zero embeddings and the second with the real
    ones, the recombination takes the first prediction as the
    unconditional one and the second as the conditional one, and its result
    is what [scheduler.step] receives with the current latents; the chunk
    outputs the composite of what that loop ends with. *)
Theorem null_audio_branch_is_zero (E : Env) (a : Args) (faces : tensor4) (h w : Z)
    (i : nat) (g : Generator) :
  add_audio_layer E = true ->
  gt (guidance_scale a) 1 = true ->
  let s := start_state E a faces h w in
  let N := num_frames a in
  let gs := guidance_scale a in
  let real := window i N (feature2chunks E (video_fps a)) in
  let null := zeros_like real in
  chunk_embeds E a s i = Some (null ++ real) /\
  embed_shape null = embed_shape real /\
  length null = length real /\
  Forall (Forall (Forall (fun v => v = 0%Q))) null /\
  (exists m mi il,
     chunk_mask_latents E a s i g = [m; m] /\
     chunk_masked_image_latents E a s i g = [mi; mi] /\
     chunk_image_latents E a s i g = [il; il] /\
     forall x g' t,
       let sample :=
         {| in_latents := scale_model_input E x t; in_mask := m;
            in_masked_image := mi; in_image := il |} in
       let uncond := denoiser E sample t (Some null) in
       let cond := denoiser E sample t (Some real) in
       let stepped :=
         scheduler_step E (guide gs [uncond] [cond]) t [x]
           (if accepts_eta E then Some (eta a) else None)
           (if accepts_generator E then Some g' else None) in
       unet E [sample; sample] t (Some (null ++ real)) = [uncond; cond] /\
       predict_noise E true gs (Some (null ++ real)) [m; m] [mi; mi] [il; il] [x] t
       = guide gs [uncond] [cond] /\
       chunk_step E a s i g ([x], g') t
       = (fst stepped, if accepts_generator E then snd stepped else g')) /\
  (i < usable_length E a faces / N -> exists x0, chunk_noise a s i = [x0]) /\
  (forall ts x g', exists x', fst (fold_left (chunk_step E a s i g) ts ([x], g')) = [x']) /\
  (let denoised :=
     fold_left (chunk_step E a s i g) (set_timesteps E (num_inference_steps a))
       (chunk_noise a s i, chunk_generator E a s i g) in
   infer_chunk E a s i g
   = (local_composite (decode_latents E (fst denoised))
        (chunk_pixel_values E a s i) (chunk_masks E a s i),
      snd denoised)) /\
  (forall (kw : option Q * bool) m mi il x g' t,
     let sample :=
       {| in_latents := scale_model_input E x t; in_mask := m;
          in_masked_image := mi; in_image := il |} in
     let stepped :=
       scheduler_step E
         (guide gs [denoiser E sample t (Some null)] [denoiser E sample t (Some real)])
         t [x] (fst kw) (if snd kw then Some g' else None) in
     denoise_step E true gs kw (Some (null ++ real)) [m; m] [mi; mi] [il; il] ([x], g') t
     = (fst stepped, if snd kw then snd stepped else g')) /\
  (forall frames audio,
     result (call E a) = Returned (frames, audio) ->
     result (infer E a (all_faces E) (working_height E a) (working_width E a))
     = Returned (concat (map (chunk_output E a) (seq 0 (run_windows E a)))) /\
     forall k, chunk_output E a k = fst (infer_chunk E a (run_state E a) k (run_generator E a k))) /\
  forall u c : block,
    guide gs [[u]] [[c]]
    = [[bmap2 Qplus u (bmap (Qmult gs) (bmap2 Qminus c u))]].
Proof.
  intros Hlayer Hcfg s N gs real null.
  assert (Hlen : length null = length real) by (unfold null, zeros_like; apply length_map).
  assert (Hemb : chunk_embeds E a s i = Some (null ++ real)).
  { unfold chunk_embeds, chunk_audio_embeds.
    cbn [ls_do_classifier_free_guidance ls_whisper_chunks s start_state].
    unfold whisper_chunks_of. rewrite Hlayer, Hcfg. reflexivity. }
  split; [exact Hemb |].
  split; [apply zeros_like_shape |].
  split; [exact Hlen |].
  split; [apply zeros_like_zero |].
  split; [| split; [| split; [| split; [| split; [| split]]]]].
  - destruct (chunk_conditioning_eq E a s i g) as (m & mi & il & Hm & Hmi & Hil & _).
    cbn [ls_do_classifier_free_guidance s start_state] in Hm, Hmi, Hil.
    rewrite Hcfg in Hm, Hmi, Hil.
    exists m, mi, il. split; [exact Hm |]. split; [exact Hmi |]. split; [exact Hil |].
    intros x g' t sample uncond cond stepped.
    split; [now apply unet_pair |].
    split; [now apply predict_noise_guided |].
    unfold chunk_step. rewrite Hm, Hmi, Hil, Hemb, denoise_step_eq.
    cbn [ls_do_classifier_free_guidance ls_extra_step_kwargs s start_state].
    rewrite Hcfg, predict_noise_guided by exact Hlen.
    unfold prepare_extra_step_kwargs. cbn [fst snd]. reflexivity.
  - intros Hi. unfold chunk_noise. cbn [ls_all_latents s start_state map]. now eexists.
  - intros ts x g'. apply chunk_latents_single.
  - intros denoised. apply infer_chunk_eq.
  - intros kw m mi il x g' t sample stepped.
    rewrite denoise_step_eq. cbv zeta. rewrite predict_noise_guided by exact Hlen.
    reflexivity.
  - intros frames audio Hret.
    split; [now destruct (call_returned_chunks E a Hret) as (Hinfer & _) | reflexivity].
  - reflexivity.
Qed.

Lemma null_audio_branch_is_zero_witness :
  let E := demo_env 5 100 true 1 in
  let a := demo_args 2 25 (3 # 2) "none" in
  let s := start_state E a (all_faces E) 16 16 in
  (add_audio_layer E = true /\ gt (guidance_scale a) 1 = true) /\
  chunk_embeds E a s 1
  = Some ([[[0; 0]; [0; 0]]; [[0; 0]; [0; 0]]] ++ [[[1; 2]; [3; 4]]; [[1; 2]; [3; 4]]])%Q /\
  exists m mi il, chunk_mask_latents E a s 1 (generator a) = [m; m] /\
                  chunk_masked_image_latents E a s 1 (generator a) = [mi; mi] /\
                  chunk_image_latents E a s 1 (generator a) = [il; il].
Proof.
  cbv zeta. split; [split; reflexivity |].
  destruct (@null_audio_branch_is_zero (demo_env 5 100 true 1)
              (demo_args 2 25 (3 # 2) "none") (all_faces (demo_env 5 100 true 1))
              16%Z 16%Z 1 (generator (demo_args 2 25 (3 # 2) "none")) eq_refl eq_refl)
    as (Hemb & _ & _ & _ & (m & mi & il & Hm & Hmi & Hil & _) & _).
  split; [rewrite Hemb; vm_compute; reflexivity |].
  now exists m, mi, il.
Defined.

(** * Further properties of the code *)

(** ** Errors of a run, in the order the code meets them *)



(** X2. A video without frames is refused by [torch.stack] in
    [affine_transform_video]: the run raises its error before it reads the
    audio and before it validates the configuration, so an invalid
    configuration goes unreported. *)
Theorem empty_video_is_refused_before_the_configuration (E : Env) (a : Args) :
  ffmpeg_installed E = true ->
  read_video E = [] ->
  exists msg, call E a = ([EvCheckFfmpeg; EvReadVideo], Raised (RuntimeError msg)).
Proof.
  intros Hff Hvideo. rewrite call_spec, gather_no_frames by assumption. now eexists.
Qed.

Lemma empty_video_is_refused_before_the_configuration_witness :
  let E := demo_env 0 100 true 1 in
  let a := set_size (demo_args 2 25 (3 # 2) "none") (Some 250%Z) (Some 7%Z) in
  (ffmpeg_installed E = true /\ read_video E = []) /\
  ~ valid_inputs (working_height E a) (working_width E a) (callback_steps a) /\
  exists msg, call E a = ([EvCheckFfmpeg; EvReadVideo], Raised (RuntimeError msg)).
Proof.
  cbv zeta. split; [split; reflexivity |]. split.
  - intros [H _]. vm_compute in H. discriminate.
  - apply empty_video_is_refused_before_the_configuration; reflexivity.
Defined.

(** X3. With [num_frames = 0] and an otherwise valid call the floor
    division that counts the windows raises [ZeroDivisionError]: the faces
    of the whole video have been aligned, the audio read, the timesteps set
    and, for an audio-conditioned model, the audio features extracted; no
    noise is drawn and nothing is written. *)
Theorem zero_window_length_divides_by_zero (E : Env) (a : Args) :
  ffmpeg_installed E = true ->
  read_video E <> [] ->
  valid_inputs (working_height E a) (working_width E a) (callback_steps a) ->
  num_frames a = 0 ->
  call E a =
  (gathered E ++ EvSetTimesteps (num_inference_steps a) :: audio_events E a,
   Raised ZeroDivisionError).
Proof.
  intros Hff Hvideo Hvalid HN.
  rewrite call_checked by assumption. cbv zeta.
  rewrite infer_zero_frames by assumption. reflexivity.
Qed.

Lemma zero_window_length_divides_by_zero_witness :
  let E := demo_env 5 100 true 1 in
  let a := demo_args 0 25 (3 # 2) "none" in
  (ffmpeg_installed E = true /\ read_video E <> [] /\
   valid_inputs (working_height E a) (working_width E a) (callback_steps a) /\
   num_frames a = 0) /\
  result (call E a) = Raised ZeroDivisionError /\
  randn_shapes (trace (call E a)) = [].
Proof.
  cbv zeta.
  assert (Hvideo : read_video (demo_env 5 100 true 1) <> []) by discriminate.
  assert (Hvalid : valid_inputs
                     (working_height (demo_env 5 100 true 1) (demo_args 0 25 (3 # 2) "none"))
                     (working_width (demo_env 5 100 true 1) (demo_args 0 25 (3 # 2) "none"))
                     (callback_steps (demo_args 0 25 (3 # 2) "none")))
    by (repeat split; now exists 1%Z).
  split; [repeat split; try assumption; now exists 1%Z |].
  rewrite (@zero_window_length_divides_by_zero (demo_env 5 100 true 1)
             (demo_args 0 25 (3 # 2) "none") eq_refl Hvideo Hvalid eq_refl).
  split; reflexivity.
Defined.

(** X4. When fewer usable frames than one window are available, an
    otherwise valid run draws its noise (for an output of zero frames),
    denoises no chunk and raises when it concatenates the empty list of
    chunks: it restores no frame and writes nothing, not even an empty
    video. *)
Theorem short_video_raises_after_the_noise (E : Env) (a : Args) :
  ffmpeg_installed E = true ->
  read_video E <> [] ->
  valid_inputs (working_height E a) (working_width E a) (callback_steps a) ->
  (0 <= working_height E a)%Z ->
  usable_length E a (all_faces E) < num_frames a ->
  exists msg,
    call E a =
    (gathered E
     ++ EvSetTimesteps (num_inference_steps a) :: audio_events E a
     ++ [EvRandn (1, latent_channels E, 1, latent_size E (working_height E a),
                  latent_size E (working_width E a))],
     Raised (RuntimeError msg)) /\
    chunks_processed (trace (call E a)) = [].
Proof.
  intros Hff Hvideo Hvalid Hpos Hshort.
  assert (Hvsf : (0 < vae_scale_factor E)%Z)
    by (unfold vae_scale_factor; apply Z.pow_pos_nonneg; lia).
  assert (Hh : (0 <= working_height E a / vae_scale_factor E)%Z)
    by (apply Z.div_pos; assumption).
  assert (Hw : (0 <= working_width E a / vae_scale_factor E)%Z)
    by (destruct Hvalid as [<- _]; assumption).
  assert (HN : num_frames a <> 0) by lia.
  assert (Hni : usable_length E a (all_faces E) / num_frames a = 0)
    by (apply Nat.div_small; assumption).
  assert (Hcall : call E a =
    (gathered E ++ inferred E a (all_faces E) (working_height E a) (working_width E a),
     Raised (RuntimeError "torch.cat(): expected a non-empty list of Tensors"))).
  { rewrite call_checked by assumption. cbv zeta.
    rewrite infer_eq by assumption. cbn [result snd trace fst].
    rewrite Hni. reflexivity. }
  eexists. split.
  - rewrite Hcall. unfold inferred. rewrite Hni. cbn [seq map].
    now rewrite app_nil_r.
  - rewrite Hcall. cbn [trace fst].
    rewrite chunks_processed_app, chunks_processed_gathered, chunks_processed_inferred.
    now rewrite Hni.
Qed.

Lemma short_video_raises_after_the_noise_witness :
  let E := demo_env 5 100 true 1 in
  let a := demo_args 6 25 (3 # 2) "none" in
  (ffmpeg_installed E = true /\ read_video E <> [] /\
   valid_inputs (working_height E a) (working_width E a) (callback_steps a) /\
   (0 <= working_height E a)%Z /\
   usable_length E a (all_faces E) < num_frames a) /\
  exists msg,
    result (call E a) = Raised (RuntimeError msg) /\
    randn_shapes (trace (call E a)) = [(1, 1, 1, 2, 2)].
Proof.
  cbv zeta.
  assert (Hvideo : read_video (demo_env 5 100 true 1) <> []) by discriminate.
  assert (Hvalid : valid_inputs
                     (working_height (demo_env 5 100 true 1) (demo_args 6 25 (3 # 2) "none"))
                     (working_width (demo_env 5 100 true 1) (demo_args 6 25 (3 # 2) "none"))
                     (callback_steps (demo_args 6 25 (3 # 2) "none")))
    by (repeat split; now exists 1%Z).
  assert (Hpos : (0 <= working_height (demo_env 5 100 true 1)
                         (demo_args 6 25 (3 # 2) "none"))%Z)
    by (vm_compute; discriminate).
  assert (Hshort : usable_length (demo_env 5 100 true 1) (demo_args 6 25 (3 # 2) "none")
                     (all_faces (demo_env 5 100 true 1))
                   < num_frames (demo_args 6 25 (3 # 2) "none"))
    by (vm_compute; lia).
  split; [repeat split; try assumption; now exists 1%Z |].
  destruct (@short_video_raises_after_the_noise (demo_env 5 100 true 1)
              (demo_args 6 25 (3 # 2) "none") eq_refl Hvideo Hvalid Hpos Hshort)
    as (msg & Hcall & _).
  exists msg. rewrite Hcall. split; reflexivity.
Defined.

Lemma restore_faces_none (E : Env) (video_frames : list (Frame E)) (boxes : list box)
    (affine_matrices : list (Affine E)) (index : nat) (faces : tensor4) :
  index + length faces <= length boxes ->
  index + length faces <= length video_frames ->
  index + length faces <= length affine_matrices ->
  exists outs,
    restore_faces E "none" video_frames boxes affine_matrices index faces
    = (map EvRestoreImg (seq index (length faces)), Returned outs) /\
    length outs = length faces.
Proof.
  revert index.
  induction faces as [| face faces IH]; intros index Hb Hv Ha; cbn [restore_faces length];
    [now exists [] |].
  cbn [length] in Hb, Hv, Ha.
  destruct (IH (S index)) as (outs & Hrest & Hlen); try lia.
  rewrite Hrest. unfold restore_face, getitem.
  destruct (nth_error boxes index) as [[[[x1 y1] x2] y2] |] eqn:Hbox;
    [| apply nth_error_None in Hbox; lia].
  destruct (nth_error video_frames index) as [frame |] eqn:Hframe;
    [| apply nth_error_None in Hframe; lia].
  destruct (nth_error affine_matrices index) as [affine |] eqn:Haffine;
    [| apply nth_error_None in Haffine; lia].
  cbn [bind ret]. rewrite superresolve_skipped
    by (unfold superres_condition; now destruct (shape face) as [[c h] w]).
  cbn [bind ret tell app seq map]. rewrite app_nil_r.
  eexists. split; [reflexivity |]. cbn [length]. now rewrite Hlen.
Qed.

(** X5. [video_fps = 0] is found only when the audio is cut: no run with
    [video_fps = 0] returns or writes anything, and a run without
    super-resolution that is otherwise in order aligns the faces, denoises
    every window and restores every one of the output frames, one
    [restore_img] a frame, and only then raises [ZeroDivisionError], in the
    division by [video_fps] of the length at which the audio is cut. *)
Theorem zero_fps_is_found_after_the_inference (E : Env) (a : Args) :
  video_fps a = 0%Z ->
  (forall frames audio, result (call E a) <> Returned (frames, audio)) /\
  Forall (fun ev => stage_of ev <> Writing) (trace (call E a)) /\
  (superres a = "none"%string ->
   ffmpeg_installed E = true ->
   valid_inputs (working_height E a) (working_width E a) (callback_steps a) ->
   (0 <= working_height E a)%Z ->
   0 < num_frames a <= usable_length E a (all_faces E) ->
   exists synced outs,
     result (infer E a (all_faces E) (working_height E a) (working_width E a))
     = Returned synced /\
     length synced = num_frames a * (usable_length E a (all_faces E) / num_frames a) /\
     restore_video E (superres a) synced (read_video E)
       (map (fun r => snd (fst r)) (map (affine_transform E) (read_video E)))
       (map snd (map (affine_transform E) (read_video E)))
     = (map EvRestoreImg (seq 0 (length synced)), Returned outs) /\
     length outs = length synced /\
     remain_length (length outs) (video_fps a) (audio_sample_rate a)
     = ([], Raised ZeroDivisionError) /\
     call E a
     = (gathered E
        ++ inferred E a (all_faces E) (working_height E a) (working_width E a)
        ++ map EvRestoreImg (seq 0 (length outs)),
        Raised ZeroDivisionError) /\
     chunks_processed (trace (call E a))
     = seq 0 (usable_length E a (all_faces E) / num_frames a)).
Proof.
  intros Hfps.
  assert (Hnever : forall frames audio, result (call E a) <> Returned (frames, audio)).
  { intros frames audio Hret.
    destruct (call_returned E a Hret) as (_ & n & _ & _ & _ & _ & _ & _ & _ & _ & _ & Hn & _).
    apply remain_length_returned in Hn as [Hn _]. contradiction. }
  split; [exact Hnever |]. split.
  - destruct (call_not_writing E a)
      as (before & Hbefore & [[e Hcall] | (frames & audio & Hcall)]).
    + now rewrite Hcall.
    + exfalso. apply (Hnever frames audio). now rewrite Hcall.
  - intros Hnone Hff Hvalid Hpos [HN HL].
    assert (Hfaces : usable_length E a (all_faces E) <= length (read_video E)).
    { rewrite <- length_all_faces. unfold usable_length.
      destruct (add_audio_layer E); lia. }
    assert (Hvideo : read_video E <> [])
      by (destruct (read_video E); [cbn in *; lia | discriminate]).
    assert (Hvsf : (0 < vae_scale_factor E)%Z)
      by (unfold vae_scale_factor; apply Z.pow_pos_nonneg; lia).
    assert (Hh : (0 <= working_height E a / vae_scale_factor E)%Z)
      by (apply Z.div_pos; assumption).
    assert (Hw : (0 <= working_width E a / vae_scale_factor E)%Z)
      by (destruct Hvalid as [<- _]; assumption).
    assert (HN' : num_frames a <> 0) by lia.
    destruct (@infer_returns E a (all_faces E) _ _ HN' HL Hh Hw) as [synced Hsynced].
    pose proof (infer_returned _ _ _ _ _ Hsynced) as (_ & Hni & Hlen & Htr).
    pose proof (Nat.Div0.mul_div_le (usable_length E a (all_faces E)) (num_frames a)) as Hle.
    destruct (@restore_faces_none E (firstn (length synced) (read_video E))
                (map (fun r => snd (fst r)) (map (affine_transform E) (read_video E)))
                (map snd (map (affine_transform E) (read_video E))) 0 synced)
      as (outs & Houts & Hlen');
      rewrite ?length_map, ?length_firstn; try (cbn; lia).
    assert (Hrestore :
      restore_video E (superres a) synced (read_video E)
        (map (fun r => snd (fst r)) (map (affine_transform E) (read_video E)))
        (map snd (map (affine_transform E) (read_video E)))
      = (map EvRestoreImg (seq 0 (length synced)), Returned outs)).
    { unfold restore_video. rewrite Hnone, Houts. cbn [bind].
      destruct outs; [cbn in Hlen'; lia |]. cbn [np_stack ret]. now rewrite app_nil_r. }
    assert (Hcut : remain_length (length outs) (video_fps a) (audio_sample_rate a)
                   = ([], Raised ZeroDivisionError))
      by (unfold remain_length, truediv; rewrite Hfps; reflexivity).
    assert (Hcall :
      call E a
      = (gathered E
         ++ inferred E a (all_faces E) (working_height E a) (working_width E a)
         ++ map EvRestoreImg (seq 0 (length outs)),
         Raised ZeroDivisionError)).
    { rewrite call_checked by assumption. cbv zeta.
      rewrite Hsynced, Htr, finish_spec. cbv zeta.
      rewrite Hrestore. cbn [result snd trace fst]. rewrite Hcut.
      cbn [result snd]. now rewrite Hlen'. }
    exists synced, outs.
    repeat (split; [assumption |]).
    rewrite Hcall. cbn [trace fst].
    rewrite !chunks_processed_app, chunks_processed_gathered, chunks_processed_inferred.
    rewrite (@chunks_processed_other Restoring (map EvRestoreImg (seq 0 (length outs)))).
    + now rewrite app_nil_r.
    + discriminate.
    + apply Forall_forall. intros e He. apply in_map_iff in He as (k & <- & _). reflexivity.
Qed.

Lemma zero_fps_is_found_after_the_inference_witness :
  let E := demo_env 5 100 false 1 in
  let a := demo_args 2 0 (3 # 2) "none" in
  video_fps a = 0%Z /\
  call E a
  = (gathered E
     ++ inferred E a (all_faces E) (working_height E a) (working_width E a)
     ++ map EvRestoreImg (seq 0 4),
     Raised ZeroDivisionError) /\
  chunks_processed (trace (call E a)) = [0; 1].
Proof.
  cbv zeta. split; [reflexivity |].
  destruct (@zero_fps_is_found_after_the_inference (demo_env 5 100 false 1)
              (demo_args 2 0 (3 # 2) "none") eq_refl) as (_ & _ & Hrun).
  destruct Hrun as (synced & outs & _ & Hlen & _ & Hlen' & _ & Hcall & Hchunks).
  - reflexivity.
  - reflexivity.
  - repeat split. now exists 1%Z.
  - vm_compute. discriminate.
  - vm_compute. lia.
  - split; [| exact Hchunks].
    rewrite Hcall. rewrite Hlen', Hlen. reflexivity.
Defined.

(** ** Restoration, frame by frame *)

Lemma getitem_returned {A : Type} (xs : list A) (i : nat) (x : A) :
  result (getitem xs i) = Returned x -> nth_error xs i = Some x.
Proof. unfold getitem. destruct (nth_error xs i); cbn; congruence. Qed.

Lemma restore_face_returned (E : Env) superres video_frames (boxes : list box)
    affine_matrices index face out :
  result (restore_face E superres video_frames boxes affine_matrices index face)
  = Returned out ->
  exists frame b affine face',
    nth_error video_frames index = Some frame /\
    nth_error boxes index = Some b /\
    nth_error affine_matrices index = Some affine /\
    result (superresolve E superres face (box_height b) (box_width b)) = Returned face' /\
    out = restore_img E frame (restored_patch E face' b) affine.
Proof.
  unfold restore_face. intros H.
  apply result_bind_returned in H as ([[[x1 y1] x2] y2] & Hb & H).
  apply result_bind_returned in H as (face' & Hs & H).
  apply result_bind_returned in H as (frame & Hf & H).
  apply result_bind_returned in H as (affine & Ha & H).
  apply getitem_returned in Hb, Hf, Ha.
  exists frame, (x1, y1, x2, y2), affine, face'.
  repeat split; try assumption.
  cbn [tell ret bind result snd] in H. now injection H as <-.
Qed.

Lemma restore_faces_nth (E : Env) superres video_frames (boxes : list box)
    affine_matrices index faces outs k face :
  result (restore_faces E superres video_frames boxes affine_matrices index faces)
  = Returned outs ->
  nth_error faces k = Some face ->
  exists frame b affine face',
    nth_error video_frames (index + k) = Some frame /\
    nth_error boxes (index + k) = Some b /\
    nth_error affine_matrices (index + k) = Some affine /\
    result (superresolve E superres face (box_height b) (box_width b)) = Returned face' /\
    nth_error outs k = Some (restore_img E frame (restored_patch E face' b) affine).
Proof.
  revert index outs k.
  induction faces as [| f faces IH]; intros index outs k H Hk; [now destruct k |].
  cbn [restore_faces] in H.
  apply result_bind_returned in H as (out & Hout & H).
  apply result_bind_returned in H as (outs' & Hrest & H).
  cbn in H. injection H as <-.
  destruct k as [| k]; cbn [nth_error] in Hk |- *.
  - injection Hk as ->. rewrite Nat.add_0_r.
    apply restore_face_returned in Hout
      as (frame & b & affine & face' & Hf & Hb & Ha & Hs & ->).
    now exists frame, b, affine, face'.
  - rewrite Nat.add_succ_r. apply (IH (S index) outs' k Hrest Hk).
Qed.

(** X6. In a run that returns, output frame [k] is input frame [k] with a
    patch pasted back by [restore_img] under the affine matrix computed
    for that same frame; the patch is the [k]-th face the inference
    produced, passed through the super-resolution hook, resized to the box
    found in that frame and converted to bytes. No output frame is built
    on another frame's box or matrix, and there are never more output
    frames than input frames. *)
Theorem output_frame_is_built_on_its_own_input_frame (E : Env) (a : Args) frames audio k :
  result (call E a) = Returned (frames, audio) ->
  k < length frames ->
  length frames <= length (read_video E) /\
  exists synced frame face face',
    result (infer E a (all_faces E) (working_height E a) (working_width E a))
    = Returned synced /\
    nth_error (read_video E) k = Some frame /\
    nth_error synced k = Some face /\
    result (superresolve E (superres a) face
              (box_height (snd (fst (affine_transform E frame))))
              (box_width (snd (fst (affine_transform E frame))))) = Returned face' /\
    nth_error frames k
    = Some (restore_img E frame
              (restored_patch E face' (snd (fst (affine_transform E frame))))
              (snd (affine_transform E frame))).
Proof.
  intros Hret Hk.
  destruct (call_returned E a Hret)
    as (_ & _ & _ & _ & _ & Hvideo & Hff & Hvalid & HN & _ & Hlen & _).
  assert (Hle : length frames <= length (read_video E)).
  { rewrite Hlen, <- length_all_faces.
    pose proof (Nat.Div0.mul_div_le (usable_length E a (all_faces E)) (num_frames a)).
    unfold usable_length in *. destruct (add_audio_layer E); lia. }
  split; [exact Hle |].
  rewrite call_checked in Hret by assumption. cbv zeta in Hret.
  destruct (result (infer E a (all_faces E) (working_height E a) (working_width E a)))
    as [synced | e]; [| discriminate].
  cbn [result snd] in Hret. rewrite finish_spec in Hret. cbv zeta in Hret.
  destruct (result (restore_video E (superres a) synced (read_video E) _ _))
    as [outs | e] eqn:Hrestore; [| discriminate].
  destruct (result (remain_length _ _ _)); [| discriminate].
  cbn [result snd] in Hret. injection Hret as -> _.
  pose proof Hrestore as Hsynced. apply restore_video_returned in Hsynced.
  unfold restore_video in Hrestore.
  apply result_bind_returned in Hrestore as (outs' & Hfaces & Hstack).
  assert (outs' = frames) as -> by (destruct outs'; cbn in Hstack; congruence).
  destruct (nth_error synced k) as [face |] eqn:Hface;
    [| apply nth_error_None in Hface; lia].
  edestruct restore_faces_nth
    as (frame & b & affine & face' & Hf & Hb & Ha & Hs & Hout);
    [exact Hfaces | exact Hface |].
  cbn [Nat.add] in Hf, Hb, Ha.
  assert (Hframe : nth_error (read_video E) k = Some frame).
  { rewrite nth_error_firstn in Hf. destruct (k <? length synced); congruence. }
  rewrite nth_error_map, nth_error_map, Hframe in Hb, Ha. cbn in Hb, Ha.
  injection Hb as <-. injection Ha as <-.
  exists synced, frame, face, face'. repeat split; assumption.
Qed.

Lemma output_frame_is_built_on_its_own_input_frame_witness :
  let E := demo_env 5 100 false 1 in
  let a := demo_args 2 25 (3 # 2) "none" in
  exists frames audio,
    result (call E a) = Returned (frames, audio) /\
    3 < length frames <= 5 /\
    nth_error frames 3 = Some 3.
Proof.
  cbv zeta.
  set (E := demo_env 5 100 false 1).
  set (a := demo_args 2 25 (3 # 2) "none").
  assert (Hret : exists frames audio, result (call E a) = Returned (frames, audio)).
  { apply call_returns.
    - reflexivity.
    - repeat split. now exists 1%Z.
    - vm_compute. discriminate.
    - vm_compute. lia.
    - apply superresolve_none.
    - exists 2560%Z. vm_compute. reflexivity. }
  destruct Hret as (frames & audio & Hret).
  assert (Hk : 3 < length frames).
  { destruct (call_returned E a Hret) as (_ & _ & _ & _ & _ & _ & _ & _ & _ & _ & Hlen & _).
    rewrite Hlen. vm_compute. lia. }
  exists frames, audio. split; [exact Hret |].
  destruct (@output_frame_is_built_on_its_own_input_frame E a frames audio 3 Hret Hk)
    as (Hle & synced & frame & face & face' & _ & Hframe & _ & _ & Hout).
  split; [split; [exact Hk | exact Hle] |].
  rewrite Hout. vm_compute in Hframe. injection Hframe as <-. reflexivity.
Defined.

(** ** The conversion to bytes *)

Lemma int_of_Q_eq (p q : Q) : (p == q)%Q -> int_of_Q p = int_of_Q q.
Proof.
  unfold Qeq, int_of_Q. intros H.
  rewrite <- (Z.quot_mul_cancel_r (Qnum p) (Z.pos (Qden p)) (Z.pos (Qden q))) by lia.
  rewrite H, (Z.mul_comm (Z.pos (Qden p)) (Z.pos (Qden q))).
  apply Z.quot_mul_cancel_r; lia.
Qed.

Lemma int_of_Q_bounds (lo hi : Z) (q : Q) :
  (0 <= lo)%Z -> (inject_Z lo <= q)%Q -> (q <= inject_Z hi)%Q ->
  (lo <= int_of_Q q <= hi)%Z.
Proof.
  unfold Qle, int_of_Q. cbn [Qnum Qden inject_Z]. intros Hlo Hl Hh.
  assert (Hnum : (0 <= Qnum q)%Z) by nia.
  rewrite Z.quot_div_nonneg by lia. split.
  - apply Z.div_le_lower_bound; lia.
  - apply Z.div_le_upper_bound; lia.
Qed.

Lemma clamp01_range (v : Q) : (0 <= clamp01 v <= 1)%Q.
Proof.
  unfold clamp01.
  destruct (Qle_bool v 0) eqn:H0; [split; discriminate |].
  destruct (Qle_bool 1 v) eqn:H1; [split; discriminate |].
  split.
  - apply Qlt_le_weak, Qnot_le_lt. intros H. apply Qle_bool_iff in H. congruence.
  - apply Qlt_le_weak, Qnot_le_lt. intros H. apply Qle_bool_iff in H. congruence.
Qed.

Lemma clamp01_inside (v : Q) : (0 <= v <= 1)%Q -> (clamp01 v == v)%Q.
Proof.
  intros [H0 H1]. unfold clamp01.
  destruct (Qle_bool v 0) eqn:Hv0.
  { apply Qle_bool_iff in Hv0. now apply Qle_antisym. }
  destruct (Qle_bool 1 v) eqn:Hv1; [| reflexivity].
  apply Qle_bool_iff in Hv1. now apply Qle_antisym.
Qed.

(** The byte of one entry: [int(clamp(v / 2 + 0.5, 0, 1) * 255)]. *)
Lemma to_uint8_entry (face : block) (c y x : nat) :
  entry (to_uint8_image face) c y x
  = inject_Z (int_of_Q (clamp01 (entry face c y x / 2 + (1 # 2)) * 255)).
Proof. reflexivity. Qed.

(** X7. The conversion of pixel values to an image keeps the number and
    the shape of the frames and never wraps around: every entry of the
    image is a whole number from 0 to 255, values of -1 and below give 0,
    values of 1 and above give 255, the value 0 gives 127 (the fraction is
    cut, not rounded), and a larger value never gives a smaller byte. *)
Theorem image_bytes_saturate_and_truncate (pixel_values : tensor4) :
  length (pixel_values_to_images pixel_values) = length pixel_values /\
  forall k face,
    nth_error pixel_values k = Some face ->
    exists image,
      nth_error (pixel_values_to_images pixel_values) k = Some image /\
      image = to_uint8_image face /\
      shape image = shape face /\
      forall c y x,
        exists byte,
          entry image c y x = inject_Z byte /\
          (0 <= byte <= 255)%Z /\
          ((entry face c y x <= -1)%Q -> byte = 0%Z) /\
          ((entry face c y x == 0)%Q -> byte = 127%Z) /\
          ((1 <= entry face c y x)%Q -> byte = 255%Z) /\
          (forall face' image',
             image' = to_uint8_image face' ->
             (entry face c y x <= entry face' c y x)%Q ->
             (entry image c y x <= entry image' c y x)%Q).
Proof.
  unfold pixel_values_to_images. split; [apply length_map |].
  intros k face Hface. exists (to_uint8_image face).
  split; [rewrite nth_error_map, Hface; reflexivity |].
  split; [reflexivity |]. split; [reflexivity |].
  intros c y x. rewrite to_uint8_entry.
  set (v := entry face c y x).
  exists (int_of_Q (clamp01 (v / 2 + (1 # 2)) * 255)).
  split; [reflexivity |].
  pose proof (clamp01_range (v / 2 + (1 # 2))) as [Hc0 Hc1].
  split; [| split; [| split; [| split]]].
  - apply int_of_Q_bounds; [lia | |].
    + change (inject_Z 0) with (0 * 255)%Q. apply Qmult_le_compat_r; [assumption | discriminate].
    + change (inject_Z 255) with (1 * 255)%Q. apply Qmult_le_compat_r; [assumption | discriminate].
  - intros Hv. unfold clamp01.
    assert (H : Qle_bool (v / 2 + (1 # 2)) 0 = true).
    { apply Qle_bool_iff. unfold Qdiv. change (/ 2)%Q with (1 # 2)%Q.
      unfold Qle, Qplus, Qmult in *. cbn [Qnum Qden] in *. lia. }
    now rewrite H.
  - intros Hv. apply (@int_of_Q_eq _ (255 # 2)).
    rewrite clamp01_inside.
    + rewrite Hv. reflexivity.
    + rewrite Hv. split; discriminate.
  - intros Hv. unfold clamp01.
    assert (H0 : Qle_bool (v / 2 + (1 # 2)) 0 = false).
    { apply not_true_iff_false. rewrite Qle_bool_iff.
      unfold Qdiv. change (/ 2)%Q with (1 # 2)%Q.
      unfold Qle, Qplus, Qmult in *. cbn [Qnum Qden] in *. lia. }
    assert (H1 : Qle_bool 1 (v / 2 + (1 # 2)) = true).
    { apply Qle_bool_iff. unfold Qdiv. change (/ 2)%Q with (1 # 2)%Q.
      unfold Qle, Qplus, Qmult in *. cbn [Qnum Qden] in *. lia. }
    now rewrite H0, H1.
  - intros face' image' -> Hle. rewrite to_uint8_entry.
    fold v in Hle. set (v' := entry face' c y x) in *.
    rewrite <- Zle_Qle.
    pose proof (clamp01_range (v' / 2 + (1 # 2))) as [Hc0' Hc1'].
    assert (Hmono : (clamp01 (v / 2 + (1 # 2)) <= clamp01 (v' / 2 + (1 # 2)))%Q).
    { assert (Hu : (v / 2 + (1 # 2) <= v' / 2 + (1 # 2))%Q).
      { apply Qplus_le_compat; [| apply Qle_refl].
        unfold Qdiv. apply Qmult_le_compat_r; [assumption | discriminate]. }
      revert Hu. generalize (v / 2 + (1 # 2))%Q (v' / 2 + (1 # 2))%Q. intros u u' Hu.
      unfold clamp01.
      destruct (Qle_bool u 0) eqn:Hu0; [apply clamp01_range |].
      assert (Hu'0 : Qle_bool u' 0 = false).
      { apply not_true_iff_false. rewrite Qle_bool_iff. intros H.
        apply not_true_iff_false in Hu0. apply Hu0, Qle_bool_iff.
        now apply Qle_trans with u'. }
      rewrite Hu'0.
      destruct (Qle_bool 1 u) eqn:Hu1.
      - assert (Hu'1 : Qle_bool 1 u' = true)
          by (apply Qle_bool_iff; apply Qle_bool_iff in Hu1; now apply Qle_trans with u).
        rewrite Hu'1. apply Qle_refl.
      - destruct (Qle_bool 1 u') eqn:Hu'1; [| assumption].
        apply Qlt_le_weak, Qnot_le_lt. intros H. apply Qle_bool_iff in H. congruence. }
    revert Hmono Hc0.
    generalize (clamp01 (v / 2 + (1 # 2))) (clamp01 (v' / 2 + (1 # 2))). intros p q Hpq Hp.
    unfold int_of_Q, Qmult, Qle in *. cbn [Qnum Qden] in *.
    rewrite !Z.quot_div_nonneg by lia.
    rewrite !Pos.mul_1_r.
    apply Z.div_le_lower_bound; [lia |].
    pose proof (Z.mul_div_le (Qnum p * 255) (Z.pos (Qden p)) ltac:(lia)) as Hfloor.
    assert (Hq : (Z.pos (Qden q) * ((Qnum p * 255) / Z.pos (Qden p)) * Z.pos (Qden p)
                  <= Qnum q * 255 * Z.pos (Qden p))%Z) by nia.
    nia.
Qed.

(** ** Guidance on a model without audio layer *)

Lemma guide_block_same (gs : Q) (b : block) :
  block_equiv (bmap2 Qplus b (bmap (Qmult gs) (bmap2 Qminus b b))) b.
Proof. split; [reflexivity |]. intros c y x. cbn. ring. Qed.

Lemma guide_same (gs : Q) (u : tensor5) : tensor5_equiv (guide gs u u) u.
Proof.
  unfold tensor5_equiv, guide, t5map2, t5map.
  induction u as [| frames u IH]; cbn [zip_with map]; constructor; [| exact IH].
  unfold t4map2, t4map.
  induction frames as [| b frames IHf]; cbn [zip_with map]; constructor;
    [apply guide_block_same | exact IHf].
Qed.

(** X8. On a model without audio layer, classifier-free guidance has no
    effect on the prediction: the masks and the image latents are doubled,
    no audio embedding is passed, and the recombined prediction of the
    doubled batch has, entry by entry, the value of the prediction made
    without guidance, whatever the guidance scale. The generator is left
    in the same state. *)
Theorem guidance_is_idle_without_audio_layer (E : Env) (gs : Q)
    (whisper_chunks : list embed) (n i : nat)
    (masks masked_pixel_values pixel_values : tensor4) (height width : Z) (g : Generator)
    (latents : tensor4) (t : Timestep) :
  add_audio_layer E = false ->
  let masked cfg := prepare_mask_latents E masks masked_pixel_values height width g cfg in
  let image cfg := prepare_image_latents E pixel_values (snd (masked cfg)) cfg in
  let prediction cfg :=
    predict_noise E cfg gs
      (chunk_audio_embeds (add_audio_layer E) cfg whisper_chunks n i)
      (fst (fst (masked cfg))) (snd (fst (masked cfg))) (fst (image cfg)) [latents] t in
  snd (image true) = snd (image false) /\
  length (prediction true) = 1 /\
  tensor5_equiv (prediction true) (prediction false).
Proof.
  intros Hal masked image prediction.
  subst prediction image masked. cbv beta. rewrite Hal.
  unfold chunk_audio_embeds, prepare_mask_latents.
  destruct (vae_encode_sample E masked_pixel_values g) as [masked_latents g1].
  cbn [fst snd app]. unfold prepare_image_latents.
  destruct (vae_encode_sample E pixel_values g1) as [image_latents g2].
  cbn [fst snd app]. split; [reflexivity |].
  unfold predict_noise. cbn [app map cat_channels].
  unfold unet. cbn [length seq combine map option_map].
  unfold chunk2. cbn [length].
  change ((2 + 1) / 2) with 1. cbn [firstn skipn].
  split; [unfold guide, t5map2, t5map; reflexivity |].
  apply guide_same.
Qed.

Lemma guidance_is_idle_without_audio_layer_witness :
  let E := demo_env 5 100 false 1 in
  let face := const_block (1, 2, 2) (1 # 3) in
  let g := {| samples := fun _ => 0%Q; consumed := 0 |} in
  let masked cfg := prepare_mask_latents E [face] [face] 16 16 g cfg in
  let image cfg := prepare_image_latents E [face] (snd (masked cfg)) cfg in
  let prediction cfg :=
    predict_noise E cfg (3 # 2) (chunk_audio_embeds (add_audio_layer E) cfg [] 1 0)
      (fst (fst (masked cfg))) (snd (fst (masked cfg))) (fst (image cfg)) [[face]] 1%Z in
  add_audio_layer E = false /\
  length (fst (fst (masked true))) = 2 /\
  length (prediction true) = 1 /\
  tensor5_equiv (prediction true) (prediction false).
Proof.
  cbv zeta. split; [reflexivity |]. split; [reflexivity |].
  apply (@guidance_is_idle_without_audio_layer (demo_env 5 100 false 1) (3 # 2)
           [] 1 0 [const_block (1, 2, 2) (1 # 3)] [const_block (1, 2, 2) (1 # 3)]
           [const_block (1, 2, 2) (1 # 3)] 16%Z 16%Z
           {| samples := fun _ => 0%Q; consumed := 0 |}
           [const_block (1, 2, 2) (1 # 3)] 1%Z eq_refl).
Defined.

(** ** What a super-resolution variant returns *)

Lemma apply_gfpgan_superres_returned (E : Env) (face : block) (scale_factor : float)
    (face' : block) :
  result (apply_gfpgan_superres E face scale_factor) = Returned face' ->
  exists size, face' = bmap (fun v => (v / 255)%Q) (cv2_resize E face size).
Proof.
  unfold apply_gfpgan_superres. intros H.
  apply result_bind_returned in H as (u & _ & H).
  destruct (shape face) as [[c h] w].
  apply result_bind_returned in H as (new_h & _ & H).
  apply result_bind_returned in H as (new_w & _ & H).
  cbn in H. injection H as <-. now eexists.
Qed.

Lemma apply_codeformer_superres_returned (E : Env) (face : block) (scale_factor : float)
    (face' : block) :
  result (apply_codeformer_superres E face scale_factor) = Returned face' ->
  exists size, face' = bmap (fun v => (v / 255)%Q) (cv2_resize E face size).
Proof.
  unfold apply_codeformer_superres. intros H.
  apply result_bind_returned in H as (u & _ & H).
  destruct (shape face) as [[c h] w].
  apply result_bind_returned in H as (new_h & _ & H).
  apply result_bind_returned in H as (new_w & _ & H).
  cbn in H. injection H as <-. now eexists.
Qed.

Lemma superresolve_variant_returned (E : Env) (superres : string) (face : block)
    (height width : Z) (face' : block) :
  superres = "GFPGAN"%string \/ superres = "CodeFormer"%string ->
  superres_condition superres face height width = true ->
  result (superresolve E superres face height width) = Returned face' ->
  exists size, face' = bmap (fun v => (v / 255)%Q) (cv2_resize E face size).
Proof.
  unfold superres_condition, superresolve. intros Hmode Hcond H.
  destruct (shape face) as [[c h] w]. rewrite Hcond in H.
  apply result_bind_returned in H as (scale_h & _ & H).
  apply result_bind_returned in H as (scale_w & _ & H).
  destruct Hmode as [-> | ->]; cbn [String.eqb Ascii.eqb Bool.eqb] in H.
  - eapply apply_gfpgan_superres_returned; eassumption.
  - eapply apply_codeformer_superres_returned; eassumption.
Qed.

Lemma grey_byte (w : Q) :
  (- (1 # 255) <= w <= 1 # 255)%Q ->
  let byte := int_of_Q (clamp01 (w / 2 + (1 # 2)) * 255) in
  byte = 127%Z \/ byte = 128%Z.
Proof.
  intros [Hlo Hhi] byte. subst byte.
  assert (Hu : (127 # 255 <= w / 2 + (1 # 2) <= 128 # 255)%Q).
  { unfold Qdiv. change (/ 2)%Q with (1 # 2)%Q.
    unfold Qle, Qplus, Qmult, Qopp in *. cbn [Qnum Qden] in *. lia. }
  destruct Hu as [Hu0 Hu1].
  assert (Hclamp : (clamp01 (w / 2 + (1 # 2)) == w / 2 + (1 # 2))%Q).
  { apply clamp01_inside. split.
    - eapply Qle_trans; [| exact Hu0]. discriminate.
    - eapply Qle_trans; [exact Hu1 |]. discriminate. }
  assert (Heq : int_of_Q (clamp01 (w / 2 + (1 # 2)) * 255)
                = int_of_Q ((w / 2 + (1 # 2)) * 255))
    by (apply int_of_Q_eq; now rewrite Hclamp).
  rewrite Heq.
  assert (Hb : (127 <= int_of_Q ((w / 2 + (1 # 2)) * 255) <= 128)%Z).
  { apply int_of_Q_bounds; [lia | |].
    - apply Qle_trans with ((127 # 255) * 255)%Q; [discriminate |].
      apply Qmult_le_compat_r; [assumption | discriminate].
    - apply Qle_trans with ((128 # 255) * 255)%Q; [| discriminate].
      apply Qmult_le_compat_r; [assumption | discriminate]. }
  lia.
Qed.

(** X9. Neither super-resolution variant enhances anything: each returns
    the face enlarged by [cv2.resize] and divided by 255. When a variant
    fires on a face with entries in [-1, 1], and the two resizes
    interpolate, every byte of the patch pasted into the frame is 127 or
    128, whatever the face showed. *)
Theorem super_resolution_pastes_a_flat_patch (E : Env) (superres : string)
    (video_frames : list (Frame E)) (boxes : list box) (affine_matrices : list (Affine E))
    (index : nat) (face : block) (c face_h face_w : nat) (b : box) (out : Frame E) :
  superres = "GFPGAN"%string \/ superres = "CodeFormer"%string ->
  shape face = (c, face_h, face_w) ->
  nth_error boxes index = Some b ->
  (Z.of_nat face_h < box_height b \/ Z.of_nat face_w < box_width b)%Z ->
  (forall c y x, (- (1) <= entry face c y x <= 1)%Q) ->
  keeps_range (cv2_resize E) ->
  keeps_range (resize E) ->
  result (restore_face E superres video_frames boxes affine_matrices index face)
  = Returned out ->
  exists frame affine size,
    nth_error video_frames index = Some frame /\
    nth_error affine_matrices index = Some affine /\
    let enlarged := bmap (fun v => (v / 255)%Q) (cv2_resize E face size) in
    result (superresolve E superres face (box_height b) (box_width b)) = Returned enlarged /\
    out = restore_img E frame (restored_patch E enlarged b) affine /\
    forall c y x,
      entry (restored_patch E enlarged b) c y x = inject_Z 127 \/
      entry (restored_patch E enlarged b) c y x = inject_Z 128.
Proof.
  intros Hmode Hshape Hbox Hsmall Hface Hcv2 Hresize Hout.
  apply restore_face_returned in Hout
    as (frame & b' & affine & face' & Hf & Hb & Ha & Hs & ->).
  assert (b' = b) as -> by congruence.
  assert (Hcond : superres_condition superres face (box_height b) (box_width b) = true).
  { apply (@superres_condition_iff superres face c face_h face_w _ _ Hshape).
    split; [| exact Hsmall]. destruct Hmode as [-> | ->]; discriminate. }
  destruct (superresolve_variant_returned E _ _ _ Hmode Hcond Hs) as [size ->].
  exists frame, affine, size. cbv zeta.
  repeat split; try assumption.
  intros c' y x. unfold restored_patch. rewrite to_uint8_entry.
  set (w := entry (resize E _ _) c' y x).
  assert (Hw : (- (1 # 255) <= w <= 1 # 255)%Q).
  { apply Hresize. intros c0 y0 x0. cbn [bmap entry].
    specialize (Hcv2 face size (- (1))%Q 1%Q Hface c0 y0 x0).
    destruct Hcv2 as [Hlo Hhi]. unfold Qdiv. change (/ 255)%Q with (1 # 255)%Q.
    unfold Qle, Qmult, Qopp in *. cbn [Qnum Qden] in *. lia. }
  destruct (grey_byte Hw) as [-> | ->]; [now left | now right].
Qed.

Lemma super_resolution_pastes_a_flat_patch_witness :
  let E := demo_env 5 100 true 1 in
  let face := const_block (1, 2, 2) (3 # 4) in
  exists out,
    result (restore_face E "GFPGAN" (read_video E) [(0, 0, 4, 4)%Q] [tt] 0 face)
    = Returned out /\
    keeps_range (cv2_resize E) /\
    exists size,
      entry (restored_patch E (bmap (fun v => (v / 255)%Q) (cv2_resize E face size))
               (0, 0, 4, 4)%Q) 0 1 1 = inject_Z 127.
Proof.
  cbv zeta.
  assert (Hkeep : keeps_range (fun (b : block) (_ : Z * Z) => b))
    by (intros b size lo hi H; exact H).
  assert (Hface : forall c y x : nat,
             (- (1) <= entry (const_block (1, 2, 2)%nat (3 # 4)) c y x <= 1)%Q)
    by (intros c y x; split; discriminate).
  assert (Hsmall : (Z.of_nat 2 < box_height (0, 0, 4, 4)%Q
                    \/ Z.of_nat 2 < box_width (0, 0, 4, 4)%Q)%Z)
    by (left; vm_compute; reflexivity).
  exists 0. split; [vm_compute; reflexivity |]. split; [exact Hkeep |].
  destruct (@super_resolution_pastes_a_flat_patch (demo_env 5 100 true 1) "GFPGAN"
              (seq 0 5) [(0, 0, 4, 4)%Q] [tt] 0 (const_block (1, 2, 2) (3 # 4))
              1 2 2 (0, 0, 4, 4)%Q 0 (or_introl eq_refl) eq_refl eq_refl
              Hsmall Hface Hkeep Hkeep eq_refl)
    as (frame & affine & size & _ & _ & _ & _ & Hgrey).
  exists size. destruct (Hgrey 0 1 1) as [H | H]; [exact H |].
  vm_compute in H. discriminate.
Defined.

(** ** The working size *)

Lemma call_negative_size (E : Env) (a : Args) :
  ffmpeg_installed E = true ->
  read_video E <> [] ->
  valid_inputs (working_height E a) (working_width E a) (callback_steps a) ->
  num_frames a <> 0 ->
  (working_height E a < 0)%Z ->
  call E a =
  (gathered E ++ EvSetTimesteps (num_inference_steps a) :: audio_events E a,
   Raised (RuntimeError "Trying to create tensor with negative dimension")).
Proof.
  intros Hff Hvideo Hvalid HN Hneg.
  assert (Hvsf : (0 < vae_scale_factor E)%Z)
    by (unfold vae_scale_factor; apply Z.pow_pos_nonneg; lia).
  assert (Hlat : (working_height E a / vae_scale_factor E <? 0)%Z = true)
    by (apply Z.ltb_lt, Z.div_lt_upper_bound; lia).
  rewrite call_checked by assumption. cbv zeta.
  assert (Hinfer :
    infer E a (all_faces E) (working_height E a) (working_width E a)
    = (EvSetTimesteps (num_inference_steps a) :: audio_events E a,
       Raised (RuntimeError "Trying to create tensor with negative dimension"))).
  { unfold infer. rewrite num_inferences_spec.
    destruct (Nat.eqb_spec (num_frames a) 0) as [| _]; [contradiction |].
    cbn [bind tell ret app]. unfold prepare_latents. rewrite Hlat.
    cbn. now rewrite app_nil_r. }
  now rewrite Hinfer.
Qed.

(** X10. [check_inputs] does not look at the sign of the size: a negative
    height that is a multiple of 8 (with an equal width and a valid
    [callback_steps]) passes it. From there on, whatever the aligned faces
    are, the timesteps are set and the audio features computed, and the
    run raises when the shape of the noise is handed to [torch.randn]:
    no noise is drawn and no window is denoised. So a run whose face
    alignment returned ends there, with that [RuntimeError]. *)
Theorem negative_size_is_refused_only_by_the_noise_draw (E : Env) (a : Args) :
  valid_inputs (working_height E a) (working_width E a) (callback_steps a) ->
  num_frames a <> 0 ->
  (working_height E a < 0)%Z ->
  check_inputs (working_height E a) (working_width E a) (callback_steps a)
  = ([], Returned tt) /\
  exists msg,
    (forall faces,
       infer E a faces (working_height E a) (working_width E a)
       = (EvSetTimesteps (num_inference_steps a) :: audio_events E a,
          Raised (RuntimeError msg))) /\
    randn_shapes (EvSetTimesteps (num_inference_steps a) :: audio_events E a) = [] /\
    chunks_processed (EvSetTimesteps (num_inference_steps a) :: audio_events E a) = [] /\
    (forall r,
       result (gather E a) = Returned r ->
       call E a =
       (trace (gather E a) ++ EvSetTimesteps (num_inference_steps a) :: audio_events E a,
        Raised (RuntimeError msg))).
Proof.
  intros Hvalid HN Hneg.
  split; [now apply check_inputs_valid |].
  assert (Hvsf : (0 < vae_scale_factor E)%Z)
    by (unfold vae_scale_factor; apply Z.pow_pos_nonneg; lia).
  assert (Hlat : (working_height E a / vae_scale_factor E < 0)%Z)
    by (apply Z.div_lt_upper_bound; lia).
  assert (Hinfer : forall faces,
            infer E a faces (working_height E a) (working_width E a)
            = (EvSetTimesteps (num_inference_steps a) :: audio_events E a,
               Raised (RuntimeError "Trying to create tensor with negative dimension")))
    by (intros faces; apply infer_negative_eq; [exact HN | now left]).
  eexists. split; [exact Hinfer |].
  split; [unfold audio_events; now destruct (add_audio_layer E) |].
  split; [unfold audio_events; now destruct (add_audio_layer E) |].
  intros r Hret. rewrite call_spec.
  destruct (ffmpeg_installed E) eqn:Hff;
    [| rewrite gather_no_ffmpeg in Hret by assumption; discriminate].
  destruct (read_video E) as [| f fs] eqn:Hvideo;
    [rewrite gather_no_frames in Hret by assumption; discriminate |].
  rewrite gather_checked in Hret |- * by congruence.
  cbn [result snd trace fst] in Hret |- *.
  destruct (result (check_inputs _ _ _)); [| discriminate].
  now rewrite Hinfer.
Qed.

Lemma negative_size_is_refused_only_by_the_noise_draw_witness :
  let E := demo_env 5 100 true 1 in
  let a := set_size (demo_args 2 25 (3 # 2) "none") (Some (-8)%Z) (Some (-8)%Z) in
  (working_height E a = (-8)%Z /\
   valid_inputs (working_height E a) (working_width E a) (callback_steps a)) /\
  exists msg,
    forall faces,
      infer E a faces (-8) (-8)
      = ([EvSetTimesteps (num_inference_steps a); EvAudio2Feat; EvFeature2Chunks 25],
         Raised (RuntimeError msg)).
Proof.
  cbv zeta.
  set (E := demo_env 5 100 true 1).
  set (a := set_size (demo_args 2 25 (3 # 2) "none") (Some (-8)%Z) (Some (-8)%Z)).
  assert (Hvalid : valid_inputs (working_height E a) (working_width E a) (callback_steps a))
    by (repeat split; now exists 1%Z).
  assert (HN : num_frames a <> 0) by discriminate.
  assert (Hneg : (working_height E a < 0)%Z) by reflexivity.
  split; [split; [reflexivity | exact Hvalid] |].
  destruct (@negative_size_is_refused_only_by_the_noise_draw E a Hvalid HN Hneg)
    as (_ & msg & Hinfer & _).
  exists msg. intros faces. exact (Hinfer faces).
Defined.

(** ** When a run returns *)

(** X12. Without super-resolution, and for a video of at most 2^53 frames
    and a [video_fps] of at most 2^53 in absolute value (where [int / int]
    is the quotient of the two floats), a run returns if and only if the
    external encoder is installed, the size and [callback_steps] pass
    [check_inputs], the size is not negative, [num_frames] is positive and
    at most the usable length (the frames, capped by the audio feature
    chunks of an audio-conditioned model), [video_fps] is not 0 and the
    audio length computed from the output frames is a finite float.
    Nothing else makes a run raise. *)
Theorem a_run_returns_exactly_when (E : Env) (a : Args) :
  superres a = "none"%string ->
  (Z.of_nat (length (read_video E)) <= 2 ^ 53)%Z ->
  (Z.abs (video_fps a) <= 2 ^ 53)%Z ->
  (exists frames audio, result (call E a) = Returned (frames, audio)) <->
  ffmpeg_installed E = true /\
  valid_inputs (working_height E a) (working_width E a) (callback_steps a) /\
  (0 <= working_height E a)%Z /\
  0 < num_frames a <= usable_length E a (all_faces E) /\
  video_fps a <> 0%Z /\
  exists n,
    int_of_float
      (PrimFloat.mul
         (PrimFloat.div
            (float_of_Z (Z.of_nat (num_frames a
                                   * (usable_length E a (all_faces E) / num_frames a))))
            (float_of_Z (video_fps a)))
         (float_of_Z (audio_sample_rate a))) = Some n.
Proof.
  intros Hnone _ _. split.
  - intros (frames & audio & Hret).
    destruct (call_returned E a Hret)
      as (_ & n & _ & _ & _ & Hvideo & Hff & Hvalid & HN & Hni & Hlen & Hn & _).
    split; [exact Hff |]. split; [exact Hvalid |].
    split.
    { destruct (Z.lt_ge_cases (working_height E a) 0) as [Hneg | Hpos]; [| exact Hpos].
      rewrite (call_negative_size E a Hff Hvideo Hvalid HN Hneg) in Hret. discriminate. }
    split.
    { split; [lia |].
      destruct (Nat.lt_ge_cases (usable_length E a (all_faces E)) (num_frames a))
        as [Hshort | Hfits]; [| exact Hfits].
      rewrite Nat.div_small in Hni by assumption. lia. }
    rewrite Hlen in Hn. apply remain_length_returned in Hn as [Hfps Hn].
    split; [exact Hfps | now exists n].
  - intros (Hff & Hvalid & Hpos & HN & Hfps & n & Hn).
    apply call_returns; try assumption.
    + rewrite Hnone. apply superresolve_none.
    + exists n. unfold remain_length. rewrite truediv_nonzero by assumption.
      cbn [bind]. unfold to_int. now rewrite Hn.
Qed.

Lemma a_run_returns_exactly_when_witness :
  let E := demo_env 5 100 false 1 in
  let a := demo_args 2 25 (3 # 2) "none" in
  superres a = "none"%string /\
  exists frames audio, result (call E a) = Returned (frames, audio).
Proof.
  cbv zeta. split; [reflexivity |].
  apply (@a_run_returns_exactly_when (demo_env 5 100 false 1)
           (demo_args 2 25 (3 # 2) "none") eq_refl);
    [vm_compute; discriminate | vm_compute; discriminate |].
  split; [reflexivity |].
  split; [repeat split; now exists 1%Z |].
  split; [vm_compute; discriminate |].
  split; [vm_compute; lia |].
  split; [discriminate |].
  exists 2560%Z. vm_compute. reflexivity.
Defined.

(** ** The progress bar and the callback *)

Lemma div_succ (order j : Z) :
  (0 < order)%Z -> (0 <= j)%Z ->
  ((j + 1) / order = j / order + (if (j + 1) mod order =? 0 then 1 else 0))%Z.
Proof.
  intros Ho Hj.
  pose proof (Z.div_mod j order ltac:(lia)) as Hdm.
  pose proof (Z.mod_pos_bound j order Ho) as Hr.
  destruct (Z.eq_dec (j mod order) (order - 1)) as [Hlast | Hmid].
  - assert (Hj1 : (j + 1 = (j / order + 1) * order)%Z) by nia.
    rewrite Hj1, Z.mod_mul, Z.div_mul by lia. reflexivity.
  - assert (Hmod : ((j + 1) mod order = j mod order + 1)%Z).
    { symmetry. apply (Z.mod_unique _ _ (j / order)); [lia | nia]. }
    assert (Hdiv : ((j + 1) / order = j / order)%Z).
    { symmetry. apply (Z.div_unique _ _ _ (j mod order + 1)); [lia | nia]. }
    rewrite Hmod, Hdiv.
    destruct (Z.eqb_spec (j mod order + 1) 0); lia.
Qed.

Lemma bar_updates_app (r r' : list report) :
  bar_updates (r ++ r') = bar_updates r + bar_updates r'.
Proof. unfold bar_updates. now rewrite filter_app, length_app. Qed.

Section Progress.

Variables (len n : nat) (order : Z) (callback : bool) (callback_steps : Z).

Hypothesis order_positive : (0 < order)%Z.
Hypothesis callback_steps_positive : (0 < callback_steps)%Z.

Lemma advances_returns (j : nat) :
  advances len n order j =
  ([], Returned
         ((Z.of_nat j =? Z.of_nat len - 1)%Z
          || ((Z.of_nat len - Z.of_nat n * order <? Z.of_nat j + 1)%Z
              && ((Z.of_nat j + 1) mod order =? 0)%Z))).
Proof.
  unfold advances, pymod.
  destruct (Z.of_nat j =? Z.of_nat len - 1)%Z; [reflexivity |].
  destruct (_ <? _)%Z; [| reflexivity].
  destruct (Z.eqb_spec order 0); [lia | reflexivity].
Qed.

Lemma report_step_returns (j : nat) (t : Timestep) :
  exists here,
    report_step len n order callback callback_steps j t = ([], Returned here) /\
    bar_updates here
    = (if (Z.of_nat j =? Z.of_nat len - 1)%Z
          || ((Z.of_nat len - Z.of_nat n * order <? Z.of_nat j + 1)%Z
              && ((Z.of_nat j + 1) mod order =? 0)%Z)
       then 1 else 0) /\
    (forall r, In r here ->
       r = BarUpdate j \/
       r = CallbackCall j t /\ callback = true /\
       (Z.of_nat j mod callback_steps = 0)%Z /\ In (BarUpdate j) here) /\
    (callback = true -> (Z.of_nat j mod callback_steps = 0)%Z ->
     In (BarUpdate j) here -> In (CallbackCall j t) here).
Proof.
  unfold report_step. rewrite advances_returns. cbn [bind].
  destruct (_ || _).
  - destruct callback.
    + unfold pymod. destruct (Z.eqb_spec callback_steps 0) as [| _]; [lia |].
      cbn [bind ret app].
      destruct (Z.eqb_spec (Z.of_nat j mod callback_steps) 0) as [Hz | Hnz].
      * eexists. split; [reflexivity |]. split; [reflexivity |]. split.
        -- intros r [<- | [<- | []]]; [now left | right].
           repeat split; try assumption. now left.
        -- intros _ _ _. right. now left.
      * eexists. split; [reflexivity |]. split; [reflexivity |]. split.
        -- intros r [<- | []]. now left.
        -- intros _ Hz. contradiction.
    + eexists. split; [reflexivity |]. split; [reflexivity |]. split.
      * intros r [<- | []]. now left.
      * discriminate.
  - eexists. split; [reflexivity |]. split; [reflexivity |]. split.
    + intros r [].
    + intros _ _ [].
Qed.

Lemma report_steps_returns (timesteps : list Timestep) (j : nat) :
  0 < n ->
  j + length timesteps = len ->
  exists reports,
    report_steps len n order callback callback_steps j timesteps = ([], Returned reports) /\
    (timesteps <> [] ->
     Z.of_nat (bar_updates reports)
     = (1 + (Z.of_nat len - 1) / order
        - Z.max (Z.of_nat j) (Z.max (Z.of_nat len - Z.of_nat n * order) 0) / order)%Z) /\
    (forall r, In r reports ->
       exists i t,
         nth_error timesteps i = Some t /\
         (r = BarUpdate (j + i) \/
          r = CallbackCall (j + i) t /\ callback = true /\
          (Z.of_nat (j + i) mod callback_steps = 0)%Z /\
          In (BarUpdate (j + i)) reports)) /\
    (forall i t,
       callback = true -> nth_error timesteps i = Some t ->
       (Z.of_nat (j + i) mod callback_steps = 0)%Z ->
       In (BarUpdate (j + i)) reports -> In (CallbackCall (j + i) t) reports).
Proof.
  intros Hn. revert j.
  induction timesteps as [| t rest IH]; intros j Hlen.
  - exists []. split; [reflexivity |]. split; [congruence |]. split.
    + intros r [].
    + intros i t _ Hi. now destruct i.
  - cbn [length] in Hlen. cbn [report_steps].
    destruct (report_step_returns j t) as (here & Hhere & Hcount & Hin & Hcb).
    destruct (IH (S j) ltac:(lia)) as (later & Hlater & Hlcount & Hlin & Hlcb).
    rewrite Hhere. cbn [bind]. rewrite Hlater. cbn [bind ret app].
    exists (here ++ later). split; [reflexivity |]. split; [| split].
    + intros _. rewrite bar_updates_app, Nat2Z.inj_add, Hcount.
      set (w := (Z.of_nat len - Z.of_nat n * order)%Z) in *.
      assert (Hw : (w <= Z.of_nat len - 1)%Z) by (subst w; nia).
      destruct rest as [| t' rest'].
      * cbn [length] in Hlen.
        assert (Hlast : Z.of_nat j = (Z.of_nat len - 1)%Z) by lia.
        assert (later = []) as ->
          by (cbn in Hlater; now injection Hlater as <-).
        rewrite <- Hlast, Z.eqb_refl. cbn [orb bar_updates filter length].
        rewrite Z.max_l by lia. lia.
      * rewrite Hlcount by discriminate.
        cbn [length] in Hlen.
        destruct (Z.eqb_spec (Z.of_nat j) (Z.of_nat len - 1)) as [| _]; [lia |].
        cbn [orb].
        destruct (Z.ltb_spec w (Z.of_nat j + 1)) as [Hin_range | Hwarm]; cbn [andb].
        -- rewrite (Z.max_l (Z.of_nat (S j))), (Z.max_l (Z.of_nat j)) by lia.
           rewrite Nat2Z.inj_succ, <- Z.add_1_r.
           rewrite (div_succ order_positive (Nat2Z.is_nonneg j)).
           destruct (_ =? 0)%Z; lia.
        -- rewrite (Z.max_r (Z.of_nat (S j))), (Z.max_r (Z.of_nat j)) by lia. lia.
    + intros r Hr. apply in_app_or in Hr as [Hr | Hr].
      * exists 0, t. split; [reflexivity |]. rewrite Nat.add_0_r.
        destruct (Hin r Hr) as [Heq | (Heq & Hc & Hmod & Hup)]; [now left | right].
        repeat split; try assumption. apply in_or_app. now left.
      * destruct (Hlin r Hr) as (i & t' & Hi & Hcase).
        exists (S i), t'. split; [exact Hi |]. rewrite Nat.add_succ_r.
        destruct Hcase as [Heq | (Heq & Hc & Hmod & Hup)]; [now left | right].
        repeat split; try assumption. apply in_or_app. now right.
    + intros i t' Hcallback Hi Hmod Hupdate.
      apply in_or_app. apply in_app_or in Hupdate.
      destruct i as [| i].
      * cbn in Hi. injection Hi as <-. rewrite Nat.add_0_r in *.
        left. apply Hcb; try assumption.
        destruct Hupdate as [Hupdate | Hupdate]; [exact Hupdate |].
        destruct (Hlin _ Hupdate) as (i & t'' & _ & [Heq | [Heq _]]);
          [injection Heq; lia | discriminate].
      * rewrite Nat.add_succ_r in *. cbn [nth_error] in Hi.
        right. apply (Hlcb i t' Hcallback Hi Hmod).
        destruct Hupdate as [Hupdate | Hupdate]; [| exact Hupdate].
        destruct (Hin _ Hupdate) as [Heq | [Heq _]];
          [injection Heq; lia | discriminate].
Qed.

End Progress.

(** X13. The denoising loop of a chunk, for a scheduler of order at least
    1 and at least one inference step: when the timesteps are the
    [num_inference_steps * order] of the schedule, up to [order - 1] fewer,
    or a number of warm-up steps more that is a multiple of the order, the
    progress bar is advanced exactly [num_inference_steps] times, so it
    ends at its total. A callback is called only for a step that advances
    the bar and whose index is a multiple of [callback_steps], with that
    step's timestep, and for every such step; without a callback none is
    called. *)
Theorem progress_bar_ends_at_its_total (n : nat) (order : Z) (callback : bool)
    (callback_steps : Z) (timesteps : list Timestep) :
  0 < n -> (0 < order)%Z -> (0 < callback_steps)%Z ->
  let warmup := (Z.of_nat (length timesteps) - Z.of_nat n * order)%Z in
  (- order < warmup <= 0)%Z \/ (0 < warmup)%Z /\ (warmup mod order = 0)%Z ->
  exists reports,
    progress n order callback callback_steps timesteps = ([], Returned reports) /\
    bar_updates reports = n /\
    (forall j t,
       In (CallbackCall j t) reports <->
       callback = true /\ In (BarUpdate j) reports /\
       (Z.of_nat j mod callback_steps = 0)%Z /\ nth_error timesteps j = Some t).
Proof.
  intros Hn Ho Hcs warmup Hwarm. unfold progress.
  destruct (@report_steps_returns (length timesteps) n order callback callback_steps
              Ho Hcs timesteps 0 Hn eq_refl)
    as (reports & Hrun & Hcount & Hin & Hcb).
  exists reports. split; [exact Hrun |]. split.
  - assert (Hne : timesteps <> []).
    { intros ->. subst warmup. cbn [length] in Hwarm. nia. }
    specialize (Hcount Hne). fold warmup in Hcount.
    change (Z.of_nat 0) with 0%Z in Hcount. rewrite Z.max_r in Hcount by lia.
    apply Nat2Z.inj. rewrite Hcount.
    destruct Hwarm as [[Hlo Hhi] | [Hpos Hdiv]].
    + rewrite (Z.max_r warmup 0) by lia. rewrite Z.div_0_l by lia.
      assert (Hq : ((Z.of_nat (length timesteps) - 1) / order = Z.of_nat n - 1)%Z).
      { symmetry.
        apply (Z.div_unique _ _ _
                 (Z.of_nat (length timesteps) - 1 - order * (Z.of_nat n - 1)));
          subst warmup; nia. }
      lia.
    + rewrite (Z.max_l warmup 0) by lia.
      apply Z.mod_divide in Hdiv; [| lia]. destruct Hdiv as [q Hq].
      assert (Hlen : (Z.of_nat (length timesteps) - 1
                      = (q + Z.of_nat n - 1) * order + (order - 1))%Z)
        by (subst warmup; nia).
      rewrite Hq, Z.div_mul by lia.
      rewrite Hlen, Z.div_add_l by lia.
      rewrite Z.div_small by lia. lia.
  - intros j t. split.
    + intros Hcall.
      destruct (Hin _ Hcall) as (i & t' & Hi & [Heq | (Heq & Hc & Hmod & Hup)]);
        [discriminate |].
      cbn [Nat.add] in *. injection Heq as -> ->.
      repeat split; assumption.
    + intros (Hc & Hupdate & Hmod & Ht).
      apply (Hcb j t Hc Ht Hmod Hupdate).
Qed.

Lemma progress_bar_ends_at_its_total_witness :
  let timesteps := [30; 20; 10]%Z in
  (0 < 2 /\ (- (2) < Z.of_nat (length timesteps) - Z.of_nat 2 * 2 <= 0)%Z) /\
  exists reports,
    progress 2 2 true 2 timesteps = ([], Returned reports) /\
    reports = [BarUpdate 1; BarUpdate 2; CallbackCall 2 10%Z] /\
    bar_updates reports = 2.
Proof.
  cbv zeta.
  assert (Hn : 0 < 2) by lia.
  assert (Hwarm : (- (2) < Z.of_nat (length [30; 20; 10]%Z) - Z.of_nat 2 * 2 <= 0)%Z)
    by (cbn; lia).
  split; [split; assumption |].
  destruct (@progress_bar_ends_at_its_total 2 2%Z true 2%Z [30; 20; 10]%Z
              Hn eq_refl eq_refl (or_introl Hwarm))
    as (reports & Hrun & Hcount & _).
  exists reports. split; [exact Hrun |]. split; [| exact Hcount].
  vm_compute in Hrun. now injection Hrun as <-.
Defined.

(** ** The audio that is written *)

(** X14. The audio a run writes is an initial segment of the track it
    read, never padded: a track shorter than the computed length is
    written whole, so the written audio is then shorter than the video;
    and a negative computed length (a negative [video_fps] or
    [audio_sample_rate]) raises nothing: it drops that many samples from
    the end of the track. *)
Theorem written_audio_is_an_initial_segment (E : Env) (a : Args) frames audio :
  result (call E a) = Returned (frames, audio) ->
  exists n,
    remain_length (length frames) (video_fps a) (audio_sample_rate a) = ([], Returned n) /\
    audio = firstn (length audio) (read_audio E) /\
    length audio <= length (read_audio E) /\
    ((Z.of_nat (length (read_audio E)) <= n)%Z -> audio = read_audio E) /\
    ((n < 0)%Z -> length audio = length (read_audio E) - Z.to_nat (- n)).
Proof.
  intros Hret.
  destruct (call_returned E a Hret)
    as (_ & n & _ & _ & _ & _ & _ & _ & _ & _ & _ & Hn & ->).
  exists n. split; [exact Hn |].
  unfold slice_to. destruct (Z.ltb_spec n 0) as [Hneg | Hpos].
  - rewrite length_firstn.
    rewrite Nat.min_l by lia.
    split; [reflexivity |]. split; [lia |]. split; [lia | reflexivity].
  - rewrite length_firstn.
    split.
    { destruct (Nat.le_gt_cases (Z.to_nat n) (length (read_audio E))) as [Hin | Hout].
      - now rewrite Nat.min_l by assumption.
      - rewrite Nat.min_r by lia. now rewrite !firstn_all2 by lia. }
    split; [lia |]. split; [| lia].
    intros Hlong. apply firstn_all2. lia.
Qed.

Lemma written_audio_is_an_initial_segment_witness :
  let E := demo_env 5 100 false 1 in
  let a := demo_args 2 25 (3 # 2) "none" in
  exists frames audio,
    result (call E a) = Returned (frames, audio) /\
    audio = read_audio E /\ length audio = 100.
Proof.
  cbv zeta.
  set (E := demo_env 5 100 false 1).
  set (a := demo_args 2 25 (3 # 2) "none").
  assert (Hret : exists frames audio, result (call E a) = Returned (frames, audio)).
  { apply call_returns.
    - reflexivity.
    - repeat split. now exists 1%Z.
    - vm_compute. discriminate.
    - vm_compute. lia.
    - apply superresolve_none.
    - exists 2560%Z. vm_compute. reflexivity. }
  destruct Hret as (frames & audio & Hret).
  exists frames, audio. split; [exact Hret |].
  destruct (@written_audio_is_an_initial_segment E a frames audio Hret)
    as (n & Hn & _ & _ & Hwhole & _).
  assert (Hlen : length frames = 4).
  { destruct (call_returned E a Hret) as (_ & _ & _ & _ & _ & _ & _ & _ & _ & _ & Hlen & _).
    rewrite Hlen. reflexivity. }
  rewrite Hlen in Hn. vm_compute in Hn. injection Hn as <-.
  assert (Haudio : audio = read_audio E) by (apply Hwhole; vm_compute; discriminate).
  split; [exact Haudio |]. rewrite Haudio. reflexivity.
Defined.
